(** * AVI player: a shallow embedding of avi_player.h / avi_player.cpp

    The development follows the C++ sources function by function.  The
    byte source ([std::ifstream file]) is an explicit record holding the
    file contents, the get position and the stream's fail bit; the player
    object is a record with the class members; the parsing loops take a
    fuel argument and are shown to return with the fuel [loadAVI] gives
    them.  Packed structs that the code fills with
    [file.read(reinterpret_cast<char*>(&s), sizeof s)] are kept as their
    raw bytes, with typed accessors for the fields the code uses, so that
    a short read leaves exactly the bytes it would leave in memory. *)

From Stdlib.Strings Require Import Byte String.
From Stdlib Require Import ZArith List Lia Bool.
Import ListNotations.
Local Open Scope Z_scope.

(** ** Bytes and fixed-width integers *)

Definition byte_val (b : byte) : Z := Z.of_N (Byte.to_N b).

Definition byte_of (z : Z) : byte :=
  match Byte.of_N (Z.to_N (z mod 256)) with
  | Some b => b
  | None => x00
  end.

(** [uint32_t] arithmetic wraps modulo 2^32. *)
Definition wrap32 (z : Z) : Z := z mod 4294967296.

(** Reinterpretation of a 32-bit pattern as [int32_t]. *)
Definition to_i32 (z : Z) : Z :=
  if wrap32 z <? 2147483648 then wrap32 z else wrap32 z - 4294967296.

(** Little-endian value of a byte string (the host is little-endian, as
    the code assumes when it reads structs straight from the file). *)
Fixpoint le_uint (l : list byte) : Z :=
  match l with
  | [] => 0
  | b :: t => byte_val b + 256 * le_uint t
  end.

Definition enc32 (z : Z) : list byte :=
  [byte_of z; byte_of (z / 256); byte_of (z / 65536); byte_of (z / 16777216)].

Definition enc16 (z : Z) : list byte := [byte_of z; byte_of (z / 256)].

(** [n] bytes at offset [off] of a buffer. *)
Definition bytes_at (buf : list byte) (off n : nat) : list byte :=
  firstn n (skipn off buf).

Definition u32_at (buf : list byte) (off : nat) : Z := le_uint (bytes_at buf off 4).
Definition u16_at (buf : list byte) (off : nat) : Z := le_uint (bytes_at buf off 2).
Definition i32_at (buf : list byte) (off : nat) : Z := to_i32 (u32_at buf off).

(** Storing [got] at the start of an object whose previous bytes are
    [old]: the bytes not covered keep their previous value. *)
Definition overlay (got old : list byte) : list byte :=
  firstn (length old) (got ++ skipn (length got) old).

(** Storing a 32-bit value at offset [off] of a buffer. *)
Definition put32 (buf : list byte) (off : nat) (z : Z) : list byte :=
  firstn off buf ++ overlay (enc32 z) (skipn off buf).

Fixpoint bytes_eqb (a b : list byte) : bool :=
  match a, b with
  | [], [] => true
  | x :: a', y :: b' => Byte.eqb x y && bytes_eqb a' b'
  | _, _ => false
  end.

(** [strncmp(a, lit, 4) == 0] for a four-byte field [a] and a literal
    [lit] of four non-zero characters: equality of the four bytes. *)
Definition strncmp4_eq (a lit : list byte) : bool := bytes_eqb (firstn 4 a) lit.

Definition FCC_RIFF : list byte := Eval cbv in list_byte_of_string "RIFF".
Definition FCC_AVI  : list byte := Eval cbv in list_byte_of_string "AVI ".
Definition FCC_LIST : list byte := Eval cbv in list_byte_of_string "LIST".
Definition FCC_hdrl : list byte := Eval cbv in list_byte_of_string "hdrl".
Definition FCC_movi : list byte := Eval cbv in list_byte_of_string "movi".
Definition FCC_avih : list byte := Eval cbv in list_byte_of_string "avih".
Definition FCC_strl : list byte := Eval cbv in list_byte_of_string "strl".
Definition FCC_strh : list byte := Eval cbv in list_byte_of_string "strh".
Definition FCC_strf : list byte := Eval cbv in list_byte_of_string "strf".
Definition FCC_vids : list byte := Eval cbv in list_byte_of_string "vids".
Definition FCC_00dc : list byte := Eval cbv in list_byte_of_string "00dc".
Definition FCC_00db : list byte := Eval cbv in list_byte_of_string "00db".

(** ** Struct layouts (avi_player.h, [#pragma pack(push, 1)]) *)

Definition sizeof_RIFFHeader : Z := 12.
Definition sizeof_ChunkHeader : Z := 8.
Definition sizeof_AVIMainHeader : Z := 56.
Definition sizeof_AVIStreamHeader : Z := 56.
Definition sizeof_BitmapInfoHeader : Z := 40.
Definition sizeof_RGBQuad : Z := 4.

(** RIFFHeader: signature[4], fileSize, format[4]. *)
Definition riff_signature (h : list byte) : list byte := bytes_at h 0 4.
Definition riff_format (h : list byte) : list byte := bytes_at h 8 4.

(** AVIMainHeader: the fields the player uses. *)
Definition mh_microSecPerFrame (h : list byte) : Z := u32_at h 0.
Definition mh_totalFrames (h : list byte) : Z := u32_at h 16.
Definition mh_width (h : list byte) : Z := u32_at h 32.
Definition mh_height (h : list byte) : Z := u32_at h 36.

(** AVIStreamHeader: fccType is the first field. *)
Definition sh_fccType (h : list byte) : list byte := bytes_at h 0 4.

(** BitmapInfoHeader: size, width, height (int32), planes, bitCount
    (uint16), compression, ... *)
Definition bh_height (h : list byte) : Z := i32_at h 8.
Definition bh_bitCount (h : list byte) : Z := u16_at h 14.
Definition bh_compression (h : list byte) : Z := u32_at h 16.
Definition bh_set_height (h : list byte) (v : Z) : list byte := put32 h 8 v.

Record RGBQuad := mkQuad { blue : byte; green : byte; red : byte; reserved : byte }.

Definition zeroQuad : RGBQuad := mkQuad x00 x00 x00 x00.

Fixpoint quads_of_bytes (l : list byte) : list RGBQuad :=
  match l with
  | b :: g :: r :: x :: t => mkQuad b g r x :: quads_of_bytes t
  | _ => []
  end.

Definition bytes_of_quads (q : list RGBQuad) : list byte :=
  flat_map (fun c => [blue c; green c; red c; reserved c]) q.

Record ChunkHeader := mkChunk { fourCC : list byte; size : Z }.

Definition decode_chunk (raw : list byte) : ChunkHeader :=
  mkChunk (bytes_at raw 0 4) (u32_at raw 4).

(** ** The byte source: [std::ifstream] opened in binary mode

    Only the operations the player uses are modelled.  [eofbit] is never
    set without [failbit] by them, and the player never clears the state,
    so one flag is enough: once [failbit] is set every later read, seek
    and tell is refused by the stream's sentry. *)

Record ifstream := mkStream { contents : list byte; gpos : Z; failbit : bool }.

(** [file.read(buf, n)]: the bytes obtained and the new stream.  Fewer
    than [n] bytes left sets the fail bit; what was obtained is still
    stored in the destination. *)
Definition stream_read (n : Z) (s : ifstream) : list byte * ifstream :=
  if failbit s then ([], s)
  else
    let got := firstn (Z.to_nat n) (skipn (Z.to_nat (gpos s)) (contents s)) in
    if Z.of_nat (length got) =? n
    then (got, mkStream (contents s) (gpos s + n) false)
    else (got, mkStream (contents s) (gpos s + Z.of_nat (length got)) true).

(** [file.seekg(off, std::ios::cur)] with a non-negative offset: a file
    position past the end of the file is accepted. *)
Definition seekg_cur (off : Z) (s : ifstream) : ifstream :=
  if failbit s then s else mkStream (contents s) (gpos s + off) false.

(** [file.seekg(pos)]. *)
Definition seekg_abs (pos : Z) (s : ifstream) : ifstream :=
  if failbit s then s else mkStream (contents s) pos false.

(** [file.tellg()]: -1 on a failed stream. *)
Definition tellg (s : ifstream) : Z := if failbit s then -1 else gpos s.

(** ** The player object (class AVIPlayer)

    [texture] stands for the streaming texture created by [initSDL]: its
    pixel storage and the row stride [SDL_LockTexture] reports.
    [presented] lists the images handed to [SDL_RenderPresent], oldest
    first.  [cerr] lists the lines written to [std::cerr]; the
    informational output on [std::cout] is not modelled. *)

Inductive SDL_PixelFormatEnum :=
| SDL_PIXELFORMAT_UNKNOWN
| SDL_PIXELFORMAT_RGB24
| SDL_PIXELFORMAT_RGB565
| SDL_PIXELFORMAT_RGBA32.

Inductive ErrMsg :=
| Err_CannotOpen                        (* Error: Cannot open file ... *)
| Err_NotValidAVI                       (* Error: Not a valid AVI file *)
| Err_FailedParse                       (* Error: Failed to parse AVI structure *)
| Err_UnsupportedPixelFormat            (* Error: Unsupported pixel format *)
| Err_Compressed (compression : Z)      (* Error: Compressed formats not supported *)
| Err_UnsupportedBitDepth (bits : Z)    (* Error: Unsupported bit depth: ... *)
| Err_NotLoaded.                        (* Error: AVI file not loaded or invalid *)

Record SDL_Texture := mkTexture { tex_pixels : list byte; tex_pitch : Z }.

Record AVIPlayer := mkPlayer {
  texture : option SDL_Texture;
  presented : list (list byte);
  file : ifstream;
  mainHeader : list byte;
  streamHeader : list byte;
  bitmapHeader : list byte;
  frameWidth : Z;
  frameHeight : Z;
  fps : Z;
  totalFrames : Z;
  currentFrame : Z;
  bitsPerPixel : Z;
  bytesPerPixel : Z;
  isTopDown : bool;
  frameOffsets : list Z;
  frameSizes : list Z;
  palette : list RGBQuad;
  sdlPixelFormat : SDL_PixelFormatEnum;
  isValid : bool;
  cerr : list ErrMsg
}.

(** Member assignment. *)
Definition set_texture (v : option SDL_Texture) (p : AVIPlayer) : AVIPlayer :=
  mkPlayer
    v (presented p) (file p) (mainHeader p) (streamHeader p) (bitmapHeader
    p) (frameWidth p) (frameHeight p) (fps p) (totalFrames p)
    (currentFrame p) (bitsPerPixel p) (bytesPerPixel p) (isTopDown p)
    (frameOffsets p) (frameSizes p) (palette p) (sdlPixelFormat p)
    (isValid p) (cerr p).
Definition set_presented (v : list (list byte)) (p : AVIPlayer) : AVIPlayer :=
  mkPlayer
    (texture p) v (file p) (mainHeader p) (streamHeader p) (bitmapHeader
    p) (frameWidth p) (frameHeight p) (fps p) (totalFrames p)
    (currentFrame p) (bitsPerPixel p) (bytesPerPixel p) (isTopDown p)
    (frameOffsets p) (frameSizes p) (palette p) (sdlPixelFormat p)
    (isValid p) (cerr p).
Definition set_file (v : ifstream) (p : AVIPlayer) : AVIPlayer :=
  mkPlayer
    (texture p) (presented p) v (mainHeader p) (streamHeader p)
    (bitmapHeader p) (frameWidth p) (frameHeight p) (fps p) (totalFrames
    p) (currentFrame p) (bitsPerPixel p) (bytesPerPixel p) (isTopDown p)
    (frameOffsets p) (frameSizes p) (palette p) (sdlPixelFormat p)
    (isValid p) (cerr p).
Definition set_mainHeader (v : list byte) (p : AVIPlayer) : AVIPlayer :=
  mkPlayer
    (texture p) (presented p) (file p) v (streamHeader p) (bitmapHeader p)
    (frameWidth p) (frameHeight p) (fps p) (totalFrames p) (currentFrame
    p) (bitsPerPixel p) (bytesPerPixel p) (isTopDown p) (frameOffsets p)
    (frameSizes p) (palette p) (sdlPixelFormat p) (isValid p) (cerr p).
Definition set_streamHeader (v : list byte) (p : AVIPlayer) : AVIPlayer :=
  mkPlayer
    (texture p) (presented p) (file p) (mainHeader p) v (bitmapHeader p)
    (frameWidth p) (frameHeight p) (fps p) (totalFrames p) (currentFrame
    p) (bitsPerPixel p) (bytesPerPixel p) (isTopDown p) (frameOffsets p)
    (frameSizes p) (palette p) (sdlPixelFormat p) (isValid p) (cerr p).
Definition set_bitmapHeader (v : list byte) (p : AVIPlayer) : AVIPlayer :=
  mkPlayer
    (texture p) (presented p) (file p) (mainHeader p) (streamHeader p) v
    (frameWidth p) (frameHeight p) (fps p) (totalFrames p) (currentFrame
    p) (bitsPerPixel p) (bytesPerPixel p) (isTopDown p) (frameOffsets p)
    (frameSizes p) (palette p) (sdlPixelFormat p) (isValid p) (cerr p).
Definition set_frameWidth (v : Z) (p : AVIPlayer) : AVIPlayer :=
  mkPlayer
    (texture p) (presented p) (file p) (mainHeader p) (streamHeader p)
    (bitmapHeader p) v (frameHeight p) (fps p) (totalFrames p)
    (currentFrame p) (bitsPerPixel p) (bytesPerPixel p) (isTopDown p)
    (frameOffsets p) (frameSizes p) (palette p) (sdlPixelFormat p)
    (isValid p) (cerr p).
Definition set_frameHeight (v : Z) (p : AVIPlayer) : AVIPlayer :=
  mkPlayer
    (texture p) (presented p) (file p) (mainHeader p) (streamHeader p)
    (bitmapHeader p) (frameWidth p) v (fps p) (totalFrames p)
    (currentFrame p) (bitsPerPixel p) (bytesPerPixel p) (isTopDown p)
    (frameOffsets p) (frameSizes p) (palette p) (sdlPixelFormat p)
    (isValid p) (cerr p).
Definition set_fps (v : Z) (p : AVIPlayer) : AVIPlayer :=
  mkPlayer
    (texture p) (presented p) (file p) (mainHeader p) (streamHeader p)
    (bitmapHeader p) (frameWidth p) (frameHeight p) v (totalFrames p)
    (currentFrame p) (bitsPerPixel p) (bytesPerPixel p) (isTopDown p)
    (frameOffsets p) (frameSizes p) (palette p) (sdlPixelFormat p)
    (isValid p) (cerr p).
Definition set_totalFrames (v : Z) (p : AVIPlayer) : AVIPlayer :=
  mkPlayer
    (texture p) (presented p) (file p) (mainHeader p) (streamHeader p)
    (bitmapHeader p) (frameWidth p) (frameHeight p) (fps p) v
    (currentFrame p) (bitsPerPixel p) (bytesPerPixel p) (isTopDown p)
    (frameOffsets p) (frameSizes p) (palette p) (sdlPixelFormat p)
    (isValid p) (cerr p).
Definition set_currentFrame (v : Z) (p : AVIPlayer) : AVIPlayer :=
  mkPlayer
    (texture p) (presented p) (file p) (mainHeader p) (streamHeader p)
    (bitmapHeader p) (frameWidth p) (frameHeight p) (fps p) (totalFrames
    p) v (bitsPerPixel p) (bytesPerPixel p) (isTopDown p) (frameOffsets p)
    (frameSizes p) (palette p) (sdlPixelFormat p) (isValid p) (cerr p).
Definition set_bitsPerPixel (v : Z) (p : AVIPlayer) : AVIPlayer :=
  mkPlayer
    (texture p) (presented p) (file p) (mainHeader p) (streamHeader p)
    (bitmapHeader p) (frameWidth p) (frameHeight p) (fps p) (totalFrames
    p) (currentFrame p) v (bytesPerPixel p) (isTopDown p) (frameOffsets p)
    (frameSizes p) (palette p) (sdlPixelFormat p) (isValid p) (cerr p).
Definition set_bytesPerPixel (v : Z) (p : AVIPlayer) : AVIPlayer :=
  mkPlayer
    (texture p) (presented p) (file p) (mainHeader p) (streamHeader p)
    (bitmapHeader p) (frameWidth p) (frameHeight p) (fps p) (totalFrames
    p) (currentFrame p) (bitsPerPixel p) v (isTopDown p) (frameOffsets p)
    (frameSizes p) (palette p) (sdlPixelFormat p) (isValid p) (cerr p).
Definition set_isTopDown (v : bool) (p : AVIPlayer) : AVIPlayer :=
  mkPlayer
    (texture p) (presented p) (file p) (mainHeader p) (streamHeader p)
    (bitmapHeader p) (frameWidth p) (frameHeight p) (fps p) (totalFrames
    p) (currentFrame p) (bitsPerPixel p) (bytesPerPixel p) v (frameOffsets
    p) (frameSizes p) (palette p) (sdlPixelFormat p) (isValid p) (cerr p).
Definition set_frameOffsets (v : list Z) (p : AVIPlayer) : AVIPlayer :=
  mkPlayer
    (texture p) (presented p) (file p) (mainHeader p) (streamHeader p)
    (bitmapHeader p) (frameWidth p) (frameHeight p) (fps p) (totalFrames
    p) (currentFrame p) (bitsPerPixel p) (bytesPerPixel p) (isTopDown p) v
    (frameSizes p) (palette p) (sdlPixelFormat p) (isValid p) (cerr p).
Definition set_frameSizes (v : list Z) (p : AVIPlayer) : AVIPlayer :=
  mkPlayer
    (texture p) (presented p) (file p) (mainHeader p) (streamHeader p)
    (bitmapHeader p) (frameWidth p) (frameHeight p) (fps p) (totalFrames
    p) (currentFrame p) (bitsPerPixel p) (bytesPerPixel p) (isTopDown p)
    (frameOffsets p) v (palette p) (sdlPixelFormat p) (isValid p) (cerr p).
Definition set_palette (v : list RGBQuad) (p : AVIPlayer) : AVIPlayer :=
  mkPlayer
    (texture p) (presented p) (file p) (mainHeader p) (streamHeader p)
    (bitmapHeader p) (frameWidth p) (frameHeight p) (fps p) (totalFrames
    p) (currentFrame p) (bitsPerPixel p) (bytesPerPixel p) (isTopDown p)
    (frameOffsets p) (frameSizes p) v (sdlPixelFormat p) (isValid p) (cerr
    p).
Definition set_sdlPixelFormat (v : SDL_PixelFormatEnum) (p : AVIPlayer) : AVIPlayer :=
  mkPlayer
    (texture p) (presented p) (file p) (mainHeader p) (streamHeader p)
    (bitmapHeader p) (frameWidth p) (frameHeight p) (fps p) (totalFrames
    p) (currentFrame p) (bitsPerPixel p) (bytesPerPixel p) (isTopDown p)
    (frameOffsets p) (frameSizes p) (palette p) v (isValid p) (cerr p).
Definition set_isValid (v : bool) (p : AVIPlayer) : AVIPlayer :=
  mkPlayer
    (texture p) (presented p) (file p) (mainHeader p) (streamHeader p)
    (bitmapHeader p) (frameWidth p) (frameHeight p) (fps p) (totalFrames
    p) (currentFrame p) (bitsPerPixel p) (bytesPerPixel p) (isTopDown p)
    (frameOffsets p) (frameSizes p) (palette p) (sdlPixelFormat p) v (cerr
    p).
Definition set_cerr (v : list ErrMsg) (p : AVIPlayer) : AVIPlayer :=
  mkPlayer
    (texture p) (presented p) (file p) (mainHeader p) (streamHeader p)
    (bitmapHeader p) (frameWidth p) (frameHeight p) (fps p) (totalFrames
    p) (currentFrame p) (bitsPerPixel p) (bytesPerPixel p) (isTopDown p)
    (frameOffsets p) (frameSizes p) (palette p) (sdlPixelFormat p)
    (isValid p) v.

(** The constructor initialises every member except the three header
    structs, whose initial bytes are whatever the memory holds: [mh], [sh]
    and [bh], cut or zero-filled to the size of the struct. *)
Definition AVIPlayer_ctor (mh sh bh : list byte) : AVIPlayer :=
  mkPlayer None [] (mkStream [] 0 false)
           (firstn 56 (mh ++ repeat x00 56))
           (firstn 56 (sh ++ repeat x00 56))
           (firstn 40 (bh ++ repeat x00 40))
           0 0 0 0 0 0 0 false [] [] [] SDL_PIXELFORMAT_UNKNOWN false [].

(** ** Frame conversion *)

(** The loop counters [0 .. n-1]. *)
Definition zrange (n : Z) : list Z := map Z.of_nat (seq 0 (Z.to_nat n)).

(** [src[i]] on the frame data and [dst[i] = v] on the locked pixels.
    An access outside the object is undefined in C++; the model reads
    zero and drops the write. *)
Definition src_byte (frameData : list byte) (off : Z) : byte :=
  nth (Z.to_nat off) frameData x00.

Fixpoint upd_nth (n : nat) (v : byte) (l : list byte) : list byte :=
  match l, n with
  | [], _ => []
  | _ :: t, O => v :: t
  | h :: t, S n' => h :: upd_nth n' v t
  end.

Definition poke (off : Z) (v : byte) (pixels : list byte) : list byte :=
  upd_nth (Z.to_nat off) v pixels.

(** [uint32_t srcY = isTopDown ? y : (frameHeight - 1 - y)]. *)
Definition srcRow (p : AVIPlayer) (y : Z) : Z :=
  if isTopDown p then y else wrap32 (frameHeight p - 1 - y).

(** Body of the inner loop of [convert8BitToRGB24]: pixel [x] of a row
    whose source starts at [src] and whose destination starts at [dst]. *)
Definition convert8_pixel (p : AVIPlayer) (frameData : list byte) (dst src : Z)
    (px : list byte) (x : Z) : list byte :=
  let paletteIndex := byte_val (src_byte frameData (src + x)) in
  if paletteIndex <? Z.of_nat (length (palette p)) then
    let color := nth (Z.to_nat paletteIndex) (palette p) zeroQuad in
    poke (dst + wrap32 (x * 3 + 2)) (blue color)
      (poke (dst + wrap32 (x * 3 + 1)) (green color)
        (poke (dst + wrap32 (x * 3 + 0)) (red color) px))
  else
    poke (dst + wrap32 (x * 3 + 0)) x00
      (poke (dst + wrap32 (x * 3 + 1)) x00
        (poke (dst + wrap32 (x * 3 + 2)) x00 px)).

Definition convert8BitToRGB24 (p : AVIPlayer) (frameData pixels : list byte)
    (pitch : Z) : list byte :=
  fold_left (fun px y =>
    let srcY := srcRow p y in
    let dst := wrap32 (y * pitch) in
    let src := wrap32 (srcY * frameWidth p) in
    fold_left (convert8_pixel p frameData dst src) (zrange (frameWidth p)) px)
    (zrange (frameHeight p)) pixels.

(** [dst[x] = src[x]] on [uint16_t] pointers: the two bytes of element
    [x] are copied as they are. *)
Definition convert16BitToRGB565 (p : AVIPlayer) (frameData pixels : list byte)
    (pitch : Z) : list byte :=
  fold_left (fun px y =>
    let srcY := srcRow p y in
    let dst := wrap32 (y * pitch) in
    let src := wrap32 (srcY * frameWidth p * 2) in
    fold_left (fun px x =>
      poke (dst + 2 * x + 1) (src_byte frameData (src + 2 * x + 1))
        (poke (dst + 2 * x) (src_byte frameData (src + 2 * x)) px))
      (zrange (frameWidth p)) px)
    (zrange (frameHeight p)) pixels.

Definition convert24BitBGRToRGB (p : AVIPlayer) (frameData pixels : list byte)
    (pitch : Z) : list byte :=
  fold_left (fun px y =>
    let srcY := srcRow p y in
    let dst := wrap32 (y * pitch) in
    let src := wrap32 (srcY * frameWidth p * 3) in
    fold_left (fun px x =>
      poke (dst + wrap32 (x * 3 + 2)) (src_byte frameData (src + wrap32 (x * 3 + 0)))
        (poke (dst + wrap32 (x * 3 + 1)) (src_byte frameData (src + wrap32 (x * 3 + 1)))
          (poke (dst + wrap32 (x * 3 + 0)) (src_byte frameData (src + wrap32 (x * 3 + 2))) px)))
      (zrange (frameWidth p)) px)
    (zrange (frameHeight p)) pixels.

Definition convert32BitBGRAToRGBA (p : AVIPlayer) (frameData pixels : list byte)
    (pitch : Z) : list byte :=
  fold_left (fun px y =>
    let srcY := srcRow p y in
    let dst := wrap32 (y * pitch) in
    let src := wrap32 (srcY * frameWidth p * 4) in
    fold_left (fun px x =>
      poke (dst + wrap32 (x * 4 + 3)) (src_byte frameData (src + wrap32 (x * 4 + 3)))
        (poke (dst + wrap32 (x * 4 + 2)) (src_byte frameData (src + wrap32 (x * 4 + 0)))
          (poke (dst + wrap32 (x * 4 + 1)) (src_byte frameData (src + wrap32 (x * 4 + 1)))
            (poke (dst + wrap32 (x * 4 + 0)) (src_byte frameData (src + wrap32 (x * 4 + 2))) px))))
      (zrange (frameWidth p)) px)
    (zrange (frameHeight p)) pixels.

Definition convertAndCopyFrame (p : AVIPlayer) (frameData pixels : list byte)
    (pitch : Z) : list byte :=
  if bitsPerPixel p =? 8 then convert8BitToRGB24 p frameData pixels pitch
  else if bitsPerPixel p =? 16 then convert16BitToRGB565 p frameData pixels pitch
  else if bitsPerPixel p =? 24 then convert24BitBGRToRGB p frameData pixels pitch
  else if bitsPerPixel p =? 32 then convert32BitBGRAToRGBA p frameData pixels pitch
  else pixels.

(** ** Parsing *)

(** The loops below read chunk after chunk; [None] means that the fuel
    ran out.  [fuel_of] is the fuel every loop is started with:
    [parsing_terminates] shows it is always enough. *)
Definition fuel_of (p : AVIPlayer) : nat := S (length (contents (file p))).

Notation "x <- a ;; b" :=
  (match a with Some x => b | None => None end)
  (at level 61, a at next level, right associativity).

(** [palette.resize(n)]. *)
Definition resize_palette (n : nat) (pal : list RGBQuad) : list RGBQuad :=
  firstn n pal ++ repeat zeroQuad (n - length pal).

(** Body of the loop of [parseStreamList], after the chunk header has
    been read.  The palette read asks for [remainingBytes] bytes although
    the vector holds [4 * paletteEntries]: up to three bytes past its
    storage (undefined in C++) are dropped here. *)
Definition parseStreamList_chunk (chunk : ChunkHeader) (p : AVIPlayer) : AVIPlayer :=
  if strncmp4_eq (fourCC chunk) FCC_strh then
    let '(got, f1) := stream_read sizeof_AVIStreamHeader (file p) in
    set_streamHeader (overlay got (streamHeader p)) (set_file f1 p)
  else if strncmp4_eq (fourCC chunk) FCC_strf then
    if strncmp4_eq (sh_fccType (streamHeader p)) FCC_vids then
      let '(got, f1) := stream_read sizeof_BitmapInfoHeader (file p) in
      let p1 := set_bitmapHeader (overlay got (bitmapHeader p)) (set_file f1 p) in
      let remainingBytes := wrap32 (size chunk - sizeof_BitmapInfoHeader) in
      if (0 <? remainingBytes) && (bh_bitCount (bitmapHeader p1) =? 8) then
        let paletteEntries := remainingBytes / sizeof_RGBQuad in
        let resized := resize_palette (Z.to_nat paletteEntries) (palette p1) in
        let '(got2, f2) := stream_read remainingBytes (file p1) in
        set_palette (quads_of_bytes (overlay got2 (bytes_of_quads resized)))
                    (set_file f2 p1)
      else if 0 <? remainingBytes then
        set_file (seekg_cur remainingBytes (file p1)) p1
      else p1
    else set_file (seekg_cur (size chunk) (file p)) p
  else set_file (seekg_cur (size chunk) (file p)) p.

Fixpoint parseStreamList_loop (fuel : nat) (sz bytesRead : Z) (p : AVIPlayer)
    : option AVIPlayer :=
  match fuel with
  | O => None
  | S fuel' =>
    if bytesRead <? sz then
      let '(raw, f1) := stream_read sizeof_ChunkHeader (file p) in
      if failbit f1 then Some (set_file f1 p)
      else
        let chunk := decode_chunk raw in
        let bytesRead1 := wrap32 (bytesRead + sizeof_ChunkHeader) in
        let p1 := parseStreamList_chunk chunk (set_file f1 p) in
        parseStreamList_loop fuel' sz (wrap32 (bytesRead1 + size chunk)) p1
    else Some p
  end.

Definition parseStreamList (sz : Z) (p : AVIPlayer) : option AVIPlayer :=
  parseStreamList_loop (fuel_of p) sz 0 p.

(** ** indexFrames *)

Definition isFrameTag (tag : list byte) : bool :=
  strncmp4_eq tag FCC_00dc || strncmp4_eq tag FCC_00db.

Definition indexFrames_chunk (chunk : ChunkHeader) (p : AVIPlayer) : AVIPlayer :=
  let p1 :=
    if isFrameTag (fourCC chunk)
    then set_frameSizes (frameSizes p ++ [size chunk])
           (set_frameOffsets (frameOffsets p ++ [wrap32 (tellg (file p))]) p)
    else p in
  let skipSize :=
    if size chunk mod 2 =? 1 then wrap32 (size chunk + 1) else size chunk in
  set_file (seekg_cur skipSize (file p1)) p1.

Fixpoint indexFrames_loop (fuel : nat) (movieEnd : Z) (p : AVIPlayer)
    : option AVIPlayer :=
  match fuel with
  | O => None
  | S fuel' =>
    if tellg (file p) <? movieEnd then
      let '(raw, f1) := stream_read sizeof_ChunkHeader (file p) in
      if failbit f1 then Some (set_file f1 p)
      else indexFrames_loop fuel' movieEnd
             (indexFrames_chunk (decode_chunk raw) (set_file f1 p))
    else Some p
  end.

Definition indexFrames (movieSize : Z) (p : AVIPlayer) : option AVIPlayer :=
  let movieStart := tellg (file p) in
  indexFrames_loop (fuel_of p) (movieStart + movieSize) p.

Section Parsing.

(** The bytes an uninitialised [char listType[4]] and an uninitialised
    [RIFFHeader] hold before a read stores into them. *)
Variable uninit_listType : list byte.
Variable uninit_riffHeader : list byte.

(** Body of the loop of [parseHeaderList]; the result carries the
    updated [bytesRead]. *)
Definition parseHeaderList_chunk (chunk : ChunkHeader) (bytesRead : Z)
    (p : AVIPlayer) : option (Z * AVIPlayer) :=
  if strncmp4_eq (fourCC chunk) FCC_avih then
    let '(got, f1) := stream_read sizeof_AVIMainHeader (file p) in
    Some (bytesRead, set_mainHeader (overlay got (mainHeader p)) (set_file f1 p))
  else if strncmp4_eq (fourCC chunk) FCC_LIST then
    let '(got, f1) := stream_read 4 (file p) in
    let listType := overlay got (firstn 4 (uninit_listType ++ repeat x00 4)) in
    let bytesRead1 := wrap32 (bytesRead + 4) in
    let p1 := set_file f1 p in
    if strncmp4_eq listType FCC_strl then
      p2 <- parseStreamList (wrap32 (size chunk - 4)) p1 ;;
      Some (bytesRead1, p2)
    else Some (bytesRead1, set_file (seekg_cur (wrap32 (size chunk - 4)) (file p1)) p1)
  else Some (bytesRead, set_file (seekg_cur (size chunk) (file p)) p).

Fixpoint parseHeaderList_loop (fuel : nat) (sz bytesRead : Z) (p : AVIPlayer)
    : option AVIPlayer :=
  match fuel with
  | O => None
  | S fuel' =>
    if bytesRead <? sz then
      let '(raw, f1) := stream_read sizeof_ChunkHeader (file p) in
      if failbit f1 then Some (set_file f1 p)
      else
        let chunk := decode_chunk raw in
        r <- parseHeaderList_chunk chunk (wrap32 (bytesRead + sizeof_ChunkHeader))
               (set_file f1 p) ;;
        parseHeaderList_loop fuel' sz (wrap32 (fst r + size chunk)) (snd r)
    else Some p
  end.

Definition parseHeaderList (sz : Z) (p : AVIPlayer) : option AVIPlayer :=
  parseHeaderList_loop (fuel_of p) sz 0 p.

(** Body of the loop of [parseAVIChunks]: the flag tells whether the
    loop goes on ([false] after [break]); the second component is
    [foundMainHeader]. *)
Definition parseAVIChunks_chunk (chunk : ChunkHeader) (foundMainHeader : bool)
    (p : AVIPlayer) : option (bool * bool * AVIPlayer) :=
  if strncmp4_eq (fourCC chunk) FCC_LIST then
    let '(got, f1) := stream_read 4 (file p) in
    let listType := overlay got (firstn 4 (uninit_listType ++ repeat x00 4)) in
    let p1 := set_file f1 p in
    if strncmp4_eq listType FCC_hdrl then
      p2 <- parseHeaderList (wrap32 (size chunk - 4)) p1 ;;
      Some (true, true, p2)
    else if strncmp4_eq listType FCC_movi then
      p2 <- indexFrames (wrap32 (size chunk - 4)) p1 ;;
      Some (false, foundMainHeader, p2)
    else
      Some (true, foundMainHeader,
            set_file (seekg_cur (wrap32 (size chunk - 4)) (file p1)) p1)
  else
    Some (true, foundMainHeader, set_file (seekg_cur (size chunk) (file p)) p).

Fixpoint parseAVIChunks_loop (fuel : nat) (foundMainHeader : bool) (p : AVIPlayer)
    : option (bool * AVIPlayer) :=
  match fuel with
  | O => None
  | S fuel' =>
    let '(raw, f1) := stream_read sizeof_ChunkHeader (file p) in
    if failbit f1 then Some (foundMainHeader, set_file f1 p)
    else
      r <- parseAVIChunks_chunk (decode_chunk raw) foundMainHeader (set_file f1 p) ;;
      let '(continue, found, p1) := r in
      if continue then parseAVIChunks_loop fuel' found p1
      else Some (found, p1)
  end.

Definition parseAVIChunks (p : AVIPlayer) : option (bool * AVIPlayer) :=
  r <- parseAVIChunks_loop (fuel_of p) false p ;;
  let '(foundMainHeader, p1) := r in
  Some (foundMainHeader && negb (Nat.eqb (length (frameOffsets p1)) 0), p1).

(** ** determinePixelFormat *)

Definition determinePixelFormat (p : AVIPlayer) : bool * AVIPlayer :=
  let p1 := set_bitsPerPixel (bh_bitCount (bitmapHeader p)) p in
  let p2 := set_bytesPerPixel ((bitsPerPixel p1 + 7) / 8) p1 in
  if negb (bh_compression (bitmapHeader p2) =? 0) then
    (false, set_cerr (cerr p2 ++ [Err_Compressed (bh_compression (bitmapHeader p2))]) p2)
  else if bitsPerPixel p2 =? 8 then (true, set_sdlPixelFormat SDL_PIXELFORMAT_RGB24 p2)
  else if bitsPerPixel p2 =? 16 then (true, set_sdlPixelFormat SDL_PIXELFORMAT_RGB565 p2)
  else if bitsPerPixel p2 =? 24 then (true, set_sdlPixelFormat SDL_PIXELFORMAT_RGB24 p2)
  else if bitsPerPixel p2 =? 32 then (true, set_sdlPixelFormat SDL_PIXELFORMAT_RGBA32 p2)
  else (false, set_cerr (cerr p2 ++ [Err_UnsupportedBitDepth (bitsPerPixel p2)]) p2).

(** ** loadAVI *)

(** The part of [loadAVI] that follows the call of [parseAVIChunks]:
    frame rate, dimensions, orientation and pixel format.  Negating
    [INT32_MIN] is undefined in C++; the model wraps. *)
Definition loadAVI_finish (p : AVIPlayer) : bool * AVIPlayer :=
  let p1 :=
    if 0 <? mh_microSecPerFrame (mainHeader p)
    then set_fps (1000000 / mh_microSecPerFrame (mainHeader p)) p
    else set_fps 30 p in
  let p2 := set_frameWidth (mh_width (mainHeader p1)) p1 in
  let p3 := set_frameHeight (mh_height (mainHeader p2)) p2 in
  let p4 := set_totalFrames (mh_totalFrames (mainHeader p3)) p3 in
  let p5 :=
    if bh_height (bitmapHeader p4) <? 0 then
      let q1 := set_isTopDown true p4 in
      let q2 := set_bitmapHeader
                  (bh_set_height (bitmapHeader q1) (- bh_height (bitmapHeader q1))) q1 in
      set_frameHeight (wrap32 (bh_height (bitmapHeader q2))) q2
    else set_isTopDown false p4 in
  let '(ok, p6) := determinePixelFormat p5 in
  if ok then (true, set_isValid true p6)
  else (false, set_cerr (cerr p6 ++ [Err_UnsupportedPixelFormat]) p6).

(** [fs] is what the path names: [None] when the file cannot be opened. *)
Definition loadAVI (fs : option (list byte)) (p : AVIPlayer)
    : option (bool * AVIPlayer) :=
  match fs with
  | None => Some (false, set_cerr (cerr p ++ [Err_CannotOpen]) p)
  | Some bytes =>
    let p0 := set_file (mkStream bytes 0 false) p in
    let '(got, f1) := stream_read sizeof_RIFFHeader (file p0) in
    let riffHeader := overlay got (firstn 12 (uninit_riffHeader ++ repeat x00 12)) in
    let p1 := set_file f1 p0 in
    if negb (strncmp4_eq (riff_signature riffHeader) FCC_RIFF)
       || negb (strncmp4_eq (riff_format riffHeader) FCC_AVI)
    then Some (false, set_cerr (cerr p1 ++ [Err_NotValidAVI]) p1)
    else
      r <- parseAVIChunks p1 ;;
      let '(ok, p2) := r in
      if ok then Some (loadAVI_finish p2)
      else Some (false, set_cerr (cerr p2 ++ [Err_FailedParse]) p2)
  end.

End Parsing.

(** ** initSDL, renderFrame, play *)

(** [created] is the texture [SDL_CreateTexture] returns, [None] when
    any of the SDL calls fails. *)
Definition initSDL (created : option SDL_Texture) (p : AVIPlayer) : bool * AVIPlayer :=
  match created with
  | Some t => (true, set_texture (Some t) p)
  | None => (false, p)
  end.

(** [renderFrame] returns nothing.  Without a texture (a null pointer:
    [SDL_LockTexture] fails and [pixels] is uninitialised) the model
    draws nothing. *)
Definition renderFrame (frameIndex : Z) (p : AVIPlayer) : AVIPlayer :=
  if Z.of_nat (length (frameOffsets p)) <=? frameIndex then p
  else
    let f1 := seekg_abs (nth (Z.to_nat frameIndex) (frameOffsets p) 0) (file p) in
    let n := nth (Z.to_nat frameIndex) (frameSizes p) 0 in
    let '(got, f2) := stream_read n f1 in
    let frameData := overlay got (repeat x00 (Z.to_nat n)) in
    let p1 := set_file f2 p in
    match texture p1 with
    | None => p1
    | Some t =>
      let px := convertAndCopyFrame p1 frameData (tex_pixels t) (tex_pitch t) in
      set_presented (presented p1 ++ [px])
        (set_texture (Some (mkTexture px (tex_pitch t))) p1)
    end.

(** The playback loop.  Each element of [env] is one pass of the outer
    [while]: whether a quit event is polled in this pass, and whether the
    frame period has elapsed.  The result is the state after the passes
    [env] describes. *)
Fixpoint play_loop (env : list (bool * bool)) (quit : bool) (p : AVIPlayer)
    : AVIPlayer :=
  match env with
  | [] => p
  | (quitEvent, due) :: env' =>
    if negb quit && (currentFrame p <? totalFrames p) then
      let p1 :=
        if due
        then let q := renderFrame (currentFrame p) p in
             set_currentFrame (wrap32 (currentFrame q + 1)) q
        else p in
      play_loop env' (quit || quitEvent) p1
    else p
  end.

(** [play] computes the frame period as [1000 / fps] before the loop:
    with [fps = 0] (a frame duration above one second) this division is
    undefined, and the model gives [None]. *)
Definition play (env : list (bool * bool)) (p : AVIPlayer) : option AVIPlayer :=
  if isValid p then
    if fps p =? 0 then None else Some (play_loop env false p)
  else Some (set_cerr (cerr p ++ [Err_NotLoaded]) p).

(** ** Well-formed inputs

    The files the statements quantify over are described by their chunk
    tree and written out by [avi_bytes] in the RIFF layout: every chunk
    is its tag, its payload length and its payload, followed by a pad
    byte when the length is odd. *)

Record StreamDesc := mkStreamDesc {
  sd_strh : list byte;     (* payload of the strh chunk: the stream header *)
  sd_strf : list byte      (* payload of the strf chunk: the stream format *)
}.

Record MovieChunk := mkMovieChunk { mc_tag : list byte; mc_data : list byte }.

Record AVIFile := mkAVIFile {
  af_avih : list byte;               (* payload of the avih chunk *)
  af_streams : list StreamDesc;      (* one strl list each *)
  af_movi : list MovieChunk;         (* the chunks of the movie list *)
  af_trailer : list byte             (* what follows the movie list: idx1 ... *)
}.

Definition len (l : list byte) : Z := Z.of_nat (length l).

Definition pad_bytes (payload : list byte) : list byte :=
  if Nat.odd (length payload) then [x00] else [].

Definition chunk_bytes (tag payload : list byte) : list byte :=
  tag ++ enc32 (len payload) ++ payload ++ pad_bytes payload.

Definition list_bytes (listType body : list byte) : list byte :=
  FCC_LIST ++ enc32 (4 + len body) ++ listType ++ body.

Definition movie_chunk_bytes (c : MovieChunk) : list byte :=
  chunk_bytes (mc_tag c) (mc_data c).

Definition movi_body (cs : list MovieChunk) : list byte :=
  flat_map movie_chunk_bytes cs.

Definition strl_body (s : StreamDesc) : list byte :=
  chunk_bytes FCC_strh (sd_strh s) ++ chunk_bytes FCC_strf (sd_strf s).

Definition strl_bytes (s : StreamDesc) : list byte :=
  list_bytes FCC_strl (strl_body s).

Definition hdrl_body (a : AVIFile) : list byte :=
  chunk_bytes FCC_avih (af_avih a) ++ flat_map strl_bytes (af_streams a).

(** Everything up to the first chunk of the movie list. *)
Definition avi_prefix (a : AVIFile) : list byte :=
  FCC_RIFF
  ++ enc32 (4 + len (list_bytes FCC_hdrl (hdrl_body a))
            + len (list_bytes FCC_movi (movi_body (af_movi a)))
            + len (af_trailer a))
  ++ FCC_AVI ++ list_bytes FCC_hdrl (hdrl_body a)
  ++ FCC_LIST ++ enc32 (4 + len (movi_body (af_movi a))) ++ FCC_movi.

Definition avi_bytes (a : AVIFile) : list byte :=
  avi_prefix a ++ movi_body (af_movi a) ++ af_trailer a.

(** The file [avi_bytes a] cut inside the payload of the movie chunk [c]
    that follows the chunks [before]: of the payload only the first [m]
    bytes are left. *)
Definition avi_truncated (a : AVIFile) (before : list MovieChunk) (c : MovieChunk)
    (m : nat) : list byte :=
  avi_prefix a ++ movi_body before
  ++ mc_tag c ++ enc32 (len (mc_data c)) ++ firstn m (mc_data c).

(** Builders for the three header structs. *)
Definition make_avih (usec total width height : Z) : list byte :=
  enc32 usec ++ repeat x00 12 ++ enc32 total ++ repeat x00 12
  ++ enc32 width ++ enc32 height ++ repeat x00 16.

Definition make_strh (fccType : list byte) : list byte := fccType ++ repeat x00 52.

Definition make_bih (width height bitCount compression : Z) : list byte :=
  enc32 40 ++ enc32 width ++ enc32 height ++ enc16 1 ++ enc16 bitCount
  ++ enc32 compression ++ repeat x00 20.

Definition frames_in (cs : list MovieChunk) : list MovieChunk :=
  filter (fun c => isFrameTag (mc_tag c)) cs.

(** The index entries (offset, length) of the frame chunks among [cs],
    the first of which starts at file position [pos]. *)
Fixpoint frame_index (pos : Z) (cs : list MovieChunk) : list (Z * Z) :=
  match cs with
  | [] => []
  | c :: t =>
    (if isFrameTag (mc_tag c) then [(pos + 8, len (mc_data c))] else [])
    ++ frame_index (pos + len (movie_chunk_bytes c)) t
  end.

Definition is_video (s : StreamDesc) : bool :=
  strncmp4_eq (sh_fccType (sd_strh s)) FCC_vids.

(** What the stream list of [s] leaves in the bitmap header and the
    palette: a video stream replaces the header by the first 40 bytes of
    its format chunk, and the palette by the quads that follow when the
    depth is 8 bits; any other stream leaves both alone. *)
Definition capture_format (fmt : list byte * list RGBQuad) (s : StreamDesc)
    : list byte * list RGBQuad :=
  if is_video s then
    let bh := firstn 40 (sd_strf s) in
    let extra := skipn 40 (sd_strf s) in
    if (0 <? len extra) && (bh_bitCount bh =? 8)
    then (bh, quads_of_bytes extra)
    else (bh, snd fmt)
  else fmt.

Definition format_of (streams : list StreamDesc) (init : list byte * list RGBQuad)
    : list byte * list RGBQuad :=
  fold_left capture_format streams init.

(** The stream header the last stream list leaves. *)
Definition last_strh (streams : list StreamDesc) (init : list byte) : list byte :=
  fold_left (fun _ s => sd_strh s) streams init.

Definition wf_stream (s : StreamDesc) : Prop :=
  length (sd_strh s) = 56%nat
  /\ Nat.even (length (sd_strf s)) = true
  /\ (is_video s = true -> (40 <= length (sd_strf s))%nat).

Definition wf_movie_chunk (c : MovieChunk) : Prop := length (mc_tag c) = 4%nat.

(** The last two conditions keep [parseHeaderList] on the header list:
    its [bytesRead] counts four bytes too many for every stream list, so
    there must be few enough of them for the counter to stay below the
    list size before the last one, and it must not wrap. *)
Record wf_avi (a : AVIFile) : Prop := mk_wf_avi {
  wf_avih : length (af_avih a) = 56%nat;
  wf_streams : Forall wf_stream (af_streams a);
  wf_movi : Forall wf_movie_chunk (af_movi a);
  wf_size : len (avi_bytes a) < 4294967296;
  wf_stream_count : (length (af_streams a) <= 21)%nat;
  wf_header_size :
    len (hdrl_body a) + 4 * Z.of_nat (length (af_streams a)) < 4294967296
}.

(** The pixel formats [determinePixelFormat] accepts. *)
Definition supported_format (bh : list byte) : Prop :=
  bh_compression bh = 0
  /\ (bh_bitCount bh = 8 \/ bh_bitCount bh = 16
      \/ bh_bitCount bh = 24 \/ bh_bitCount bh = 32).

(** ** Concrete inputs *)

(** A player holding just what the conversion routines consult. *)
Definition decoder_state (width height bits : Z) (topDown : bool)
    (pal : list RGBQuad) : AVIPlayer :=
  set_palette pal
    (set_isTopDown topDown
      (set_bytesPerPixel ((bits + 7) / 8)
        (set_bitsPerPixel bits
          (set_frameHeight height
            (set_frameWidth width (AVIPlayer_ctor [] [] [])))))).

(** A 2x2, 24-bit file whose main header declares five frames while the
    movie list holds two frame chunks and one audio chunk. *)
Definition sample_avi : AVIFile :=
  mkAVIFile (make_avih 40000 5 2 2)
    [mkStreamDesc (make_strh FCC_vids) (make_bih 2 2 24 0)]
    [mkMovieChunk FCC_00dc
       [x01; x02; x03; x04; x05; x06; x07; x08; x09; x0a; x0b; x0c];
     mkMovieChunk (list_byte_of_string "01wb") [x55; x66; x77];
     mkMovieChunk FCC_00db
       [x11; x12; x13; x14; x15; x16; x17; x18; x19; x1a; x1b; x1c]]
    [].

Definition fresh_player : AVIPlayer := AVIPlayer_ctor [] [] [].

(** [sample_avi] loaded, with a 2x2 RGB24 texture of row stride 8. *)
Definition sample_loaded : option AVIPlayer :=
  r <- loadAVI [] [] (Some (avi_bytes sample_avi)) fresh_player ;;
  if fst r
  then Some (snd (initSDL (Some (mkTexture (repeat x00 16) 8)) (snd r)))
  else None.

(** ** Vocabulary of the statements *)

(** The source bytes of every row, as two decoders of [h] rows of [w]
    pixels of [k] bytes see them in their frame data. *)
Definition rows_agree (k w h : Z) (p1 : AVIPlayer) (d1 : list byte)
    (p2 : AVIPlayer) (d2 : list byte) : Prop :=
  forall y j, 0 <= y < h -> 0 <= j < w * k ->
    src_byte d1 (srcRow p1 y * w * k + j) = src_byte d2 (srcRow p2 y * w * k + j).

(** The RGB bytes Indexed8 decoding gives for a source byte of value
    [index]: the palette entry when there is one, black otherwise. *)
Definition indexed8_pixel (pal : list RGBQuad) (index : Z) : list byte :=
  if index <? Z.of_nat (length pal)
  then let color := nth (Z.to_nat index) pal zeroQuad in
       [red color; green color; blue color]
  else [x00; x00; x00].

(** A player holding the given headers and palette, as parsing leaves
    them. *)
Definition parsed_with (avih bih : list byte) (pal : list RGBQuad) : AVIPlayer :=
  set_palette pal (set_bitmapHeader bih (set_mainHeader avih fresh_player)).

(** [advances s s']: [s'] is a later state of the stream [s]: the same
    file, and either failed or further on. *)
Definition advances (s s' : ifstream) : Prop :=
  contents s' = contents s
  /\ (failbit s' = true
      \/ (failbit s = false /\ failbit s' = false /\ gpos s <= gpos s')).

(** The bytes a stream can still deliver. *)
Definition remaining (s : ifstream) : nat :=
  if failbit s then 0%nat else Z.to_nat (len (contents s) - gpos s).

(** A stream that has not failed is at a non-negative position. *)
Definition sane (s : ifstream) : Prop := failbit s = false -> 0 <= gpos s.

(** The bytes of the file from position [pos] on are [rest]. *)
Definition at_pos (bytes : list byte) (pos : Z) (rest : list byte) : Prop :=
  0 <= pos /\ skipn (Z.to_nat pos) bytes = rest.

(** The player [parseAVIChunks] leaves for the file [a], started on a
    fresh player whose header structs held [mh0], [sh0] and [bh0]: [f] is
    the state of the stream and [index] the frame index. *)
Definition parsed_player (a : AVIFile) (f : ifstream) (index : list (Z * Z))
    (mh0 sh0 bh0 : list byte) : AVIPlayer :=
  let p0 := AVIPlayer_ctor mh0 sh0 bh0 in
  let fmt := format_of (af_streams a) (bitmapHeader p0, []) in
  set_palette (snd fmt)
    (set_frameSizes (map snd index)
      (set_frameOffsets (map fst index)
        (set_bitmapHeader (fst fmt)
          (set_streamHeader (last_strh (af_streams a) (streamHeader p0))
            (set_mainHeader (af_avih a) (set_file f p0)))))).

(** A file with two video streams: the first 24-bit, the second 8-bit
    with a palette of two entries. *)
Definition two_stream_avi : AVIFile :=
  mkAVIFile (make_avih 40000 1 2 2)
    [mkStreamDesc (make_strh FCC_vids) (make_bih 2 2 24 0);
     mkStreamDesc (make_strh FCC_vids)
       (make_bih 2 2 8 0 ++ [x01; x02; x03; x00; x0a; x0b; x0c; x00])]
    [mkMovieChunk FCC_00dc [x00; x01; x01; x00]]
    [].

(** The last chunk of [sample_avi], of which the cut file keeps five of
    the twelve payload bytes. *)
Definition sample_last_chunk : MovieChunk :=
  mkMovieChunk FCC_00db
    [x11; x12; x13; x14; x15; x16; x17; x18; x19; x1a; x1b; x1c].

Definition sample_truncated : list byte :=
  avi_truncated sample_avi (firstn 2 (af_movi sample_avi)) sample_last_chunk 5.

(** A player positioned behind the header of a three-byte JUNK chunk at
    the start of a file. *)
Definition junk_file : list byte :=
  chunk_bytes (list_byte_of_string "JUNK") [x01; x02; x03]
  ++ chunk_bytes FCC_00dc [x04; x05].

Definition junk_player : AVIPlayer :=
  set_file (mkStream junk_file 8 false) fresh_player.

(** A player about to read the header of a movie chunk that declares 100
    bytes in a file that ends after four of them. *)
Definition short_movie_file : list byte :=
  FCC_00dc ++ enc32 100 ++ [x01; x02; x03; x04].

Definition short_movie_player : AVIPlayer :=
  set_file (mkStream short_movie_file 0 false) fresh_player.

(** ** Vocabulary of the further properties *)

(** Bytes per pixel of the texture a frame of the given depth is
    converted to: RGB565 for 16 bits, RGBA32 for 32 bits, RGB24 for 8 and
    24 bits. *)
Definition texel_bytes (bits : Z) : Z :=
  if bits =? 16 then 2 else if bits =? 32 then 4 else 3.

(** What the parsing routines leave alone: every member but the stream,
    the three header structs, the palette and the frame index; of the
    header structs, the size. *)
Definition parse_keeps (p q : AVIPlayer) : Prop :=
  texture q = texture p /\ presented q = presented p
  /\ frameWidth q = frameWidth p /\ frameHeight q = frameHeight p
  /\ fps q = fps p /\ totalFrames q = totalFrames p
  /\ currentFrame q = currentFrame p /\ bitsPerPixel q = bitsPerPixel p
  /\ bytesPerPixel q = bytesPerPixel p /\ isTopDown q = isTopDown p
  /\ sdlPixelFormat q = sdlPixelFormat p /\ isValid q = isValid p
  /\ cerr q = cerr p
  /\ length (mainHeader q) = length (mainHeader p)
  /\ length (streamHeader q) = length (streamHeader p)
  /\ length (bitmapHeader q) = length (bitmapHeader p).

(** An index entry (offset, length) that a chunk header of the file
    stands behind: the eight bytes before the offset are a frame tag and
    the length. *)
Definition entry_backed (bytes : list byte) (e : Z * Z) : Prop :=
  8 <= fst e <= len bytes
  /\ isFrameTag (bytes_at bytes (Z.to_nat (fst e - 8)) 4) = true
  /\ snd e = u32_at bytes (Z.to_nat (fst e - 4)).

(** The bytes [indexFrames] skips for a chunk of the given length. *)
Definition padded (sz : Z) : Z := if sz mod 2 =? 1 then wrap32 (sz + 1) else sz.

(** Index entries in file order: the header of the first chunk starts at
    [lo] or later, and the header of every other chunk where the chunk
    before it ends or later. *)
Fixpoint entries_ordered (lo : Z) (es : list (Z * Z)) : Prop :=
  match es with
  | [] => True
  | e :: t => lo + 8 <= fst e /\ entries_ordered (fst e + padded (snd e)) t
  end.

(** The texture format [determinePixelFormat] selects for a depth. *)
Definition pixel_format_of (bits : Z) : SDL_PixelFormatEnum :=
  if bits =? 16 then SDL_PIXELFORMAT_RGB565
  else if bits =? 32 then SDL_PIXELFORMAT_RGBA32
  else SDL_PIXELFORMAT_RGB24.

(** The shortest file [loadAVI] can accept: an empty header list and a
    movie list of one empty frame chunk, 44 bytes. *)
Definition minimal_file : list byte :=
  FCC_RIFF ++ enc32 36 ++ FCC_AVI
  ++ FCC_LIST ++ enc32 4 ++ FCC_hdrl
  ++ FCC_LIST ++ enc32 12 ++ FCC_movi
  ++ FCC_00dc ++ enc32 0.

(** What the header parsers leave alone: all of the above and the frame
    index. *)
Definition headers_only (p q : AVIPlayer) : Prop :=
  parse_keeps p q
  /\ frameOffsets q = frameOffsets p /\ frameSizes q = frameSizes p.

(** [sample_avi] with a compressed format (compression 1), and with an
    audio stream in place of the video stream. *)
Definition compressed_avi : AVIFile :=
  mkAVIFile (af_avih sample_avi)
    [mkStreamDesc (make_strh FCC_vids) (make_bih 2 2 24 1)]
    (af_movi sample_avi) [].

Definition audio_only_avi : AVIFile :=
  mkAVIFile (af_avih sample_avi)
    [mkStreamDesc (make_strh (list_byte_of_string "auds")) (repeat x00 16)]
    (af_movi sample_avi) [].

(** [sample_avi] followed by an index chunk. *)
Definition sample_with_index : AVIFile :=
  mkAVIFile (af_avih sample_avi) (af_streams sample_avi) (af_movi sample_avi)
    (chunk_bytes (list_byte_of_string "idx1") (repeat xff 32)).

(** A file like [sample_avi] whose frames last two seconds. *)
Definition slow_avi : AVIFile :=
  mkAVIFile (make_avih 2000000 5 2 2) (af_streams sample_avi) (af_movi sample_avi) [].

(** The first chunk of [sample_avi], and the file cut after five bytes of
    its payload: two more chunks are declared behind it. *)
Definition sample_first_chunk : MovieChunk :=
  mkMovieChunk FCC_00dc
    [x01; x02; x03; x04; x05; x06; x07; x08; x09; x0a; x0b; x0c].

Definition sample_cut_early : list byte :=
  avi_truncated sample_avi [] sample_first_chunk 5.

(** The passes of the playback loop in which a frame is due. *)
Definition due_passes (env : list (bool * bool)) : Z :=
  Z.of_nat (length (filter snd env)).

(** ** main

    [argc] is the argument count, [fs] what the path [argv[1]] names
    ([None] when it cannot be opened), [created] the texture [initSDL]
    obtains and [env] the passes of the playback loop; [mh], [sh] and [bh]
    are what the memory of the player object holds when it is
    constructed.  The result is the exit status and the player object, if
    one was constructed, as it is when [main] returns.  The lines [main]
    itself writes are not modelled. *)
Definition main (uninit_listType uninit_riffHeader mh sh bh : list byte)
    (argc : Z) (fs : option (list byte)) (created : option SDL_Texture)
    (env : list (bool * bool)) : option (Z * option AVIPlayer) :=
  if negb (argc =? 2) then Some (1, None)
  else
    match fs with
    | None => Some (1, None)
    | Some bytes =>
      let player := AVIPlayer_ctor mh sh bh in
      r <- loadAVI uninit_listType uninit_riffHeader (Some bytes) player ;;
      if negb (fst r) then Some (1, Some (snd r))
      else
        let r2 := initSDL created (snd r) in
        if negb (fst r2) then Some (1, Some (snd r2))
        else p3 <- play env (snd r2) ;; Some (0, Some p3)
    end.

(** A valid player without texture or index whose header declared two
    frames. *)
Definition two_frame_player : AVIPlayer :=
  set_totalFrames 2 (set_isValid true (set_fps 25 (decoder_state 1 1 24 true []))).

(** The player [sample_loaded] gives. *)
Definition sample_player : AVIPlayer :=
  match sample_loaded with Some p => p | None => fresh_player end.

(** A player that has read the header of a video stream and stands at
    the payload of its format chunk: a 24-bit bitmap header. *)
Definition short_format_player : AVIPlayer :=
  set_streamHeader (make_strh FCC_vids)
    (set_file (mkStream (make_bih 2 2 24 0) 0 false) (AVIPlayer_ctor [] [] [])).


(** * Properties *)

(** ** Bytes and integers *)

#[global] Arguments mh_microSecPerFrame : simpl never.
#[global] Arguments mh_totalFrames : simpl never.
#[global] Arguments mh_width : simpl never.
#[global] Arguments mh_height : simpl never.
#[global] Arguments bh_height : simpl never.
#[global] Arguments bh_bitCount : simpl never.
#[global] Arguments bh_compression : simpl never.
#[global] Arguments bh_set_height : simpl never.
#[global] Arguments sh_fccType : simpl never.
#[global] Arguments wrap32 : simpl never.

(** Member access after member assignment. *)
Ltac psimpl :=
  cbn [
       texture presented file mainHeader streamHeader bitmapHeader frameWidth
       frameHeight fps totalFrames currentFrame bitsPerPixel bytesPerPixel
       isTopDown frameOffsets frameSizes palette sdlPixelFormat isValid cerr
       set_texture set_presented set_file set_mainHeader set_streamHeader
       set_bitmapHeader set_frameWidth set_frameHeight set_fps
       set_totalFrames set_currentFrame set_bitsPerPixel set_bytesPerPixel
       set_isTopDown set_frameOffsets set_frameSizes set_palette
       set_sdlPixelFormat set_isValid set_cerr].
Tactic Notation "psimpl" "in" hyp(H) :=
  cbn [
       texture presented file mainHeader streamHeader bitmapHeader frameWidth
       frameHeight fps totalFrames currentFrame bitsPerPixel bytesPerPixel
       isTopDown frameOffsets frameSizes palette sdlPixelFormat isValid cerr
       set_texture set_presented set_file set_mainHeader set_streamHeader
       set_bitmapHeader set_frameWidth set_frameHeight set_fps
       set_totalFrames set_currentFrame set_bitsPerPixel set_bytesPerPixel
       set_isTopDown set_frameOffsets set_frameSizes set_palette
       set_sdlPixelFormat set_isValid set_cerr] in H.

(** Member assignment on a player given by its members. *)
Lemma set_texture_mk a0 a1 a2 a3 a4 a5 a6 a7 a8 a9
    a10 a11 a12 a13 a14 a15 a16 a17 a18 a19 v :
  set_texture v (mkPlayer a0 a1 a2 a3 a4 a5 a6 a7 a8 a9
    a10 a11 a12 a13 a14 a15 a16 a17 a18 a19)
  = mkPlayer v a1 a2 a3 a4 a5 a6 a7 a8 a9
      a10 a11 a12 a13 a14 a15 a16 a17 a18 a19.
Proof. reflexivity. Qed.
Lemma set_presented_mk a0 a1 a2 a3 a4 a5 a6 a7 a8 a9
    a10 a11 a12 a13 a14 a15 a16 a17 a18 a19 v :
  set_presented v (mkPlayer a0 a1 a2 a3 a4 a5 a6 a7 a8 a9
    a10 a11 a12 a13 a14 a15 a16 a17 a18 a19)
  = mkPlayer a0 v a2 a3 a4 a5 a6 a7 a8 a9
      a10 a11 a12 a13 a14 a15 a16 a17 a18 a19.
Proof. reflexivity. Qed.
Lemma set_file_mk a0 a1 a2 a3 a4 a5 a6 a7 a8 a9
    a10 a11 a12 a13 a14 a15 a16 a17 a18 a19 v :
  set_file v (mkPlayer a0 a1 a2 a3 a4 a5 a6 a7 a8 a9
    a10 a11 a12 a13 a14 a15 a16 a17 a18 a19)
  = mkPlayer a0 a1 v a3 a4 a5 a6 a7 a8 a9
      a10 a11 a12 a13 a14 a15 a16 a17 a18 a19.
Proof. reflexivity. Qed.
Lemma set_mainHeader_mk a0 a1 a2 a3 a4 a5 a6 a7 a8 a9
    a10 a11 a12 a13 a14 a15 a16 a17 a18 a19 v :
  set_mainHeader v (mkPlayer a0 a1 a2 a3 a4 a5 a6 a7 a8 a9
    a10 a11 a12 a13 a14 a15 a16 a17 a18 a19)
  = mkPlayer a0 a1 a2 v a4 a5 a6 a7 a8 a9
      a10 a11 a12 a13 a14 a15 a16 a17 a18 a19.
Proof. reflexivity. Qed.
Lemma set_streamHeader_mk a0 a1 a2 a3 a4 a5 a6 a7 a8 a9
    a10 a11 a12 a13 a14 a15 a16 a17 a18 a19 v :
  set_streamHeader v (mkPlayer a0 a1 a2 a3 a4 a5 a6 a7 a8 a9
    a10 a11 a12 a13 a14 a15 a16 a17 a18 a19)
  = mkPlayer a0 a1 a2 a3 v a5 a6 a7 a8 a9
      a10 a11 a12 a13 a14 a15 a16 a17 a18 a19.
Proof. reflexivity. Qed.
Lemma set_bitmapHeader_mk a0 a1 a2 a3 a4 a5 a6 a7 a8 a9
    a10 a11 a12 a13 a14 a15 a16 a17 a18 a19 v :
  set_bitmapHeader v (mkPlayer a0 a1 a2 a3 a4 a5 a6 a7 a8 a9
    a10 a11 a12 a13 a14 a15 a16 a17 a18 a19)
  = mkPlayer a0 a1 a2 a3 a4 v a6 a7 a8 a9
      a10 a11 a12 a13 a14 a15 a16 a17 a18 a19.
Proof. reflexivity. Qed.
Lemma set_frameWidth_mk a0 a1 a2 a3 a4 a5 a6 a7 a8 a9
    a10 a11 a12 a13 a14 a15 a16 a17 a18 a19 v :
  set_frameWidth v (mkPlayer a0 a1 a2 a3 a4 a5 a6 a7 a8 a9
    a10 a11 a12 a13 a14 a15 a16 a17 a18 a19)
  = mkPlayer a0 a1 a2 a3 a4 a5 v a7 a8 a9
      a10 a11 a12 a13 a14 a15 a16 a17 a18 a19.
Proof. reflexivity. Qed.
Lemma set_frameHeight_mk a0 a1 a2 a3 a4 a5 a6 a7 a8 a9
    a10 a11 a12 a13 a14 a15 a16 a17 a18 a19 v :
  set_frameHeight v (mkPlayer a0 a1 a2 a3 a4 a5 a6 a7 a8 a9
    a10 a11 a12 a13 a14 a15 a16 a17 a18 a19)
  = mkPlayer a0 a1 a2 a3 a4 a5 a6 v a8 a9
      a10 a11 a12 a13 a14 a15 a16 a17 a18 a19.
Proof. reflexivity. Qed.
Lemma set_fps_mk a0 a1 a2 a3 a4 a5 a6 a7 a8 a9
    a10 a11 a12 a13 a14 a15 a16 a17 a18 a19 v :
  set_fps v (mkPlayer a0 a1 a2 a3 a4 a5 a6 a7 a8 a9
    a10 a11 a12 a13 a14 a15 a16 a17 a18 a19)
  = mkPlayer a0 a1 a2 a3 a4 a5 a6 a7 v a9
      a10 a11 a12 a13 a14 a15 a16 a17 a18 a19.
Proof. reflexivity. Qed.
Lemma set_totalFrames_mk a0 a1 a2 a3 a4 a5 a6 a7 a8 a9
    a10 a11 a12 a13 a14 a15 a16 a17 a18 a19 v :
  set_totalFrames v (mkPlayer a0 a1 a2 a3 a4 a5 a6 a7 a8 a9
    a10 a11 a12 a13 a14 a15 a16 a17 a18 a19)
  = mkPlayer a0 a1 a2 a3 a4 a5 a6 a7 a8 v
      a10 a11 a12 a13 a14 a15 a16 a17 a18 a19.
Proof. reflexivity. Qed.
Lemma set_currentFrame_mk a0 a1 a2 a3 a4 a5 a6 a7 a8 a9
    a10 a11 a12 a13 a14 a15 a16 a17 a18 a19 v :
  set_currentFrame v (mkPlayer a0 a1 a2 a3 a4 a5 a6 a7 a8 a9
    a10 a11 a12 a13 a14 a15 a16 a17 a18 a19)
  = mkPlayer a0 a1 a2 a3 a4 a5 a6 a7 a8 a9
      v a11 a12 a13 a14 a15 a16 a17 a18 a19.
Proof. reflexivity. Qed.
Lemma set_bitsPerPixel_mk a0 a1 a2 a3 a4 a5 a6 a7 a8 a9
    a10 a11 a12 a13 a14 a15 a16 a17 a18 a19 v :
  set_bitsPerPixel v (mkPlayer a0 a1 a2 a3 a4 a5 a6 a7 a8 a9
    a10 a11 a12 a13 a14 a15 a16 a17 a18 a19)
  = mkPlayer a0 a1 a2 a3 a4 a5 a6 a7 a8 a9
      a10 v a12 a13 a14 a15 a16 a17 a18 a19.
Proof. reflexivity. Qed.
Lemma set_bytesPerPixel_mk a0 a1 a2 a3 a4 a5 a6 a7 a8 a9
    a10 a11 a12 a13 a14 a15 a16 a17 a18 a19 v :
  set_bytesPerPixel v (mkPlayer a0 a1 a2 a3 a4 a5 a6 a7 a8 a9
    a10 a11 a12 a13 a14 a15 a16 a17 a18 a19)
  = mkPlayer a0 a1 a2 a3 a4 a5 a6 a7 a8 a9
      a10 a11 v a13 a14 a15 a16 a17 a18 a19.
Proof. reflexivity. Qed.
Lemma set_isTopDown_mk a0 a1 a2 a3 a4 a5 a6 a7 a8 a9
    a10 a11 a12 a13 a14 a15 a16 a17 a18 a19 v :
  set_isTopDown v (mkPlayer a0 a1 a2 a3 a4 a5 a6 a7 a8 a9
    a10 a11 a12 a13 a14 a15 a16 a17 a18 a19)
  = mkPlayer a0 a1 a2 a3 a4 a5 a6 a7 a8 a9
      a10 a11 a12 v a14 a15 a16 a17 a18 a19.
Proof. reflexivity. Qed.
Lemma set_frameOffsets_mk a0 a1 a2 a3 a4 a5 a6 a7 a8 a9
    a10 a11 a12 a13 a14 a15 a16 a17 a18 a19 v :
  set_frameOffsets v (mkPlayer a0 a1 a2 a3 a4 a5 a6 a7 a8 a9
    a10 a11 a12 a13 a14 a15 a16 a17 a18 a19)
  = mkPlayer a0 a1 a2 a3 a4 a5 a6 a7 a8 a9
      a10 a11 a12 a13 v a15 a16 a17 a18 a19.
Proof. reflexivity. Qed.
Lemma set_frameSizes_mk a0 a1 a2 a3 a4 a5 a6 a7 a8 a9
    a10 a11 a12 a13 a14 a15 a16 a17 a18 a19 v :
  set_frameSizes v (mkPlayer a0 a1 a2 a3 a4 a5 a6 a7 a8 a9
    a10 a11 a12 a13 a14 a15 a16 a17 a18 a19)
  = mkPlayer a0 a1 a2 a3 a4 a5 a6 a7 a8 a9
      a10 a11 a12 a13 a14 v a16 a17 a18 a19.
Proof. reflexivity. Qed.
Lemma set_palette_mk a0 a1 a2 a3 a4 a5 a6 a7 a8 a9
    a10 a11 a12 a13 a14 a15 a16 a17 a18 a19 v :
  set_palette v (mkPlayer a0 a1 a2 a3 a4 a5 a6 a7 a8 a9
    a10 a11 a12 a13 a14 a15 a16 a17 a18 a19)
  = mkPlayer a0 a1 a2 a3 a4 a5 a6 a7 a8 a9
      a10 a11 a12 a13 a14 a15 v a17 a18 a19.
Proof. reflexivity. Qed.
Lemma set_sdlPixelFormat_mk a0 a1 a2 a3 a4 a5 a6 a7 a8 a9
    a10 a11 a12 a13 a14 a15 a16 a17 a18 a19 v :
  set_sdlPixelFormat v (mkPlayer a0 a1 a2 a3 a4 a5 a6 a7 a8 a9
    a10 a11 a12 a13 a14 a15 a16 a17 a18 a19)
  = mkPlayer a0 a1 a2 a3 a4 a5 a6 a7 a8 a9
      a10 a11 a12 a13 a14 a15 a16 v a18 a19.
Proof. reflexivity. Qed.
Lemma set_isValid_mk a0 a1 a2 a3 a4 a5 a6 a7 a8 a9
    a10 a11 a12 a13 a14 a15 a16 a17 a18 a19 v :
  set_isValid v (mkPlayer a0 a1 a2 a3 a4 a5 a6 a7 a8 a9
    a10 a11 a12 a13 a14 a15 a16 a17 a18 a19)
  = mkPlayer a0 a1 a2 a3 a4 a5 a6 a7 a8 a9
      a10 a11 a12 a13 a14 a15 a16 a17 v a19.
Proof. reflexivity. Qed.
Lemma set_cerr_mk a0 a1 a2 a3 a4 a5 a6 a7 a8 a9
    a10 a11 a12 a13 a14 a15 a16 a17 a18 a19 v :
  set_cerr v (mkPlayer a0 a1 a2 a3 a4 a5 a6 a7 a8 a9
    a10 a11 a12 a13 a14 a15 a16 a17 a18 a19)
  = mkPlayer a0 a1 a2 a3 a4 a5 a6 a7 a8 a9
      a10 a11 a12 a13 a14 a15 a16 a17 a18 v.
Proof. reflexivity. Qed.

Create Rewrite HintDb player.
#[global] Hint Rewrite
  set_texture_mk set_presented_mk set_file_mk set_mainHeader_mk
  set_streamHeader_mk set_bitmapHeader_mk set_frameWidth_mk
  set_frameHeight_mk set_fps_mk set_totalFrames_mk set_currentFrame_mk
  set_bitsPerPixel_mk set_bytesPerPixel_mk set_isTopDown_mk
  set_frameOffsets_mk set_frameSizes_mk set_palette_mk set_sdlPixelFormat_mk
  set_isValid_mk set_cerr_mk
  : player.

Ltac pnorm := autorewrite with player.

Lemma byte_val_range (b : byte) : 0 <= byte_val b < 256.
Proof.
  unfold byte_val. pose proof (Byte.to_N_bounded b). lia.
Qed.

Lemma byte_val_of (z : Z) : byte_val (byte_of z) = z mod 256.
Proof.
  unfold byte_val, byte_of.
  assert (H : 0 <= z mod 256 < 256) by (apply Z.mod_pos_bound; lia).
  destruct (Byte.of_N (Z.to_N (z mod 256))) as [b|] eqn:E.
  - apply Byte.to_of_N in E. rewrite E. lia.
  - apply Byte.of_N_None_iff in E. lia.
Qed.

Lemma byte_of_val (b : byte) : byte_of (byte_val b) = b.
Proof.
  unfold byte_of, byte_val.
  pose proof (Byte.to_N_bounded b).
  rewrite Z.mod_small by lia.
  rewrite N2Z.id, Byte.of_to_N. reflexivity.
Qed.

Lemma le_uint_enc32 (z : Z) : 0 <= z < 4294967296 -> le_uint (enc32 z) = z.
Proof.
  intros H. unfold enc32. cbn [le_uint]. rewrite !byte_val_of.
  pose proof (Z.div_mod z 256 ltac:(lia)).
  pose proof (Z.div_mod (z / 256) 256 ltac:(lia)).
  pose proof (Z.div_mod (z / 256 / 256) 256 ltac:(lia)).
  replace (z / 65536) with (z / 256 / 256) by (rewrite Z.div_div by lia; reflexivity).
  replace (z / 16777216) with (z / 256 / 256 / 256)
    by (rewrite !Z.div_div by lia; reflexivity).
  assert (0 <= z / 256 / 256 / 256 < 256).
  { split.
    - repeat apply Z.div_pos; lia.
    - repeat (apply Z.div_lt_upper_bound; [lia|]). lia. }
  rewrite (Z.mod_small (z / 256 / 256 / 256)) by lia.
  lia.
Qed.

Lemma le_uint_enc16 (z : Z) : 0 <= z < 65536 -> le_uint (enc16 z) = z.
Proof.
  intros H. unfold enc16. cbn [le_uint]. rewrite !byte_val_of.
  pose proof (Z.div_mod z 256 ltac:(lia)).
  assert (0 <= z / 256 < 256).
  { split; [apply Z.div_pos; lia | apply Z.div_lt_upper_bound; lia]. }
  rewrite (Z.mod_small (z / 256)) by lia.
  lia.
Qed.

Lemma le_uint_nonneg l : 0 <= le_uint l.
Proof.
  induction l; cbn [le_uint]; [lia|]. pose proof (byte_val_range a). lia.
Qed.

Lemma le_uint_bound l : le_uint l < 256 ^ Z.of_nat (length l).
Proof.
  induction l.
  - simpl. lia.
  - cbn [le_uint length]. rewrite Nat2Z.inj_succ, Z.pow_succ_r by lia.
    pose proof (byte_val_range a).
    generalize dependent (256 ^ Z.of_nat (length l)). intros. lia.
Qed.

Lemma u32_at_range buf off : 0 <= u32_at buf off < 4294967296.
Proof.
  unfold u32_at, bytes_at. split; [apply le_uint_nonneg|].
  pose proof (le_uint_bound (firstn 4 (skipn off buf))) as H.
  pose proof (length_firstn 4 (skipn off buf)) as L.
  assert (256 ^ Z.of_nat (length (firstn 4 (skipn off buf))) <= 256 ^ 4).
  { apply Z.pow_le_mono_r; lia. }
  change (256 ^ 4) with 4294967296 in *. lia.
Qed.

Lemma wrap32_range z : 0 <= wrap32 z < 4294967296.
Proof. unfold wrap32. apply Z.mod_pos_bound. lia. Qed.

Lemma wrap32_small z : 0 <= z < 4294967296 -> wrap32 z = z.
Proof. intros. unfold wrap32. apply Z.mod_small. lia. Qed.

Lemma bytes_eqb_eq a b : bytes_eqb a b = true <-> a = b.
Proof.
  revert b. induction a as [|x a IH]; intros [|y b]; simpl; split; intros H;
    try reflexivity; try discriminate.
  - apply andb_true_iff in H. destruct H as [H1 H2].
    apply Byte.byte_dec_bl in H1. apply IH in H2. congruence.
  - injection H as -> ->. apply andb_true_iff. split.
    + apply Byte.byte_dec_lb. reflexivity.
    + apply IH. reflexivity.
Qed.

Lemma bytes_eqb_refl a : bytes_eqb a a = true.
Proof. apply bytes_eqb_eq. reflexivity. Qed.

Lemma length_enc32 z : length (enc32 z) = 4%nat.
Proof. reflexivity. Qed.

Lemma length_overlay got old : length (overlay got old) = length old.
Proof.
  unfold overlay. rewrite length_firstn, length_app, length_skipn. lia.
Qed.

Lemma overlay_full got old : length got = length old -> overlay got old = got.
Proof.
  intros H. unfold overlay. rewrite H, skipn_all, app_nil_r, <- H.
  apply firstn_all.
Qed.

Lemma overlay_nil old : overlay [] old = old.
Proof. unfold overlay. simpl. apply firstn_all. Qed.


(** ** The end of loadAVI *)

Lemma determinePixelFormat_keeps p ok q :
  determinePixelFormat p = (ok, q) ->
  mainHeader q = mainHeader p /\ fps q = fps p /\ totalFrames q = totalFrames p
  /\ frameOffsets q = frameOffsets p /\ frameSizes q = frameSizes p
  /\ frameWidth q = frameWidth p /\ frameHeight q = frameHeight p
  /\ isTopDown q = isTopDown p /\ palette q = palette p
  /\ bitsPerPixel q = bh_bitCount (bitmapHeader p)
  /\ bytesPerPixel q = (bitsPerPixel q + 7) / 8.
Proof.
  destruct p. unfold determinePixelFormat. cbn.
  repeat match goal with
         | |- context [if ?c then _ else _] => destruct c
         end; intros H; inversion H; subst; cbn; repeat split; reflexivity.
Qed.

Lemma loadAVI_finish_fields p ok q :
  loadAVI_finish p = (ok, q) ->
  mainHeader q = mainHeader p
  /\ fps q = (if 0 <? mh_microSecPerFrame (mainHeader p)
              then 1000000 / mh_microSecPerFrame (mainHeader p) else 30)
  /\ totalFrames q = mh_totalFrames (mainHeader p)
  /\ frameWidth q = mh_width (mainHeader p)
  /\ frameOffsets q = frameOffsets p /\ frameSizes q = frameSizes p
  /\ palette q = palette p.
Proof.
  unfold loadAVI_finish.
  destruct (determinePixelFormat _) as [ok' p6] eqn:E.
  apply determinePixelFormat_keeps in E.
  destruct E as (E1 & E2 & E3 & E4 & E5 & E6 & E7 & E8 & E9 & E10 & E11).
  intros H.
  assert (Hq : mainHeader q = mainHeader p6 /\ fps q = fps p6
               /\ totalFrames q = totalFrames p6 /\ frameWidth q = frameWidth p6
               /\ frameOffsets q = frameOffsets p6 /\ frameSizes q = frameSizes p6
               /\ palette q = palette p6).
  { destruct ok'; inversion H; subst; destruct p6; cbn; repeat split; reflexivity. }
  destruct Hq as (Q1 & Q2 & Q3 & Q4 & Q5 & Q6 & Q7).
  rewrite Q1, Q2, Q3, Q4, Q5, Q6, Q7, E1, E2, E3, E4, E5, E6, E9.
  clear. destruct p as [tex pres f mh sh bh fw fh fps_ tf cf bpp Bpp td offs sizes pal sdl valid errs]. cbn.
  destruct (0 <? mh_microSecPerFrame mh); cbn;
    destruct (bh_height bh <? 0); cbn; repeat split; reflexivity.
Qed.

Lemma loadAVI_success u1 u2 fs p0 p :
  loadAVI u1 u2 fs p0 = Some (true, p) ->
  exists bytes p1 p2,
    fs = Some bytes
    /\ contents (file p1) = bytes
    /\ parseAVIChunks u1 p1 = Some (true, p2)
    /\ loadAVI_finish p2 = (true, p).
Proof.
  unfold loadAVI. destruct fs as [bytes|]; [|discriminate].
  destruct (stream_read _ _) as [got f1] eqn:R.
  destruct (_ || _); [discriminate|].
  destruct (parseAVIChunks _ _) as [[ok p2]|] eqn:P; [|discriminate].
  destruct ok; [|discriminate].
  intros H. exists bytes, (set_file f1 (set_file (mkStream bytes 0 false) p0)), p2.
  repeat split; try assumption.
  - destruct p0. cbn in *. unfold stream_read in R. cbn in R.
    destruct (_ =? _); inversion R; reflexivity.
  - congruence.
Qed.



Lemma loadAVI_finish_orientation p ok q :
  loadAVI_finish p = (ok, q) ->
  isTopDown q = (bh_height (bitmapHeader p) <? 0)
  /\ frameHeight q =
       (if bh_height (bitmapHeader p) <? 0
        then wrap32 (bh_height (bh_set_height (bitmapHeader p)
                                              (- bh_height (bitmapHeader p))))
        else mh_height (mainHeader p))
  /\ bitsPerPixel q =
       bh_bitCount (if bh_height (bitmapHeader p) <? 0
                    then bh_set_height (bitmapHeader p) (- bh_height (bitmapHeader p))
                    else bitmapHeader p)
  /\ bytesPerPixel q = (bitsPerPixel q + 7) / 8.
Proof.
  unfold loadAVI_finish.
  destruct (determinePixelFormat _) as [ok' p6] eqn:E.
  apply determinePixelFormat_keeps in E.
  destruct E as (E1 & E2 & E3 & E4 & E5 & E6 & E7 & E8 & E9 & E10 & E11).
  intros H.
  assert (Hq : isTopDown q = isTopDown p6 /\ frameHeight q = frameHeight p6
               /\ bitsPerPixel q = bitsPerPixel p6
               /\ bytesPerPixel q = bytesPerPixel p6).
  { destruct ok'; inversion H; subst; destruct p6; cbn; repeat split; reflexivity. }
  destruct Hq as (Q1 & Q2 & Q3 & Q4).
  rewrite Q1, Q2, Q3, Q4, E7, E8, E10, E11, E10.
  clear. destruct p as [tex pres f mh sh bh fw fh fps_ tf cf bpp Bpp td offs sizes pal sdl valid errs]. cbn.
  destruct (0 <? mh_microSecPerFrame mh); cbn;
    destruct (bh_height bh <? 0); cbn; repeat split; reflexivity.
Qed.

(** ** renderFrame outside the frame index *)

(** C5 (amended): for an index at or beyond the number of indexed frames
    [renderFrame] returns at once: it decodes nothing, writes nothing to
    the error output and leaves the player as it was, so that any later
    call behaves as if this one had not been made. *)
Theorem C5_render_outside_index p idx :
  Z.of_nat (length (frameOffsets p)) <= idx ->
  renderFrame idx p = p
  /\ cerr (renderFrame idx p) = cerr p
  /\ presented (renderFrame idx p) = presented p
  /\ forall j, renderFrame j (renderFrame idx p) = renderFrame j p.
Proof.
  intros H.
  assert (E : renderFrame idx p = p).
  { unfold renderFrame. destruct (_ <=? _) eqn:L; [reflexivity|].
    apply Z.leb_gt in L. lia. }
  rewrite E. repeat split; reflexivity.
Qed.

Lemma C5_render_outside_index_witness :
  exists p, sample_loaded = Some p
            /\ Z.of_nat (length (frameOffsets p)) <= 7
            /\ renderFrame 7 p = p.
Proof.
  eexists. split; [vm_compute; reflexivity|].
  split; [vm_compute; discriminate|].
  match goal with
  | |- renderFrame 7 ?q = _ =>
    exact (proj1 (C5_render_outside_index q 7 ltac:(vm_compute; discriminate)))
  end.
Defined.

(** C5 as stated fails: the loaded sample has two indexed frames and
    reports five; a request for frame 5 is not answered by any error.  The
    call leaves the player, error output included, exactly as it was. *)
Lemma C5_counterexample :
  exists p, sample_loaded = Some p
            /\ isValid p = true
            /\ totalFrames p = 5
            /\ length (frameOffsets p) = 2%nat
            /\ renderFrame 5 p = p
            /\ cerr (renderFrame 5 p) = [].
Proof.
  eexists. split; [vm_compute; reflexivity|].
  repeat split; vm_compute; reflexivity.
Qed.

(** ** Conversion of single pixels *)

(** C7: the literal cases.  One BGR24 pixel 10 20 30 (hex) becomes the RGB
    bytes 30 20 10; one BGRA32 pixel 10 20 30 FF becomes 30 20 10 FF, the
    alpha byte in place; the two bytes of an RGB565 pixel are stored as
    they are, whatever they are and whatever the destination held. *)
Theorem C7_pixel_conversion :
  (forall topDown,
     convertAndCopyFrame (decoder_state 1 1 24 topDown [])
       [x10; x20; x30] [x00; x00; x00] 3 = [x30; x20; x10])
  /\ (forall topDown,
     convertAndCopyFrame (decoder_state 1 1 32 topDown [])
       [x10; x20; x30; xff] [x00; x00; x00; x00] 4 = [x30; x20; x10; xff])
  /\ (forall topDown b0 b1 d0 d1,
     convertAndCopyFrame (decoder_state 1 1 16 topDown [])
       [b0; b1] [d0; d1] 2 = [b0; b1]).
Proof.
  split; [|split]; intros [|]; reflexivity.
Qed.


(** ** Frame conversion: what the result depends on *)

Lemma fold_left_ext_in {A B} (f g : A -> B -> A) (l : list B) :
  (forall a x, In x l -> f a x = g a x) ->
  forall a, fold_left f l a = fold_left g l a.
Proof.
  induction l as [|x l IH]; intros H a; [reflexivity|].
  cbn [fold_left]. rewrite H by (left; reflexivity).
  apply IH. intros a' x' Hin. apply H. right. exact Hin.
Qed.

Lemma in_zrange x n : In x (zrange n) <-> 0 <= x < n.
Proof.
  unfold zrange. rewrite in_map_iff. split.
  - intros (k & <- & Hk). apply in_seq in Hk. lia.
  - intros H. exists (Z.to_nat x). split; [lia|]. apply in_seq. lia.
Qed.

Lemma srcRow_range p y :
  0 <= y < frameHeight p -> frameHeight p <= 4294967296 ->
  0 <= srcRow p y < frameHeight p.
Proof.
  intros Hy Hh. unfold srcRow. destruct (isTopDown p); [lia|].
  rewrite wrap32_small; lia.
Qed.

(** Offsets inside a frame of [h] rows of [w] pixels of [k] bytes. *)
Lemma frame_offset_bound h w k sy x c :
  0 <= sy < h -> 0 <= x < w -> 0 <= c < k ->
  0 <= sy * w * k + (x * k + c) < h * w * k.
Proof.
  intros Hs Hx Hc.
  assert (0 <= sy * w) by nia.
  assert (sy * w + x + 1 <= h * w) by nia.
  assert ((sy * w + x + 1) * k <= h * w * k) by nia.
  nia.
Qed.

Section ConvertRel.

Variables (p1 p2 : AVIPlayer) (d1 d2 : list byte) (w h : Z).
Hypothesis Hw1 : frameWidth p1 = w.
Hypothesis Hw2 : frameWidth p2 = w.
Hypothesis Hh1 : frameHeight p1 = h.
Hypothesis Hh2 : frameHeight p2 = h.
Hypothesis Hpal : palette p1 = palette p2.

Lemma row_start_small k y p :
  0 < k -> h * w * k < 4294967296 -> 0 <= y < h -> 0 < w ->
  frameHeight p = h ->
  wrap32 (srcRow p y * w * k) = srcRow p y * w * k.
Proof.
  intros Hk Hn Hy Hw Hh.
  assert (Hle : h <= 4294967296) by nia.
  pose proof (srcRow_range p y ltac:(lia) ltac:(lia)) as R.
  rewrite Hh in R.
  apply wrap32_small.
  pose proof (frame_offset_bound h w k (srcRow p y) 0 0 R ltac:(lia) ltac:(lia)).
  lia.
Qed.

Ltac enter_loops Hy Hx :=
  rewrite ?Hw1, ?Hw2, ?Hh1, ?Hh2;
  apply fold_left_ext_in; intros ? ?y Hy; apply in_zrange in Hy;
  apply fold_left_ext_in; intros ? ?x Hx; apply in_zrange in Hx.

Lemma convert8_rel px pitch :
  h * w * 1 < 4294967296 ->
  rows_agree 1 w h p1 d1 p2 d2 ->
  convert8BitToRGB24 p1 d1 px pitch = convert8BitToRGB24 p2 d2 px pitch.
Proof.
  intros Hn Hag. unfold convert8BitToRGB24. enter_loops Hy Hx.
  unfold convert8_pixel.
  pose proof (row_start_small 1 y p1 ltac:(lia) Hn Hy ltac:(lia) Hh1) as E1.
  pose proof (row_start_small 1 y p2 ltac:(lia) Hn Hy ltac:(lia) Hh2) as E2.
  rewrite Z.mul_1_r in E1, E2. rewrite E1, E2.
  pose proof (Hag y x Hy ltac:(lia)) as A0.
  rewrite !Z.mul_1_r in A0. rewrite A0, Hpal. reflexivity.
Qed.

Lemma convert16_rel px pitch :
  h * w * 2 < 4294967296 ->
  rows_agree 2 w h p1 d1 p2 d2 ->
  convert16BitToRGB565 p1 d1 px pitch = convert16BitToRGB565 p2 d2 px pitch.
Proof.
  intros Hn Hag. unfold convert16BitToRGB565. enter_loops Hy Hx.
  rewrite (row_start_small 2 y p1 ltac:(lia) Hn Hy ltac:(lia) Hh1).
  rewrite (row_start_small 2 y p2 ltac:(lia) Hn Hy ltac:(lia) Hh2).
  pose proof (Hag y (2 * x) Hy ltac:(lia)) as A0.
  pose proof (Hag y (2 * x + 1) Hy ltac:(lia)) as A1.
  rewrite <- !Z.add_assoc. rewrite A0, A1. reflexivity.
Qed.

Lemma convert24_rel px pitch :
  h * w * 3 < 4294967296 ->
  rows_agree 3 w h p1 d1 p2 d2 ->
  convert24BitBGRToRGB p1 d1 px pitch = convert24BitBGRToRGB p2 d2 px pitch.
Proof.
  intros Hn Hag. unfold convert24BitBGRToRGB. enter_loops Hy Hx.
  rewrite (row_start_small 3 y p1 ltac:(lia) Hn Hy ltac:(lia) Hh1).
  rewrite (row_start_small 3 y p2 ltac:(lia) Hn Hy ltac:(lia) Hh2).
  assert (Hw3 : w * 3 < 4294967296) by nia.
  rewrite !(wrap32_small (x * 3 + _)) by lia.
  rewrite (Hag y (x * 3 + 0) Hy ltac:(lia)).
  rewrite (Hag y (x * 3 + 1) Hy ltac:(lia)).
  rewrite (Hag y (x * 3 + 2) Hy ltac:(lia)).
  reflexivity.
Qed.

Lemma convert32_rel px pitch :
  h * w * 4 < 4294967296 ->
  rows_agree 4 w h p1 d1 p2 d2 ->
  convert32BitBGRAToRGBA p1 d1 px pitch = convert32BitBGRAToRGBA p2 d2 px pitch.
Proof.
  intros Hn Hag. unfold convert32BitBGRAToRGBA. enter_loops Hy Hx.
  rewrite (row_start_small 4 y p1 ltac:(lia) Hn Hy ltac:(lia) Hh1).
  rewrite (row_start_small 4 y p2 ltac:(lia) Hn Hy ltac:(lia) Hh2).
  assert (Hw4 : w * 4 < 4294967296) by nia.
  rewrite !(wrap32_small (x * 4 + _)) by lia.
  rewrite (Hag y (x * 4 + 0) Hy ltac:(lia)).
  rewrite (Hag y (x * 4 + 1) Hy ltac:(lia)).
  rewrite (Hag y (x * 4 + 2) Hy ltac:(lia)).
  rewrite (Hag y (x * 4 + 3) Hy ltac:(lia)).
  reflexivity.
Qed.

(** The four cases together: [k] is the number of bytes per pixel of the
    bit depth; for any other depth nothing is converted. *)
Lemma convertAndCopyFrame_rel px pitch :
  bitsPerPixel p1 = bitsPerPixel p2 ->
  h * w * ((bitsPerPixel p1 + 7) / 8) < 4294967296 ->
  rows_agree ((bitsPerPixel p1 + 7) / 8) w h p1 d1 p2 d2 ->
  convertAndCopyFrame p1 d1 px pitch = convertAndCopyFrame p2 d2 px pitch.
Proof.
  intros Hb Hn Hag. unfold convertAndCopyFrame. rewrite <- Hb.
  destruct (bitsPerPixel p1 =? 8) eqn:B8.
  { apply Z.eqb_eq in B8. rewrite B8 in Hn, Hag. apply convert8_rel; assumption. }
  destruct (bitsPerPixel p1 =? 16) eqn:B16.
  { apply Z.eqb_eq in B16. rewrite B16 in Hn, Hag. apply convert16_rel; assumption. }
  destruct (bitsPerPixel p1 =? 24) eqn:B24.
  { apply Z.eqb_eq in B24. rewrite B24 in Hn, Hag. apply convert24_rel; assumption. }
  destruct (bitsPerPixel p1 =? 32) eqn:B32.
  { apply Z.eqb_eq in B32. rewrite B32 in Hn, Hag. apply convert32_rel; assumption. }
  reflexivity.
Qed.

End ConvertRel.

Lemma src_byte_firstn n d1 d2 off :
  firstn n d1 = firstn n d2 -> 0 <= off < Z.of_nat n ->
  src_byte d1 off = src_byte d2 off.
Proof.
  intros E H. unfold src_byte.
  assert (L : (Z.to_nat off <? n)%nat = true) by (apply Nat.ltb_lt; lia).
  pose proof (nth_firstn n d1 (Z.to_nat off) x00) as H1.
  pose proof (nth_firstn n d2 (Z.to_nat off) x00) as H2.
  rewrite L in H1, H2. rewrite <- H1, <- H2, E. reflexivity.
Qed.

(** C10: a frame is decoded from the first height x width x
    bytes-per-pixel bytes of its payload only.  Two payloads with the same
    such prefix give the same pixels, whatever their lengths and whatever
    follows the prefix. *)
Theorem C10_decoding_reads_prefix p d1 d2 pixels pitch :
  bytesPerPixel p = (bitsPerPixel p + 7) / 8 ->
  frameHeight p * frameWidth p * bytesPerPixel p < 4294967296 ->
  firstn (Z.to_nat (frameHeight p * frameWidth p * bytesPerPixel p)) d1
  = firstn (Z.to_nat (frameHeight p * frameWidth p * bytesPerPixel p)) d2 ->
  convertAndCopyFrame p d1 pixels pitch = convertAndCopyFrame p d2 pixels pitch.
Proof.
  intros Hk Hn E. rewrite Hk in Hn, E.
  apply (convertAndCopyFrame_rel p p d1 d2 (frameWidth p) (frameHeight p));
    try reflexivity; [rewrite Z.mul_comm; rewrite Z.mul_comm in Hn; exact Hn|].
  intros y j Hy Hj.
  set (k := (bitsPerPixel p + 7) / 8) in *.
  set (w := frameWidth p) in *. set (h := frameHeight p) in *.
  assert (Hm : 1 <= w * k) by lia.
  assert (Hh : h <= 4294967296) by nia.
  pose proof (srcRow_range p y Hy Hh) as R. fold h in R.
  apply (src_byte_firstn _ _ _ _ E).
  assert (E1 : srcRow p y * w * k = srcRow p y * (w * k)) by ring.
  assert (E2 : h * w * k = h * (w * k)) by ring.
  rewrite E1, E2. clear E E1 E2 Hn.
  generalize dependent (w * k). intros m Hj Hm.
  rewrite Z2Nat.id by nia. nia.
Qed.

Lemma C10_decoding_reads_prefix_witness :
  convertAndCopyFrame (decoder_state 2 1 24 false [])
    [x01; x02; x03; x04; x05; x06] [x00; x00; x00; x00; x00; x00] 6
  = convertAndCopyFrame (decoder_state 2 1 24 false [])
    [x01; x02; x03; x04; x05; x06; x77; x88] [x00; x00; x00; x00; x00; x00] 6.
Proof.
  apply C10_decoding_reads_prefix; vm_compute; reflexivity.
Defined.

(** ** Rows of a frame *)

Lemma nth_concat_rows (rows : list (list byte)) (L k j : nat) d :
  Forall (fun r => length r = L) rows ->
  (k < length rows)%nat -> (j < L)%nat ->
  nth (k * L + j) (concat rows) d = nth j (nth k rows []) d.
Proof.
  intros HF. revert k. induction HF as [|r rows Hr HF IH]; intros k Hk Hj.
  - simpl in Hk. lia.
  - cbn [concat]. destruct k as [|k].
    + cbn [nth Nat.mul Nat.add]. apply app_nth1. lia.
    + cbn [nth]. rewrite app_nth2 by (rewrite Hr; simpl; lia).
      replace (S k * L + j - length r)%nat with (k * L + j)%nat
        by (rewrite Hr; simpl; lia).
      apply IH; [simpl in Hk; lia | exact Hj].
Qed.

Lemma src_byte_concat (rows : list (list byte)) (L k j : Z) :
  Forall (fun r => len r = L) rows ->
  0 <= k < Z.of_nat (length rows) -> 0 <= j < L ->
  src_byte (concat rows) (k * L + j) = src_byte (nth (Z.to_nat k) rows []) j.
Proof.
  intros HF Hk Hj. unfold src_byte.
  replace (Z.to_nat (k * L + j)) with (Z.to_nat k * Z.to_nat L + Z.to_nat j)%nat by nia.
  apply nth_concat_rows; try lia.
  eapply Forall_impl; [|exact HF]. unfold len. intros r Hr. cbv beta in Hr. lia.
Qed.

(** ** Fields of the bitmap header around the height update *)

Lemma le_uint_enc32_wrap z : le_uint (enc32 z) = wrap32 z.
Proof.
  unfold enc32, wrap32. cbn [le_uint]. rewrite !byte_val_of.
  change 4294967296 with (256 * (256 * (256 * 256))).
  rewrite (Z.rem_mul_r z 256 (256 * (256 * 256))) by lia.
  rewrite (Z.rem_mul_r (z / 256) 256 (256 * 256)) by lia.
  rewrite (Z.rem_mul_r (z / 256 / 256) 256 256) by lia.
  replace (z / 65536) with (z / 256 / 256) by (rewrite Z.div_div by lia; reflexivity).
  replace (z / 16777216) with (z / 256 / 256 / 256)
    by (rewrite !Z.div_div by lia; reflexivity).
  lia.
Qed.

Lemma bh_set_height_fields b v :
  length b = 40%nat ->
  bh_height (bh_set_height b v) = to_i32 v
  /\ bh_bitCount (bh_set_height b v) = bh_bitCount b
  /\ bh_compression (bh_set_height b v) = bh_compression b
  /\ length (bh_set_height b v) = 40%nat.
Proof.
  intros L.
  do 40 (destruct b as [|? b]; [discriminate L|]).
  destruct b; [|discriminate L].
  unfold bh_height, bh_bitCount, bh_compression, bh_set_height, put32, i32_at,
    u32_at, u16_at, bytes_at, overlay.
  cbn [firstn skipn app length enc32].
  repeat split.
  fold (enc32 v). rewrite le_uint_enc32_wrap.
  unfold to_i32. unfold wrap32. rewrite Z.mod_mod by lia. reflexivity.
Qed.

(** ** Orientation *)




(** ** Writes into the pixel buffer *)

Lemma length_upd_nth n v l : length (upd_nth n v l) = length l.
Proof.
  revert n. induction l as [|h t IH]; intros [|n]; simpl; try reflexivity.
  rewrite IH. reflexivity.
Qed.

Lemma nth_upd_nth_same n v l d :
  (n < length l)%nat -> nth n (upd_nth n v l) d = v.
Proof.
  revert n. induction l as [|h t IH]; intros [|n] H; simpl in *; try lia.
  - reflexivity.
  - apply IH. lia.
Qed.

Lemma nth_upd_nth_other n i v l d :
  i <> n -> nth i (upd_nth n v l) d = nth i l d.
Proof.
  revert n i. induction l as [|h t IH]; intros [|n] [|i] H; simpl;
    try reflexivity; try congruence.
  apply IH. congruence.
Qed.

Lemma length_poke o v l : length (poke o v l) = length l.
Proof. apply length_upd_nth. Qed.

Lemma peek_poke_same o v l :
  0 <= o < len l -> src_byte (poke o v l) o = v.
Proof.
  intros H. unfold src_byte, poke. apply nth_upd_nth_same. unfold len in H. lia.
Qed.

Lemma peek_poke_other o i v l :
  0 <= o -> 0 <= i -> i <> o -> src_byte (poke o v l) i = src_byte l i.
Proof.
  intros Ho Hi H. unfold src_byte, poke. apply nth_upd_nth_other. lia.
Qed.

Lemma zrange_succ n : 0 <= n -> zrange (n + 1) = zrange n ++ [n].
Proof.
  intros H. unfold zrange.
  replace (Z.to_nat (n + 1)) with (S (Z.to_nat n)) by lia.
  rewrite seq_S, map_app. cbn [map Nat.add]. rewrite Z2Nat.id by lia. reflexivity.
Qed.

(** A loop over [0 .. n-1] whose pass [i] writes inside the [i]-th block
    of [stride] bytes after [base] and leaves the rest alone: afterwards
    every block holds what its own pass wrote. *)
Section BlockLoop.

Variables (step : list byte -> Z -> list byte) (base stride used : Z).
Variable val : Z -> Z -> byte.
Variable n : Z.
Hypothesis Hused : 0 <= used <= stride.
Hypothesis Hbase : 0 <= base.
Hypothesis step_length : forall px i, length (step px i) = length px.
Hypothesis step_inside : forall px i c,
  0 <= i < n -> 0 <= c < used -> base + n * stride <= len px ->
  src_byte (step px i) (base + i * stride + c) = val i c.
Hypothesis step_outside : forall px i o,
  0 <= i < n -> 0 <= o -> base + n * stride <= len px ->
  (o < base + i * stride \/ base + i * stride + used <= o) ->
  src_byte (step px i) o = src_byte px o.

Lemma block_loop_length m px : length (fold_left step (zrange m) px) = length px.
Proof.
  unfold zrange. generalize (map Z.of_nat (seq 0 (Z.to_nat m))). intros l.
  revert px. induction l as [|x l IH]; intros px; [reflexivity|].
  cbn [fold_left]. rewrite IH. apply step_length.
Qed.

Lemma block_loop_spec m px :
  0 <= m <= n -> base + n * stride <= len px ->
  (forall i c, 0 <= i < m -> 0 <= c < used ->
     src_byte (fold_left step (zrange m) px) (base + i * stride + c) = val i c)
  /\ (forall o, 0 <= o -> (o < base \/ base + m * stride <= o) ->
     src_byte (fold_left step (zrange m) px) o = src_byte px o).
Proof.
  intros Hm Hlen. destruct Hm as [Hm0 Hmn].
  revert Hmn. pattern m. apply natlike_ind; [| |exact Hm0].
  - intros _. split; [intros; lia|]. intros. reflexivity.
  - intros k Hk IH Hkn. destruct (IH ltac:(lia)) as [IH1 IH2].
    change (Z.succ k) with (k + 1). unfold Z.succ.
    rewrite zrange_succ by lia. rewrite fold_left_app. cbn [fold_left].
    set (prev := fold_left step (zrange k) px) in *.
    assert (Lp : len prev = len px).
    { unfold len, prev. rewrite block_loop_length. reflexivity. }
    split.
    + intros i c Hi Hc. destruct (Z.eq_dec i k) as [->|Hne].
      * apply step_inside; lia.
      * rewrite step_outside by nia. apply IH1; lia.
    + intros o Ho Hout. rewrite step_outside by nia. apply IH2; [lia|nia].
Qed.

End BlockLoop.

(** ** Indexed8 *)

Section Indexed8.

Variables (p : AVIPlayer) (frameData : list byte).
Variables (dst src : Z).
Hypothesis Hdst : 0 <= dst.
Hypothesis Hw : frameWidth p * 3 <= 4294967296.

Lemma convert8_pixel_length px x :
  length (convert8_pixel p frameData dst src px x) = length px.
Proof.
  unfold convert8_pixel. cbv zeta. destruct (_ <? _); rewrite !length_poke; reflexivity.
Qed.

Lemma convert8_pixel_inside px x c :
  0 <= x < frameWidth p -> 0 <= c < 3 -> dst + frameWidth p * 3 <= len px ->
  src_byte (convert8_pixel p frameData dst src px x) (dst + x * 3 + c)
  = nth (Z.to_nat c)
        (indexed8_pixel (palette p) (byte_val (src_byte frameData (src + x)))) x00.
Proof.
  intros Hx Hc Hlen. unfold convert8_pixel, indexed8_pixel. cbv zeta.
  rewrite <- Z.add_assoc.
  rewrite !(wrap32_small (x * 3 + _)) by lia.
  assert (C : c = 0 \/ c = 1 \/ c = 2) by lia.
  destruct (_ <? _); destruct C as [-> | [-> | ->]];
    cbn [Z.to_nat nth Pos.to_nat Pos.iter_op Nat.add];
    repeat first
      [ rewrite peek_poke_same by (unfold len in *; rewrite ?length_poke; lia)
      | rewrite peek_poke_other by lia ];
    reflexivity.
Qed.

Lemma convert8_pixel_outside px x o :
  0 <= x < frameWidth p -> 0 <= o -> dst + frameWidth p * 3 <= len px ->
  (o < dst + x * 3 \/ dst + x * 3 + 3 <= o) ->
  src_byte (convert8_pixel p frameData dst src px x) o = src_byte px o.
Proof.
  intros Hx Ho _ Hout. unfold convert8_pixel. cbv zeta.
  rewrite !(wrap32_small (x * 3 + _)) by lia.
  destruct (_ <? _); rewrite !peek_poke_other by lia; reflexivity.
Qed.

Lemma convert8_row_spec px :
  dst + frameWidth p * 3 <= len px ->
  (forall x c, 0 <= x < frameWidth p -> 0 <= c < 3 ->
     src_byte (fold_left (convert8_pixel p frameData dst src)
                         (zrange (frameWidth p)) px) (dst + x * 3 + c)
     = nth (Z.to_nat c)
           (indexed8_pixel (palette p) (byte_val (src_byte frameData (src + x))))
           x00)
  /\ (forall o, 0 <= o -> (o < dst \/ dst + frameWidth p * 3 <= o) ->
     src_byte (fold_left (convert8_pixel p frameData dst src)
                         (zrange (frameWidth p)) px) o = src_byte px o)
  /\ length (fold_left (convert8_pixel p frameData dst src)
                       (zrange (frameWidth p)) px) = length px.
Proof.
  intros Hlen.
  destruct (Z_lt_le_dec (frameWidth p) 0) as [Hneg|Hpos].
  { unfold zrange. replace (Z.to_nat (frameWidth p)) with 0%nat by lia.
    cbn [seq map fold_left]. repeat split; intros; try reflexivity; lia. }
  pose proof (block_loop_spec (convert8_pixel p frameData dst src) dst 3 3
                (fun x c => nth (Z.to_nat c)
                   (indexed8_pixel (palette p)
                      (byte_val (src_byte frameData (src + x)))) x00)
                (frameWidth p)
                ltac:(lia) Hdst convert8_pixel_length convert8_pixel_inside
                convert8_pixel_outside (frameWidth p) px ltac:(lia) Hlen) as [S1 S2].
  split; [exact S1|]. split; [exact S2|].
  apply block_loop_length. apply convert8_pixel_length.
Qed.

End Indexed8.

Lemma convert8_frame_spec p frameData pixels pitch :
  0 <= frameWidth p * 3 <= pitch ->
  frameHeight p * pitch <= len pixels ->
  frameHeight p * pitch <= 4294967296 ->
  length (convert8BitToRGB24 p frameData pixels pitch) = length pixels
  /\ forall y j, 0 <= y < frameHeight p -> 0 <= j < frameWidth p * 3 ->
       src_byte (convert8BitToRGB24 p frameData pixels pitch) (y * pitch + j)
       = nth (Z.to_nat (j mod 3))
             (indexed8_pixel (palette p)
                (byte_val (src_byte frameData
                             (wrap32 (srcRow p y * frameWidth p) + j / 3)))) x00.
Proof.
  intros Hw Hlen Hmax. unfold convert8BitToRGB24.
  set (step := fun (px : list byte) (y : Z) =>
         let srcY := srcRow p y in
         let dst := wrap32 (y * pitch) in
         let src := wrap32 (srcY * frameWidth p) in
         fold_left (convert8_pixel p frameData dst src) (zrange (frameWidth p)) px).
  assert (SL : forall px i, length (step px i) = length px).
  { intros. unfold step. cbv zeta. apply block_loop_length.
    apply convert8_pixel_length. }
  split; [apply block_loop_length; exact SL|].
  destruct (Z_lt_le_dec (frameHeight p) 0) as [Hneg|Hpos]; [intros; lia|].
  assert (Hdst : forall y, 0 <= y < frameHeight p -> 0 < pitch ->
                           wrap32 (y * pitch) = y * pitch).
  { intros y Hy Hp. apply wrap32_small. nia. }
  assert (SI : forall px i c,
    0 <= i < frameHeight p -> 0 <= c < frameWidth p * 3 ->
    0 + frameHeight p * pitch <= len px ->
    src_byte (step px i) (0 + i * pitch + c)
    = nth (Z.to_nat (c mod 3))
          (indexed8_pixel (palette p)
             (byte_val (src_byte frameData
                          (wrap32 (srcRow p i * frameWidth p) + c / 3)))) x00).
  { intros px i c Hi Hc Hl. unfold step. cbv zeta.
    rewrite (Hdst i Hi ltac:(lia)).
    assert (Hr : i * pitch + frameWidth p * 3 <= len px) by nia.
    destruct (convert8_row_spec p frameData (i * pitch)
                (wrap32 (srcRow p i * frameWidth p)) ltac:(nia) ltac:(nia) px Hr)
      as (R1 & _ & _).
    pose proof (Z.div_mod c 3 ltac:(lia)) as DM.
    pose proof (Z.mod_pos_bound c 3 ltac:(lia)) as MB.
    rewrite <- (R1 (c / 3) (c mod 3)) by lia.
    f_equal. lia. }
  assert (SO : forall px i o,
    0 <= i < frameHeight p -> 0 <= o -> 0 + frameHeight p * pitch <= len px ->
    (o < 0 + i * pitch \/ 0 + i * pitch + frameWidth p * 3 <= o) ->
    src_byte (step px i) o = src_byte px o).
  { intros px i o Hi Ho Hl Hout. unfold step. cbv zeta.
    destruct (Z_le_gt_dec pitch 0) as [Hp0|Hp].
    + assert (frameWidth p <= 0) by lia.
      unfold zrange. replace (Z.to_nat (frameWidth p)) with 0%nat by lia.
      reflexivity.
    + rewrite (Hdst i Hi ltac:(lia)).
      assert (Hr : i * pitch + frameWidth p * 3 <= len px) by nia.
      destruct (convert8_row_spec p frameData (i * pitch)
                  (wrap32 (srcRow p i * frameWidth p)) ltac:(nia) ltac:(nia) px Hr)
        as (_ & R2 & _).
      apply R2; lia. }
  pose proof (block_loop_spec step 0 pitch (frameWidth p * 3)
    (fun y j => nth (Z.to_nat (j mod 3))
       (indexed8_pixel (palette p)
          (byte_val (src_byte frameData
                       (wrap32 (srcRow p y * frameWidth p) + j / 3)))) x00)
    (frameHeight p) Hw ltac:(lia) SL SI SO (frameHeight p) pixels
    ltac:(lia) ltac:(lia)) as [B _].
  intros y j Hy Hj. rewrite <- (B y j Hy Hj). reflexivity.
Qed.




(** ** The stream only moves forward *)

Lemma advances_refl s : advances s s.
Proof.
  split; [reflexivity|]. destruct (failbit s) eqn:F; [left; reflexivity|].
  right. repeat split; lia.
Qed.

Lemma advances_trans s1 s2 s3 : advances s1 s2 -> advances s2 s3 -> advances s1 s3.
Proof.
  intros [C1 H1] [C2 H2]. split; [congruence|].
  destruct H2 as [H2|(F2 & F3 & G2)]; [left; exact H2|].
  destruct H1 as [H1|(F1 & _ & G1)]; [congruence|].
  right. repeat split; try assumption. lia.
Qed.

Lemma remaining_advances s s' : advances s s' -> (remaining s' <= remaining s)%nat.
Proof.
  intros [C H]. unfold remaining. rewrite C.
  destruct H as [H|(F & F' & G)].
  - rewrite H. lia.
  - rewrite F, F'. lia.
Qed.

Lemma stream_read_advances n s got s' :
  stream_read n s = (got, s') -> advances s s'.
Proof.
  unfold stream_read. destruct (failbit s) eqn:F.
  - intros H. inversion H; subst. apply advances_refl.
  - destruct (_ =? _) eqn:E; intros H; inversion H; subst; split;
      try reflexivity; cbn [failbit gpos].
    + right. apply Z.eqb_eq in E. repeat split; try assumption; try reflexivity. lia.
    + left. reflexivity.
Qed.

Lemma stream_read_ok n s got s' :
  stream_read n s = (got, s') -> failbit s' = false -> sane s -> 0 < n ->
  failbit s = false /\ len got = n /\ gpos s' = gpos s + n
  /\ contents s' = contents s
  /\ gpos s + n <= len (contents s)
  /\ got = firstn (Z.to_nat n) (skipn (Z.to_nat (gpos s)) (contents s)).
Proof.
  unfold stream_read. destruct (failbit s) eqn:F.
  - intros H F' _ _. inversion H; subst. congruence.
  - destruct (_ =? _) eqn:E; intros H F' G Hn; inversion H; subst;
      cbn [failbit gpos contents] in *; [|discriminate].
    specialize (G F).
    apply Z.eqb_eq in E. unfold len. repeat split; try assumption; try reflexivity.
    rewrite length_firstn, length_skipn in E. lia.
Qed.

Lemma seekg_cur_advances off s : 0 <= off -> advances s (seekg_cur off s).
Proof.
  intros H. unfold seekg_cur. destruct (failbit s) eqn:F; [apply advances_refl|].
  split; [reflexivity|]. right. cbn [failbit gpos]. repeat split; try assumption; try reflexivity. lia.
Qed.

Lemma size_decode_nonneg raw : 0 <= size (decode_chunk raw) < 4294967296.
Proof. unfold decode_chunk. cbn [size]. apply u32_at_range. Qed.

(** ** Termination of the parsing loops *)

Ltac adv_step :=
  match goal with
  | |- advances ?s ?s => apply advances_refl
  | |- advances _ (seekg_cur _ _) =>
    apply seekg_cur_advances; first [lia | apply wrap32_range | apply u32_at_range]
  | R : stream_read _ ?s = (_, ?s') |- advances ?s ?s' =>
    exact (stream_read_advances _ _ _ _ R)
  end.

Lemma parseStreamList_chunk_advances chunk p :
  0 <= size chunk ->
  advances (file p) (file (parseStreamList_chunk chunk p)).
Proof.
  intros Hs. unfold parseStreamList_chunk.
  destruct (strncmp4_eq (fourCC chunk) FCC_strh).
  { destruct (stream_read _ _) as [got f1] eqn:R. psimpl. adv_step. }
  destruct (strncmp4_eq (fourCC chunk) FCC_strf); [|psimpl; adv_step].
  destruct (strncmp4_eq _ FCC_vids); [|psimpl; adv_step].
  destruct (stream_read sizeof_BitmapInfoHeader _) as [got f1] eqn:R.
  cbv zeta. psimpl.
  destruct (_ && _).
  - destruct (stream_read _ f1) as [got2 f2] eqn:R2. psimpl.
    apply advances_trans with f1; adv_step.
  - destruct (0 <? _); psimpl.
    + apply advances_trans with f1; adv_step.
    + adv_step.
Qed.

Lemma sane_advances s s' : advances s s' -> sane s -> sane s'.
Proof.
  intros [_ H] S F. destruct H as [H|(F0 & _ & G)]; [congruence|].
  specialize (S F0). lia.
Qed.

Lemma remaining_lt_fuel p : sane (file p) -> (remaining (file p) < fuel_of p)%nat.
Proof.
  intros S. unfold remaining, fuel_of, len.
  destruct (failbit (file p)) eqn:F; [lia|]. specialize (S F). lia.
Qed.

Lemma remaining_after_read s got s' :
  stream_read sizeof_ChunkHeader s = (got, s') -> failbit s' = false -> sane s ->
  (remaining s' < remaining s)%nat.
Proof.
  intros R F S.
  destruct (stream_read_ok _ _ _ _ R F S ltac:(reflexivity))
    as (F0 & _ & G & C & B & _).
  unfold remaining. rewrite F, F0, C, G. unfold sizeof_ChunkHeader in *. lia.
Qed.

Lemma parseStreamList_loop_total fuel : forall sz bytesRead p,
  sane (file p) -> (remaining (file p) < fuel)%nat ->
  exists p', parseStreamList_loop fuel sz bytesRead p = Some p'
             /\ advances (file p) (file p').
Proof.
  induction fuel as [|fuel IH]; intros sz br p S Hf; [lia|].
  cbn [parseStreamList_loop].
  destruct (br <? sz); [|exists p; split; [reflexivity|apply advances_refl]].
  destruct (stream_read _ _) as [raw f1] eqn:R.
  pose proof (stream_read_advances _ _ _ _ R) as A1.
  destruct (failbit f1) eqn:F.
  { eexists. split; [reflexivity|]. psimpl. exact A1. }
  pose proof (remaining_after_read _ _ _ R F S) as Hr.
  pose proof (parseStreamList_chunk_advances (decode_chunk raw) (set_file f1 p)
                (proj1 (size_decode_nonneg raw))) as A2.
  psimpl in A2.
  destruct (IH sz (wrap32 (wrap32 (br + sizeof_ChunkHeader) + size (decode_chunk raw)))
              (parseStreamList_chunk (decode_chunk raw) (set_file f1 p)))
    as (p' & E & A3).
  - eapply sane_advances; [exact A2|]. eapply sane_advances; eassumption.
  - pose proof (remaining_advances _ _ A2). lia.
  - exists p'. split; [exact E|].
    eapply advances_trans; [exact A1|]. eapply advances_trans; eassumption.
Qed.

Lemma parseStreamList_total sz p :
  sane (file p) ->
  exists p', parseStreamList sz p = Some p' /\ advances (file p) (file p').
Proof.
  intros S. apply parseStreamList_loop_total; [exact S|]. apply remaining_lt_fuel, S.
Qed.

Lemma indexFrames_chunk_advances chunk p :
  0 <= size chunk ->
  advances (file p) (file (indexFrames_chunk chunk p)).
Proof.
  intros Hs. unfold indexFrames_chunk. cbv zeta.
  destruct (isFrameTag _); psimpl; apply seekg_cur_advances;
    destruct (_ =? 1); try lia; apply wrap32_range.
Qed.

Lemma indexFrames_loop_total fuel : forall movieEnd p,
  sane (file p) -> (remaining (file p) < fuel)%nat ->
  exists p', indexFrames_loop fuel movieEnd p = Some p'
             /\ advances (file p) (file p').
Proof.
  induction fuel as [|fuel IH]; intros movieEnd p S Hf; [lia|].
  cbn [indexFrames_loop].
  destruct (_ <? movieEnd); [|exists p; split; [reflexivity|apply advances_refl]].
  destruct (stream_read _ _) as [raw f1] eqn:R.
  pose proof (stream_read_advances _ _ _ _ R) as A1.
  destruct (failbit f1) eqn:F.
  { eexists. split; [reflexivity|]. psimpl. exact A1. }
  pose proof (remaining_after_read _ _ _ R F S) as Hr.
  pose proof (indexFrames_chunk_advances (decode_chunk raw) (set_file f1 p)
                (proj1 (size_decode_nonneg raw))) as A2.
  psimpl in A2.
  destruct (IH movieEnd (indexFrames_chunk (decode_chunk raw) (set_file f1 p)))
    as (p' & E & A3).
  - eapply sane_advances; [exact A2|]. eapply sane_advances; eassumption.
  - pose proof (remaining_advances _ _ A2). lia.
  - exists p'. split; [exact E|].
    eapply advances_trans; [exact A1|]. eapply advances_trans; eassumption.
Qed.

Lemma indexFrames_total movieSize p :
  sane (file p) ->
  exists p', indexFrames movieSize p = Some p' /\ advances (file p) (file p').
Proof.
  intros S. apply indexFrames_loop_total; [exact S|]. apply remaining_lt_fuel, S.
Qed.

Section ParsingTotal.

Variables uninit_listType uninit_riffHeader : list byte.

Lemma parseHeaderList_chunk_total chunk bytesRead p :
  0 <= size chunk -> sane (file p) ->
  exists r, parseHeaderList_chunk uninit_listType chunk bytesRead p = Some r
            /\ advances (file p) (file (snd r)).
Proof.
  intros Hs S. unfold parseHeaderList_chunk.
  destruct (strncmp4_eq _ FCC_avih).
  { destruct (stream_read _ _) as [got f1] eqn:R. eexists. split; [reflexivity|].
    cbn [snd]. psimpl. adv_step. }
  destruct (strncmp4_eq _ FCC_LIST).
  2:{ eexists. split; [reflexivity|]. cbn [snd]. psimpl. adv_step. }
  destruct (stream_read _ _) as [got f1] eqn:R. cbv zeta.
  pose proof (stream_read_advances _ _ _ _ R) as A1.
  destruct (strncmp4_eq _ FCC_strl).
  - destruct (parseStreamList_total (wrap32 (size chunk - 4)) (set_file f1 p))
      as (p2 & E & A2).
    { psimpl. eapply sane_advances; eassumption. }
    rewrite E. eexists. split; [reflexivity|]. cbn [snd]. psimpl in A2.
    eapply advances_trans; eassumption.
  - eexists. split; [reflexivity|]. cbn [snd]. psimpl.
    apply advances_trans with f1; adv_step.
Qed.

Lemma parseHeaderList_loop_total fuel : forall sz bytesRead p,
  sane (file p) -> (remaining (file p) < fuel)%nat ->
  exists p', parseHeaderList_loop uninit_listType fuel sz bytesRead p = Some p'
             /\ advances (file p) (file p').
Proof.
  induction fuel as [|fuel IH]; intros sz br p S Hf; [lia|].
  cbn [parseHeaderList_loop].
  destruct (br <? sz); [|exists p; split; [reflexivity|apply advances_refl]].
  destruct (stream_read _ _) as [raw f1] eqn:R.
  pose proof (stream_read_advances _ _ _ _ R) as A1.
  destruct (failbit f1) eqn:F.
  { eexists. split; [reflexivity|]. psimpl. exact A1. }
  pose proof (remaining_after_read _ _ _ R F S) as Hr.
  destruct (parseHeaderList_chunk_total (decode_chunk raw)
              (wrap32 (br + sizeof_ChunkHeader)) (set_file f1 p)
              (proj1 (size_decode_nonneg raw)))
    as ([br' p1] & E1 & A2).
  { psimpl. eapply sane_advances; eassumption. }
  rewrite E1. cbn [fst snd] in *. psimpl in A2.
  destruct (IH sz (wrap32 (br' + size (decode_chunk raw))) p1) as (p' & E & A3).
  - eapply sane_advances; [exact A2|]. eapply sane_advances; eassumption.
  - pose proof (remaining_advances _ _ A2). lia.
  - exists p'. split; [exact E|].
    eapply advances_trans; [exact A1|]. eapply advances_trans; eassumption.
Qed.

Lemma parseHeaderList_total sz p :
  sane (file p) ->
  exists p', parseHeaderList uninit_listType sz p = Some p'
             /\ advances (file p) (file p').
Proof.
  intros S. apply parseHeaderList_loop_total; [exact S|]. apply remaining_lt_fuel, S.
Qed.

Lemma parseAVIChunks_chunk_total chunk found p :
  0 <= size chunk -> sane (file p) ->
  exists r, parseAVIChunks_chunk uninit_listType chunk found p = Some r
            /\ advances (file p) (file (snd r)).
Proof.
  intros Hs S. unfold parseAVIChunks_chunk.
  destruct (strncmp4_eq _ FCC_LIST).
  2:{ eexists. split; [reflexivity|]. cbn [snd]. psimpl. adv_step. }
  destruct (stream_read _ _) as [got f1] eqn:R. cbv zeta.
  pose proof (stream_read_advances _ _ _ _ R) as A1.
  assert (S1 : sane (file (set_file f1 p))).
  { psimpl. eapply sane_advances; eassumption. }
  destruct (strncmp4_eq _ FCC_hdrl).
  - destruct (parseHeaderList_total (wrap32 (size chunk - 4)) (set_file f1 p) S1)
      as (p2 & E & A2).
    rewrite E. eexists. split; [reflexivity|]. cbn [snd]. psimpl in A2.
    eapply advances_trans; eassumption.
  - destruct (strncmp4_eq _ FCC_movi).
    + destruct (indexFrames_total (wrap32 (size chunk - 4)) (set_file f1 p) S1)
        as (p2 & E & A2).
      rewrite E. eexists. split; [reflexivity|]. cbn [snd]. psimpl in A2.
      eapply advances_trans; eassumption.
    + eexists. split; [reflexivity|]. cbn [snd]. psimpl.
      apply advances_trans with f1; adv_step.
Qed.

Lemma parseAVIChunks_loop_total fuel : forall found p,
  sane (file p) -> (remaining (file p) < fuel)%nat ->
  exists r, parseAVIChunks_loop uninit_listType fuel found p = Some r
            /\ advances (file p) (file (snd r)).
Proof.
  induction fuel as [|fuel IH]; intros found p S Hf; [lia|].
  cbn [parseAVIChunks_loop].
  destruct (stream_read _ _) as [raw f1] eqn:R.
  pose proof (stream_read_advances _ _ _ _ R) as A1.
  destruct (failbit f1) eqn:F.
  { eexists. split; [reflexivity|]. cbn [snd]. psimpl. exact A1. }
  pose proof (remaining_after_read _ _ _ R F S) as Hr.
  destruct (parseAVIChunks_chunk_total (decode_chunk raw) found (set_file f1 p)
              (proj1 (size_decode_nonneg raw)))
    as ([[continue found'] p1] & E1 & A2).
  { psimpl. eapply sane_advances; eassumption. }
  rewrite E1. cbn [fst snd] in *. psimpl in A2.
  assert (A12 : advances (file p) (file p1)) by (eapply advances_trans; eassumption).
  destruct continue.
  - destruct (IH found' p1) as (r & E & A3).
    + eapply sane_advances; eassumption.
    + pose proof (remaining_advances _ _ A2). lia.
    + exists r. split; [exact E|]. eapply advances_trans; eassumption.
  - eexists. split; [reflexivity|]. exact A12.
Qed.

Lemma parseAVIChunks_total p :
  sane (file p) -> exists r, parseAVIChunks uninit_listType p = Some r.
Proof.
  intros S. unfold parseAVIChunks.
  destruct (parseAVIChunks_loop_total (fuel_of p) false p S (remaining_lt_fuel p S))
    as ([found p1] & E & _).
  rewrite E. eexists. reflexivity.
Qed.


End ParsingTotal.


(** ** Reading a file whose layout is known *)

Lemma len_app a b : len (a ++ b) = len a + len b.
Proof. unfold len. rewrite length_app. lia. Qed.

Lemma len_nonneg a : 0 <= len a.
Proof. unfold len. lia. Qed.

Lemma len_app_pos a b : 0 < len a -> 0 < len (a ++ b).
Proof. rewrite len_app. pose proof (len_nonneg b). lia. Qed.

Lemma len_enc32 z : len (enc32 z) = 4.
Proof. reflexivity. Qed.

Lemma at_pos_start bytes : at_pos bytes 0 bytes.
Proof. split; [lia|reflexivity]. Qed.

Lemma at_pos_app bytes pos x rest :
  at_pos bytes pos (x ++ rest) -> at_pos bytes (pos + len x) rest.
Proof.
  intros [H0 H]. split; [pose proof (len_nonneg x); lia|].
  replace (Z.to_nat (pos + len x)) with (length x + Z.to_nat pos)%nat
    by (unfold len; lia).
  rewrite <- skipn_skipn, H, skipn_app, skipn_all, Nat.sub_diag. reflexivity.
Qed.

Lemma at_pos_length bytes pos rest :
  at_pos bytes pos rest -> 0 < len rest -> pos + len rest = len bytes.
Proof.
  intros [H0 H] Hr. subst rest. unfold len in *. rewrite length_skipn in *. lia.
Qed.

Lemma read_at bytes pos x rest n :
  at_pos bytes pos (x ++ rest) -> len x = n ->
  stream_read n (mkStream bytes pos false) = (x, mkStream bytes (pos + n) false).
Proof.
  intros [H0 H] Hn. unfold stream_read. cbn [failbit gpos contents].
  rewrite H. subst n. unfold len. rewrite Nat2Z.id.
  rewrite firstn_app, firstn_all, Nat.sub_diag. cbn [firstn]. rewrite app_nil_r.
  rewrite Z.eqb_refl. reflexivity.
Qed.

(** Past the end of the file nothing can be read. *)
Lemma read_past_end bytes pos n :
  len bytes <= pos -> 0 < n ->
  exists q, stream_read n (mkStream bytes pos false) = ([], mkStream bytes q true).
Proof.
  intros H Hn. unfold stream_read. cbn [failbit gpos contents].
  rewrite skipn_all2 by (unfold len in H; lia). rewrite firstn_nil. cbn [length].
  destruct (Z.of_nat 0 =? n) eqn:E; [apply Z.eqb_eq in E; lia|].
  eexists. reflexivity.
Qed.

Lemma decode_chunk_bytes tag n :
  length tag = 4%nat -> 0 <= n < 4294967296 ->
  decode_chunk (tag ++ enc32 n) = mkChunk tag n.
Proof.
  intros Ht Hn. unfold decode_chunk, u32_at, bytes_at. f_equal.
  - change (skipn 0 (tag ++ enc32 n)) with (tag ++ enc32 n).
    rewrite firstn_app, (firstn_all2 tag) by lia.
    replace (4 - length tag)%nat with 0%nat by lia.
    cbn [firstn]. apply app_nil_r.
  - rewrite skipn_app, (skipn_all2 tag) by lia.
    replace (4 - length tag)%nat with 0%nat by lia.
    cbn [skipn app]. change (firstn 4 (enc32 n)) with (enc32 n).
    apply (le_uint_enc32 n Hn).
Qed.

Lemma len_pad_bytes payload : len (pad_bytes payload) = len payload mod 2.
Proof.
  unfold pad_bytes, len. rewrite <- Nat.negb_even.
  destruct (Nat.even (length payload)) eqn:E; cbn [negb length].
  - apply Nat.even_spec in E. destruct E as [k E]. rewrite E.
    rewrite Nat2Z.inj_mul. cbn [Z.of_nat Pos.of_succ_nat Pos.succ].
    rewrite Z.mul_comm, Z.mod_mul by lia. reflexivity.
  - assert (O : Nat.odd (length payload) = true)
      by (rewrite <- Nat.negb_even, E; reflexivity).
    apply Nat.odd_spec in O. destruct O as [k O]. rewrite O.
    rewrite Nat2Z.inj_add, Nat2Z.inj_mul. cbn [Z.of_nat Pos.of_succ_nat Pos.succ].
    rewrite Z.add_comm, Z.mul_comm, Z.mod_add by lia. reflexivity.
Qed.

Lemma pad_bytes_even payload :
  Nat.even (length payload) = true -> pad_bytes payload = [].
Proof.
  intros E. unfold pad_bytes. rewrite <- Nat.negb_even, E. reflexivity.
Qed.

Lemma len_chunk_bytes tag payload :
  len (chunk_bytes tag payload) = len tag + 4 + len payload + len payload mod 2.
Proof.
  unfold chunk_bytes. rewrite !len_app, len_enc32, len_pad_bytes. lia.
Qed.

(** ** The palette read *)

Lemma length_bytes_of_quads q : length (bytes_of_quads q) = (4 * length q)%nat.
Proof.
  induction q as [|c q IH]; [reflexivity|].
  unfold bytes_of_quads in *. cbn [flat_map length app]. rewrite IH. lia.
Qed.

Lemma length_resize_palette n pal : length (resize_palette n pal) = n.
Proof.
  unfold resize_palette. rewrite length_app, length_firstn, repeat_length. lia.
Qed.

Lemma quads_of_bytes_firstn_div4 : forall (k : nat) (l : list byte),
  (length l < 4 * k + 4)%nat ->
  quads_of_bytes (firstn (4 * (length l / 4)) l) = quads_of_bytes l.
Proof.
  induction k as [|k IH]; intros l Hl.
  - destruct l as [|a [|b [|c [|d l]]]]; cbn [length] in Hl; try lia; reflexivity.
  - destruct l as [|a [|b [|c [|d l]]]]; try reflexivity.
    cbn [length].
    replace (S (S (S (S (length l)))) / 4)%nat with (S (length l / 4))
      by (change (S (S (S (S (length l))))) with (4 + length l)%nat;
          replace (4 + length l)%nat with (length l + 1 * 4)%nat by lia;
          rewrite Nat.div_add by lia; lia).
    replace (4 * S (length l / 4))%nat with (S (S (S (S (4 * (length l / 4))))))
      by lia.
    cbn [firstn quads_of_bytes]. f_equal. apply IH. cbn [length] in Hl. lia.
Qed.

Lemma palette_read extra pal :
  quads_of_bytes
    (overlay extra (bytes_of_quads (resize_palette (Z.to_nat (len extra / 4)) pal)))
  = quads_of_bytes extra.
Proof.
  unfold overlay. rewrite length_bytes_of_quads, length_resize_palette.
  assert (E : Z.to_nat (len extra / 4) = (length extra / 4)%nat).
  { unfold len. rewrite <- (Nat2Z.id (length extra / 4)). f_equal.
    rewrite Nat2Z.inj_div. reflexivity. }
  rewrite E.
  assert (Hle : (4 * (length extra / 4) <= length extra)%nat).
  { apply Nat.Div0.mul_div_le. }
  rewrite firstn_app.
  replace (4 * (length extra / 4) - length extra)%nat with 0%nat by lia.
  cbn [firstn]. rewrite app_nil_r.
  apply (quads_of_bytes_firstn_div4 (length extra)). lia.
Qed.


(** ** Parsing a well-formed file *)

Lemma wf_stream_sizes s :
  wf_stream s ->
  len (sd_strh s) = 56 /\ len (sd_strf s) mod 2 = 0
  /\ pad_bytes (sd_strh s) = [] /\ pad_bytes (sd_strf s) = []
  /\ len (strl_body s) = 72 + len (sd_strf s).
Proof.
  intros (H1 & H2 & _).
  assert (P1 : pad_bytes (sd_strh s) = []) by (apply pad_bytes_even; rewrite H1; reflexivity).
  assert (P2 : pad_bytes (sd_strf s) = []) by (apply pad_bytes_even, H2).
  assert (L1 : len (sd_strh s) = 56) by (unfold len; rewrite H1; reflexivity).
  assert (M : len (sd_strf s) mod 2 = 0).
  { rewrite <- len_pad_bytes, P2. reflexivity. }
  repeat split; try assumption.
  unfold strl_body. rewrite len_app, !len_chunk_bytes, M, L1.
  change (len FCC_strh) with 4. change (len FCC_strf) with 4.
  change (56 mod 2) with 0. lia.
Qed.

Section WellFormed.

(** The members parsing does not touch, and the file. *)
Variables (tex : option SDL_Texture) (pres : list (list byte)).
Variables (fw fh fps_ tf cf bpp Bpp : Z) (td : bool).
Variables (sdl : SDL_PixelFormatEnum) (valid : bool) (errs : list ErrMsg).
Variable bytes : list byte.

Abbreviation PS pos mh sh bh offs sizes pal :=
  (mkPlayer tex pres (mkStream bytes pos false) mh sh bh fw fh fps_ tf cf bpp Bpp td
            offs sizes pal sdl valid errs).

Lemma parseStreamList_chunk_strh pos mh sh bh offs sizes pal x rest n :
  length sh = 56%nat -> len x = 56 ->
  at_pos bytes pos (x ++ rest) ->
  parseStreamList_chunk (mkChunk FCC_strh n) (PS pos mh sh bh offs sizes pal)
  = PS (pos + 56) mh x bh offs sizes pal.
Proof.
  intros Lsh Lx A. unfold parseStreamList_chunk. cbn [fourCC].
  change (strncmp4_eq FCC_strh FCC_strh) with true. cbv iota. psimpl.
  rewrite (read_at bytes pos x rest sizeof_AVIStreamHeader A Lx).
  psimpl. rewrite overlay_full by (unfold len in Lx; lia). pnorm. reflexivity.
Qed.

Lemma parseStreamList_chunk_strf pos mh bh offs sizes pal s rest :
  wf_stream s -> len (sd_strf s) < 4294967296 -> length bh = 40%nat ->
  at_pos bytes pos (sd_strf s ++ rest) ->
  parseStreamList_chunk (mkChunk FCC_strf (len (sd_strf s)))
    (PS pos mh (sd_strh s) bh offs sizes pal)
  = PS (pos + len (sd_strf s)) mh (sd_strh s)
       (fst (capture_format (bh, pal) s)) offs sizes
       (snd (capture_format (bh, pal) s)).
Proof.
  intros (W1 & W2 & W3) Hsz Lbh A3.
  pose proof (len_nonneg (sd_strf s)) as Lnn.
  unfold parseStreamList_chunk, capture_format, is_video in *. cbn [fourCC size].
  change (strncmp4_eq FCC_strf FCC_strh) with false.
  change (strncmp4_eq FCC_strf FCC_strf) with true. cbv iota. psimpl.
  unfold sizeof_BitmapInfoHeader, sizeof_RGBQuad.
  destruct (strncmp4_eq (sh_fccType (sd_strh s)) FCC_vids) eqn:V.
  - (* a video stream *)
    specialize (W3 eq_refl).
    assert (Hsplit : sd_strf s = firstn 40 (sd_strf s) ++ skipn 40 (sd_strf s))
      by (symmetry; apply firstn_skipn).
    assert (L40 : len (firstn 40 (sd_strf s)) = 40).
    { unfold len. rewrite length_firstn. lia. }
    assert (Lx : len (skipn 40 (sd_strf s)) = len (sd_strf s) - 40).
    { unfold len. rewrite length_skipn. lia. }
    rewrite Hsplit, <- app_assoc in A3.
    rewrite (read_at bytes _ (firstn 40 (sd_strf s)) _ 40 A3 L40).
    cbv zeta. psimpl.
    rewrite overlay_full by (rewrite length_firstn; lia).
    rewrite wrap32_small by (unfold len in *; lia).
    rewrite <- Lx.
    pose proof (at_pos_app _ _ _ _ A3) as A4. rewrite L40 in A4.
    destruct ((0 <? len (skipn 40 (sd_strf s)))
              && (bh_bitCount (firstn 40 (sd_strf s)) =? 8)) eqn:C.
    + rewrite (read_at bytes _ (skipn 40 (sd_strf s)) _ _ A4 eq_refl).
      psimpl. rewrite palette_read. cbn [fst snd]. pnorm.
      f_equal. f_equal. rewrite Lx. lia.
    + cbn [fst snd].
      destruct (0 <? len (skipn 40 (sd_strf s))) eqn:C0; psimpl; pnorm.
      * cbn [seekg_cur failbit contents gpos]. f_equal. f_equal. rewrite Lx. lia.
      * apply Z.ltb_ge in C0. f_equal. f_equal. unfold len in *. lia.
  - (* any other stream *)
    cbn [fst snd]. cbn [seekg_cur failbit contents gpos]. pnorm. reflexivity.
Qed.

Lemma parseStreamList_loop_step fuel sz bytesRead p :
  parseStreamList_loop (S fuel) sz bytesRead p
  = if bytesRead <? sz then
      let '(raw, f1) := stream_read sizeof_ChunkHeader (file p) in
      if failbit f1 then Some (set_file f1 p)
      else parseStreamList_loop fuel sz
             (wrap32 (wrap32 (bytesRead + sizeof_ChunkHeader) + size (decode_chunk raw)))
             (parseStreamList_chunk (decode_chunk raw) (set_file f1 p))
    else Some p.
Proof. reflexivity. Qed.

Lemma parseStreamList_strl s : forall pos mh sh bh offs sizes pal rest fuel,
  wf_stream s -> len (strl_body s) < 4294967296 ->
  length sh = 56%nat -> length bh = 40%nat ->
  at_pos bytes pos (strl_body s ++ rest) ->
  parseStreamList_loop (S (S (S fuel))) (len (strl_body s)) 0
    (PS pos mh sh bh offs sizes pal)
  = Some (PS (pos + len (strl_body s)) mh (sd_strh s)
             (fst (capture_format (bh, pal) s)) offs sizes
             (snd (capture_format (bh, pal) s))).
Proof.
  intros pos mh sh bh offs sizes pal rest fuel W Hsz Lsh Lbh A.
  destruct (wf_stream_sizes s W) as (L1 & M & P1 & P2 & LB).
  pose proof (len_nonneg (sd_strf s)) as Lnn.
  unfold strl_body, chunk_bytes in A. rewrite P1, P2, !app_nil_r in A.
  rewrite <- !app_assoc in A.
  (* first pass: strh *)
  rewrite parseStreamList_loop_step.
  replace (0 <? len (strl_body s)) with true by (symmetry; apply Z.ltb_lt; lia).
  psimpl.
  rewrite (read_at bytes pos (FCC_strh ++ enc32 (len (sd_strh s))) _
             sizeof_ChunkHeader A eq_refl).
  cbn [failbit]. rewrite decode_chunk_bytes by (rewrite ?L1; try reflexivity; lia).
  cbn [size]. psimpl.
  assert (A1 : at_pos bytes (pos + 8)
                 (sd_strh s ++ FCC_strf ++ enc32 (len (sd_strf s)) ++ sd_strf s ++ rest)).
  { apply (at_pos_app bytes pos (FCC_strh ++ enc32 (len (sd_strh s)))).
    rewrite <- !app_assoc. exact A. }
  rewrite (parseStreamList_chunk_strh _ mh sh bh offs sizes pal _ _ _ Lsh L1 A1).
  assert (A2 : at_pos bytes (pos + 8 + 56)
                 (FCC_strf ++ enc32 (len (sd_strf s)) ++ sd_strf s ++ rest)).
  { rewrite <- L1. apply at_pos_app. exact A1. }
  (* second pass: strf *)
  rewrite parseStreamList_loop_step.
  rewrite L1. change (wrap32 (wrap32 (0 + sizeof_ChunkHeader) + 56)) with 64.
  replace (64 <? len (strl_body s)) with true by (symmetry; apply Z.ltb_lt; lia).
  psimpl.
  rewrite (read_at bytes _ (FCC_strf ++ enc32 (len (sd_strf s))) (sd_strf s ++ rest)
             sizeof_ChunkHeader A2 eq_refl).
  cbn [failbit].
  rewrite decode_chunk_bytes by (try reflexivity; lia).
  cbn [size]. psimpl. pnorm. unfold sizeof_ChunkHeader.
  assert (A3 : at_pos bytes (pos + 8 + 56 + 8) (sd_strf s ++ rest)).
  { apply (at_pos_app bytes (pos + 8 + 56) (FCC_strf ++ enc32 (len (sd_strf s)))).
    rewrite <- !app_assoc. exact A2. }
  rewrite (parseStreamList_chunk_strf _ mh bh offs sizes pal s rest W ltac:(lia) Lbh A3).
  (* third pass: the list is exhausted *)
  rewrite parseStreamList_loop_step.
  change (wrap32 (64 + 8)) with 72.
  rewrite wrap32_small by lia.
  rewrite LB, Z.ltb_irrefl. do 3 f_equal. lia.
Qed.

Lemma fuel_of_PS pos mh sh bh offs sizes pal :
  fuel_of (PS pos mh sh bh offs sizes pal) = S (length bytes).
Proof. reflexivity. Qed.

Lemma parseStreamList_strl_fuel s pos mh sh bh offs sizes pal rest :
  wf_stream s -> len (strl_body s) < 4294967296 ->
  length sh = 56%nat -> length bh = 40%nat ->
  at_pos bytes pos (strl_body s ++ rest) ->
  parseStreamList (len (strl_body s)) (PS pos mh sh bh offs sizes pal)
  = Some (PS (pos + len (strl_body s)) mh (sd_strh s)
             (fst (capture_format (bh, pal) s)) offs sizes
             (snd (capture_format (bh, pal) s))).
Proof.
  intros W Hsz Lsh Lbh A. unfold parseStreamList. rewrite fuel_of_PS.
  destruct (wf_stream_sizes s W) as (_ & _ & _ & _ & LB).
  pose proof (len_nonneg (sd_strf s)).
  pose proof (at_pos_length _ _ _ A (len_app_pos (strl_body s) rest ltac:(lia))) as AL.
  rewrite len_app in AL. pose proof (len_nonneg rest).
  assert (Hb : (2 <= length bytes)%nat).
  { destruct A as [A0 _]. unfold len in *. lia. }
  replace (S (length bytes)) with (S (S (S (length bytes - 2)))) by lia.
  eapply parseStreamList_strl; eassumption.
Qed.

Section HeaderList.

Variable uninit_listType : list byte.

Lemma parseHeaderList_loop_step fuel sz bytesRead p :
  parseHeaderList_loop uninit_listType (S fuel) sz bytesRead p
  = if bytesRead <? sz then
      let '(raw, f1) := stream_read sizeof_ChunkHeader (file p) in
      if failbit f1 then Some (set_file f1 p)
      else
        r <- parseHeaderList_chunk uninit_listType (decode_chunk raw)
               (wrap32 (bytesRead + sizeof_ChunkHeader)) (set_file f1 p) ;;
        parseHeaderList_loop uninit_listType fuel sz
          (wrap32 (fst r + size (decode_chunk raw))) (snd r)
    else Some p.
Proof. reflexivity. Qed.

Lemma overlay_listType x :
  length x = 4%nat ->
  overlay x (firstn 4 (uninit_listType ++ repeat x00 4)) = x.
Proof.
  intros H. apply overlay_full. rewrite H, length_firstn, length_app, repeat_length. lia.
Qed.

Lemma parseHeaderList_chunk_avih pos mh sh bh offs sizes pal x rest n br :
  length mh = 56%nat -> len x = 56 ->
  at_pos bytes pos (x ++ rest) ->
  parseHeaderList_chunk uninit_listType (mkChunk FCC_avih n) br
    (PS pos mh sh bh offs sizes pal)
  = Some (br, PS (pos + 56) x sh bh offs sizes pal).
Proof.
  intros Lmh Lx A. unfold parseHeaderList_chunk. cbn [fourCC].
  change (strncmp4_eq FCC_avih FCC_avih) with true. cbv iota. psimpl.
  rewrite (read_at bytes pos x rest sizeof_AVIMainHeader A Lx).
  psimpl. rewrite overlay_full by (unfold len in Lx; lia). pnorm. reflexivity.
Qed.

Lemma parseHeaderList_chunk_strl pos mh sh bh offs sizes pal s rest br :
  wf_stream s -> len (strl_body s) + 4 < 4294967296 ->
  length sh = 56%nat -> length bh = 40%nat ->
  at_pos bytes pos (FCC_strl ++ strl_body s ++ rest) ->
  parseHeaderList_chunk uninit_listType (mkChunk FCC_LIST (4 + len (strl_body s))) br
    (PS pos mh sh bh offs sizes pal)
  = Some (wrap32 (br + 4),
          PS (pos + 4 + len (strl_body s)) mh (sd_strh s)
             (fst (capture_format (bh, pal) s)) offs sizes
             (snd (capture_format (bh, pal) s))).
Proof.
  intros W Hsz Lsh Lbh A. unfold parseHeaderList_chunk. cbn [fourCC size].
  change (strncmp4_eq FCC_LIST FCC_avih) with false.
  change (strncmp4_eq FCC_LIST FCC_LIST) with true. cbv iota. psimpl.
  rewrite (read_at bytes pos FCC_strl _ 4 A eq_refl). cbv zeta.
  rewrite overlay_listType by reflexivity.
  change (strncmp4_eq FCC_strl FCC_strl) with true. cbv iota. pnorm.
  replace (wrap32 (4 + len (strl_body s) - 4)) with (len (strl_body s))
    by (rewrite wrap32_small; pose proof (len_nonneg (strl_body s)); lia).
  pose proof (at_pos_app _ _ _ _ A) as A1. change (len FCC_strl) with 4 in A1.
  rewrite (parseStreamList_strl_fuel s _ mh sh bh offs sizes pal rest W
             ltac:(lia) Lsh Lbh A1).
  reflexivity.
Qed.

Lemma len_strl_bytes s :
  wf_stream s -> len (strl_bytes s) = 84 + len (sd_strf s).
Proof.
  intros W. destruct (wf_stream_sizes s W) as (_ & _ & _ & _ & LB).
  unfold strl_bytes, list_bytes. rewrite !len_app, len_enc32, LB.
  change (len FCC_LIST) with 4. change (len FCC_strl) with 4. lia.
Qed.

Lemma capture_format_length bh pal s :
  wf_stream s -> length bh = 40%nat ->
  length (fst (capture_format (bh, pal) s)) = 40%nat.
Proof.
  intros (_ & _ & W3) L. unfold capture_format.
  destruct (is_video s); [|exact L]. specialize (W3 eq_refl).
  destruct (_ && _); cbn [fst]; rewrite length_firstn; lia.
Qed.

Lemma parseHeaderList_streams streams : forall pos br sh bh pal rest fuel sz mh offs sizes,
  Forall wf_stream streams ->
  length sh = 56%nat -> length bh = 40%nat ->
  at_pos bytes pos (flat_map strl_bytes streams ++ rest) ->
  (length streams < fuel)%nat ->
  0 <= br -> sz <= br + len (flat_map strl_bytes streams) ->
  br + len (flat_map strl_bytes streams) - sz + 4 * Z.of_nat (length streams) <= 84 ->
  br + len (flat_map strl_bytes streams) + 4 * Z.of_nat (length streams) < 4294967296 ->
  parseHeaderList_loop uninit_listType fuel sz br (PS pos mh sh bh offs sizes pal)
  = Some (PS (pos + len (flat_map strl_bytes streams)) mh (last_strh streams sh)
             (fst (format_of streams (bh, pal))) offs sizes
             (snd (format_of streams (bh, pal)))).
Proof.
  induction streams as [|s streams IH];
    intros pos br sh bh pal rest fuel sz mh offs sizes HF Lsh Lbh A Hfuel Hbr Hd Hdrift Hmax.
  - cbn [flat_map length] in *. change (len []) with 0 in *.
    destruct fuel as [|fuel]; [lia|]. rewrite parseHeaderList_loop_step.
    replace (br <? sz) with false by (symmetry; apply Z.ltb_ge; lia).
    cbn [format_of last_strh fold_left fst snd]. do 3 f_equal. lia.
  - inversion HF as [|? ? W HF']; subst.
    cbn [flat_map length] in *. rewrite len_app in *.
    rewrite (len_strl_bytes s W) in *.
    pose proof (len_nonneg (sd_strf s)) as Lnn.
    pose proof (len_nonneg (flat_map strl_bytes streams)) as Rnn.
    destruct (wf_stream_sizes s W) as (_ & _ & _ & _ & LB).
    destruct fuel as [|fuel]; [lia|]. rewrite parseHeaderList_loop_step.
    replace (br <? sz) with true by (symmetry; apply Z.ltb_lt; lia).
    psimpl.
    unfold strl_bytes at 1, list_bytes in A. rewrite <- !app_assoc in A.
    rewrite (read_at bytes pos (FCC_LIST ++ enc32 (4 + len (strl_body s))) _
               sizeof_ChunkHeader A eq_refl).
    cbn [failbit]. rewrite decode_chunk_bytes by (try reflexivity; lia).
    cbn [size]. psimpl. pnorm.
    assert (A1 : at_pos bytes (pos + 8)
                   (FCC_strl ++ strl_body s ++ flat_map strl_bytes streams ++ rest)).
    { apply (at_pos_app bytes pos (FCC_LIST ++ enc32 (4 + len (strl_body s)))).
      rewrite <- !app_assoc. exact A. }
    unfold sizeof_ChunkHeader.
    rewrite (parseHeaderList_chunk_strl _ mh sh bh offs sizes pal s _ _ W
               ltac:(lia) Lsh Lbh A1).
    cbn [fst snd].
    assert (A2 : at_pos bytes (pos + 8 + 4 + len (strl_body s))
                   (flat_map strl_bytes streams ++ rest)).
    { pose proof (at_pos_app _ _ _ _ A1) as A2. change (len FCC_strl) with 4 in A2.
      apply at_pos_app in A2. exact A2. }
    rewrite (wrap32_small (br + 8)) by lia.
    rewrite (wrap32_small (br + 8 + 4)) by lia.
    rewrite (wrap32_small (br + 8 + 4 + _)) by lia.
    rewrite (IH _ _ _ _ _ rest fuel sz mh offs sizes HF'
               (proj1 W) (capture_format_length bh pal s W Lbh) A2);
      try lia.
    + cbn [format_of last_strh fold_left].
      destruct (capture_format (bh, pal) s) as [bh1 pal1]. cbn [fst snd].
      do 3 f_equal. lia.
Qed.

Lemma parseHeaderList_hdrl a pos mh sh bh offs sizes pal rest :
  wf_avi a ->
  length mh = 56%nat -> length sh = 56%nat -> length bh = 40%nat ->
  at_pos bytes pos (hdrl_body a ++ rest) ->
  parseHeaderList uninit_listType (len (hdrl_body a)) (PS pos mh sh bh offs sizes pal)
  = Some (PS (pos + len (hdrl_body a)) (af_avih a) (last_strh (af_streams a) sh)
             (fst (format_of (af_streams a) (bh, pal))) offs sizes
             (snd (format_of (af_streams a) (bh, pal)))).
Proof.
  intros W Lmh Lsh Lbh A. unfold parseHeaderList. rewrite fuel_of_PS.
  pose proof (wf_avih a W) as La. pose proof (wf_header_size a W) as Hh.
  pose proof (wf_stream_count a W) as Hc.
  assert (La' : len (af_avih a) = 56) by (unfold len; rewrite La; reflexivity).
  assert (Pa : pad_bytes (af_avih a) = [])
    by (apply pad_bytes_even; rewrite La; reflexivity).
  pose proof (len_nonneg (flat_map strl_bytes (af_streams a))) as Rnn.
  assert (LH : len (hdrl_body a) = 64 + len (flat_map strl_bytes (af_streams a))).
  { unfold hdrl_body. rewrite len_app, len_chunk_bytes, La'.
    change (len FCC_avih) with 4. change (56 mod 2) with 0. lia. }
  unfold hdrl_body, chunk_bytes in A. rewrite Pa, app_nil_r in A.
  rewrite <- !app_assoc in A.
  rewrite parseHeaderList_loop_step.
  replace (0 <? len (hdrl_body a)) with true by (symmetry; apply Z.ltb_lt; lia).
  psimpl.
  rewrite (read_at bytes pos (FCC_avih ++ enc32 (len (af_avih a))) _
             sizeof_ChunkHeader A eq_refl).
  cbn [failbit]. rewrite decode_chunk_bytes by (rewrite ?La'; try reflexivity; lia).
  cbn [size]. psimpl. pnorm.
  assert (A1 : at_pos bytes (pos + 8)
                 (af_avih a ++ flat_map strl_bytes (af_streams a) ++ rest)).
  { apply (at_pos_app bytes pos (FCC_avih ++ enc32 (len (af_avih a)))).
    rewrite <- !app_assoc. exact A. }
  unfold sizeof_ChunkHeader.
  rewrite (parseHeaderList_chunk_avih _ mh sh bh offs sizes pal _ _ _ _ Lmh La' A1).
  cbn [fst snd]. rewrite La'.
  change (wrap32 (wrap32 (0 + 8) + 56)) with 64.
  assert (A2 : at_pos bytes (pos + 8 + 56) (flat_map strl_bytes (af_streams a) ++ rest)).
  { rewrite <- La'. apply at_pos_app. exact A1. }
  assert (Hlen : (length (af_streams a) < length bytes)%nat).
  { pose proof (at_pos_length _ _ _ A (len_app_pos FCC_avih _ eq_refl)) as AL.
    rewrite !len_app, La' in AL. change (len FCC_avih) with 4 in AL.
    change (len (enc32 56)) with 4 in AL. pose proof (len_nonneg rest).
    destruct A as [A0 _]. unfold len in *. lia. }
  rewrite (parseHeaderList_streams (af_streams a) _ 64 sh bh pal rest _ _ _ offs sizes
             (wf_streams a W) Lsh Lbh A2 Hlen); try lia.
  do 3 f_equal. lia.
Qed.

End HeaderList.

Lemma indexFrames_loop_step fuel movieEnd p :
  indexFrames_loop (S fuel) movieEnd p
  = if tellg (file p) <? movieEnd then
      let '(raw, f1) := stream_read sizeof_ChunkHeader (file p) in
      if failbit f1 then Some (set_file f1 p)
      else indexFrames_loop fuel movieEnd
             (indexFrames_chunk (decode_chunk raw) (set_file f1 p))
    else Some p.
Proof. reflexivity. Qed.

Lemma indexFrames_chunk_at pos mh sh bh offs sizes pal tag n :
  0 <= pos < 4294967296 -> 0 <= n < 4294967295 ->
  indexFrames_chunk (mkChunk tag n) (PS pos mh sh bh offs sizes pal)
  = PS (pos + n + n mod 2) mh sh bh
       (offs ++ if isFrameTag tag then [pos] else [])
       (sizes ++ if isFrameTag tag then [n] else []) pal.
Proof.
  intros Hp Hn. unfold indexFrames_chunk. cbn [fourCC size]. cbv zeta.
  assert (Hs : (if n mod 2 =? 1 then wrap32 (n + 1) else n) = n + n mod 2).
  { pose proof (Z.mod_pos_bound n 2 ltac:(lia)).
    destruct (n mod 2 =? 1) eqn:E.
    - apply Z.eqb_eq in E. rewrite wrap32_small by lia. lia.
    - apply Z.eqb_neq in E. lia. }
  rewrite Hs.
  destruct (isFrameTag tag); psimpl; pnorm; cbn [tellg seekg_cur failbit gpos contents].
  - rewrite wrap32_small by lia. do 2 f_equal. lia.
  - rewrite !app_nil_r. do 2 f_equal. lia.
Qed.

Lemma len_movie_chunk_bytes c :
  wf_movie_chunk c ->
  len (movie_chunk_bytes c) = 8 + len (mc_data c) + len (mc_data c) mod 2.
Proof.
  intros W. unfold movie_chunk_bytes. rewrite len_chunk_bytes.
  unfold wf_movie_chunk in W. unfold len at 1. rewrite W. lia.
Qed.

Lemma movi_body_chunks cs :
  Forall wf_movie_chunk cs -> 8 * Z.of_nat (length cs) <= len (movi_body cs).
Proof.
  induction 1 as [|c cs W HF IH]; [cbn; lia|].
  cbn [movi_body flat_map length]. fold (movi_body cs).
  rewrite len_app, (len_movie_chunk_bytes c W).
  pose proof (len_nonneg (mc_data c)).
  pose proof (Z.mod_pos_bound (len (mc_data c)) 2 ltac:(lia)). lia.
Qed.

(** The chunks [cs] of the movie list are indexed one by one. *)
Lemma indexFrames_chunks cs : forall pos offs sizes rest fuel movieEnd mh sh bh pal,
  Forall wf_movie_chunk cs ->
  at_pos bytes pos (movi_body cs ++ rest) ->
  pos + len (movi_body cs) <= movieEnd ->
  pos + len (movi_body cs) < 4294967296 ->
  indexFrames_loop (length cs + fuel) movieEnd (PS pos mh sh bh offs sizes pal)
  = indexFrames_loop fuel movieEnd
      (PS (pos + len (movi_body cs)) mh sh bh
          (offs ++ map fst (frame_index pos cs))
          (sizes ++ map snd (frame_index pos cs)) pal).
Proof.
  induction cs as [|c cs IH];
    intros pos offs sizes rest fuel movieEnd mh sh bh pal HF A Hend Hmax.
  - cbn [movi_body flat_map frame_index map length Nat.add].
    change (len []) with 0. rewrite !app_nil_r, Z.add_0_r. reflexivity.
  - inversion HF as [|? ? W HF']; subst.
    cbn [movi_body flat_map] in *. fold (movi_body cs) in *.
    rewrite len_app in *. rewrite (len_movie_chunk_bytes c W) in *.
    pose proof (len_nonneg (mc_data c)) as Dnn.
    pose proof (Z.mod_pos_bound (len (mc_data c)) 2 ltac:(lia)) as Mb.
    pose proof (len_nonneg (movi_body cs)) as Rnn.
    pose proof A as [A0 _].
    cbn [length Nat.add]. rewrite indexFrames_loop_step. psimpl.
    cbn [tellg failbit gpos].
    replace (pos <? movieEnd) with true by (symmetry; apply Z.ltb_lt; lia).
    unfold movie_chunk_bytes at 1, chunk_bytes in A. rewrite <- !app_assoc in A.
    assert (Lt : len (mc_tag c ++ enc32 (len (mc_data c))) = sizeof_ChunkHeader).
    { rewrite len_app, len_enc32. unfold len. rewrite W. reflexivity. }
    rewrite (read_at bytes pos (mc_tag c ++ enc32 (len (mc_data c))) _
               sizeof_ChunkHeader ltac:(rewrite <- app_assoc; exact A) Lt).
    cbn [failbit]. rewrite decode_chunk_bytes by (try exact W; lia).
    pnorm. unfold sizeof_ChunkHeader.
    rewrite indexFrames_chunk_at by lia.
    assert (A1 : at_pos bytes (pos + 8 + len (mc_data c) + len (mc_data c) mod 2)
                   (movi_body cs ++ rest)).
    { pose proof (at_pos_app bytes pos (mc_tag c ++ enc32 (len (mc_data c))) _
                    ltac:(rewrite <- app_assoc; exact A)) as A1.
      rewrite Lt in A1. apply at_pos_app in A1.
      apply at_pos_app in A1. rewrite len_pad_bytes in A1. exact A1. }
    rewrite (IH _ _ _ rest fuel movieEnd mh sh bh pal HF' A1) by lia.
    cbn [frame_index]. rewrite (len_movie_chunk_bytes c W).
    rewrite !Z.add_assoc, !map_app, !app_assoc.
    destruct (isFrameTag (mc_tag c)); reflexivity.
Qed.

End WellFormed.


(** ** The top-level chunks *)

Section TopLevel.

Variables (tex : option SDL_Texture) (pres : list (list byte)).
Variables (fw fh fps_ tf cf bpp Bpp : Z) (td : bool).
Variables (sdl : SDL_PixelFormatEnum) (valid : bool) (errs : list ErrMsg).
Variable bytes : list byte.
Variable uninit_listType : list byte.

Abbreviation PS pos mh sh bh offs sizes pal :=
  (mkPlayer tex pres (mkStream bytes pos false) mh sh bh fw fh fps_ tf cf bpp Bpp td
            offs sizes pal sdl valid errs).

Lemma parseAVIChunks_loop_step fuel found p :
  parseAVIChunks_loop uninit_listType (S fuel) found p
  = let '(raw, f1) := stream_read sizeof_ChunkHeader (file p) in
    if failbit f1 then Some (found, set_file f1 p)
    else
      r <- parseAVIChunks_chunk uninit_listType (decode_chunk raw) found
             (set_file f1 p) ;;
      let '(continue, found', p1) := r in
      if continue then parseAVIChunks_loop uninit_listType fuel found' p1
      else Some (found', p1).
Proof. reflexivity. Qed.

(** The header list, met at the top level. *)
Lemma parseAVIChunks_hdrl a pos mh sh bh offs sizes pal rest fuel found :
  wf_avi a -> 4 + len (hdrl_body a) < 4294967296 ->
  length mh = 56%nat -> length sh = 56%nat -> length bh = 40%nat ->
  at_pos bytes pos (list_bytes FCC_hdrl (hdrl_body a) ++ rest) ->
  parseAVIChunks_loop uninit_listType (S fuel) found (PS pos mh sh bh offs sizes pal)
  = parseAVIChunks_loop uninit_listType fuel true
      (PS (pos + len (list_bytes FCC_hdrl (hdrl_body a))) (af_avih a)
          (last_strh (af_streams a) sh)
          (fst (format_of (af_streams a) (bh, pal))) offs sizes
          (snd (format_of (af_streams a) (bh, pal)))).
Proof.
  intros W Hh Lmh Lsh Lbh A.
  pose proof (len_nonneg (hdrl_body a)) as Hnn.
  rewrite parseAVIChunks_loop_step. psimpl.
  unfold list_bytes in A. rewrite <- !app_assoc in A.
  rewrite (read_at bytes pos (FCC_LIST ++ enc32 (4 + len (hdrl_body a))) _
             sizeof_ChunkHeader A eq_refl).
  cbn [failbit]. rewrite decode_chunk_bytes by (try reflexivity; lia).
  pnorm. unfold parseAVIChunks_chunk. cbn [fourCC size].
  change (strncmp4_eq FCC_LIST FCC_LIST) with true. cbv iota. psimpl.
  assert (A1 : at_pos bytes (pos + 8) (FCC_hdrl ++ hdrl_body a ++ rest)).
  { apply (at_pos_app bytes pos (FCC_LIST ++ enc32 (4 + len (hdrl_body a)))).
    rewrite <- !app_assoc. exact A. }
  unfold sizeof_ChunkHeader.
  rewrite (read_at bytes _ FCC_hdrl _ 4 A1 eq_refl). cbv zeta.
  rewrite overlay_listType by reflexivity.
  change (strncmp4_eq FCC_hdrl FCC_hdrl) with true. cbv iota. pnorm.
  replace (wrap32 (4 + len (hdrl_body a) - 4)) with (len (hdrl_body a))
    by (rewrite wrap32_small; lia).
  pose proof (at_pos_app _ _ _ _ A1) as A2. change (len FCC_hdrl) with 4 in A2.
  rewrite (parseHeaderList_hdrl tex pres fw fh fps_ tf cf bpp Bpp td sdl valid errs
             bytes uninit_listType a _ mh sh bh offs sizes pal rest W Lmh Lsh Lbh A2).
  unfold list_bytes. rewrite !len_app, len_enc32.
  change (len FCC_LIST) with 4. change (len FCC_hdrl) with 4.
  do 3 f_equal. lia.
Qed.

(** The movie list, met at the top level: the loop ends with what
    [indexFrames] returns. *)
Lemma parseAVIChunks_movi pos mh sh bh offs sizes pal rest fuel found M :
  0 <= M -> 4 + M < 4294967296 ->
  at_pos bytes pos (FCC_LIST ++ enc32 (4 + M) ++ FCC_movi ++ rest) ->
  parseAVIChunks_loop uninit_listType (S fuel) found (PS pos mh sh bh offs sizes pal)
  = match indexFrames M (PS (pos + 12) mh sh bh offs sizes pal) with
    | Some p => Some (found, p)
    | None => None
    end.
Proof.
  intros HM Hmax A.
  rewrite parseAVIChunks_loop_step. psimpl.
  rewrite (read_at bytes pos (FCC_LIST ++ enc32 (4 + M)) _
             sizeof_ChunkHeader ltac:(rewrite <- app_assoc; exact A) eq_refl).
  cbn [failbit]. rewrite decode_chunk_bytes by (try reflexivity; lia).
  pnorm. unfold parseAVIChunks_chunk. cbn [fourCC size].
  change (strncmp4_eq FCC_LIST FCC_LIST) with true. cbv iota. psimpl.
  assert (A1 : at_pos bytes (pos + 8) (FCC_movi ++ rest)).
  { apply (at_pos_app bytes pos (FCC_LIST ++ enc32 (4 + M))).
    rewrite <- !app_assoc. exact A. }
  unfold sizeof_ChunkHeader.
  rewrite (read_at bytes _ FCC_movi _ 4 A1 eq_refl). cbv zeta.
  rewrite overlay_listType by reflexivity.
  change (strncmp4_eq FCC_movi FCC_hdrl) with false.
  change (strncmp4_eq FCC_movi FCC_movi) with true. cbv iota. pnorm.
  replace (wrap32 (4 + M - 4)) with M by (rewrite wrap32_small; lia).
  replace (pos + 8 + 4) with (pos + 12) by lia.
  destruct (indexFrames M _); reflexivity.
Qed.

(** A complete movie list. *)
Lemma indexFrames_complete cs pos mh sh bh offs sizes pal rest :
  Forall wf_movie_chunk cs ->
  at_pos bytes pos (movi_body cs ++ rest) ->
  pos + len (movi_body cs) < 4294967296 ->
  len (movi_body cs) <= len bytes ->
  indexFrames (len (movi_body cs)) (PS pos mh sh bh offs sizes pal)
  = Some (PS (pos + len (movi_body cs)) mh sh bh
             (offs ++ map fst (frame_index pos cs))
             (sizes ++ map snd (frame_index pos cs)) pal).
Proof.
  intros HF A Hmax Hlen. unfold indexFrames. rewrite fuel_of_PS. psimpl.
  cbn [tellg failbit gpos].
  assert (Hc : (length cs <= length bytes)%nat).
  { pose proof (movi_body_chunks cs HF). unfold len in *. lia. }
  replace (S (length bytes)) with (length cs + S (length bytes - length cs))%nat by lia.
  rewrite (indexFrames_chunks tex pres fw fh fps_ tf cf bpp Bpp td sdl valid errs
             bytes cs pos offs sizes rest (S (length bytes - length cs))
             (pos + len (movi_body cs)) mh sh bh pal HF A (Z.le_refl _) Hmax).
  rewrite indexFrames_loop_step. psimpl. cbn [tellg failbit gpos].
  rewrite Z.ltb_irrefl. reflexivity.
Qed.

Lemma frame_index_app cs1 : forall pos cs2,
  frame_index pos (cs1 ++ cs2)
  = frame_index pos cs1 ++ frame_index (pos + len (movi_body cs1)) cs2.
Proof.
  induction cs1 as [|c cs1 IH]; intros pos cs2.
  - cbn [app frame_index movi_body flat_map]. change (len []) with 0.
    rewrite Z.add_0_r. reflexivity.
  - cbn [app frame_index movi_body flat_map]. fold (movi_body cs1).
    rewrite IH, len_app, <- app_assoc, Z.add_assoc. reflexivity.
Qed.

(** A movie list cut inside the payload of the chunk [c]: [c] is still
    indexed, and the loop ends there. *)
Lemma indexFrames_truncated cs c m pos mh sh bh offs sizes pal M :
  Forall wf_movie_chunk cs -> wf_movie_chunk c ->
  at_pos bytes pos
    (movi_body cs ++ mc_tag c ++ enc32 (len (mc_data c)) ++ firstn m (mc_data c)) ->
  (m < length (mc_data c))%nat ->
  len (movi_body cs) < M ->
  pos + len (movi_body cs) + 8 + len (mc_data c) < 4294967296 ->
  exists f,
    contents f = bytes
    /\ indexFrames M (PS pos mh sh bh offs sizes pal)
       = Some (mkPlayer tex pres f mh sh bh fw fh fps_ tf cf bpp Bpp td
                 (offs ++ map fst (frame_index pos (cs ++ [c])))
                 (sizes ++ map snd (frame_index pos (cs ++ [c]))) pal
                 sdl valid errs).
Proof.
  intros HF W A Hm HM Hmax.
  pose proof (len_nonneg (movi_body cs)) as Rnn.
  pose proof (len_nonneg (mc_data c)) as Dnn.
  pose proof (Z.mod_pos_bound (len (mc_data c)) 2 ltac:(lia)) as Mb.
  pose proof A as [A0 _].
  assert (Lt : len (mc_tag c ++ enc32 (len (mc_data c))) = 8).
  { rewrite len_app, len_enc32. unfold len. rewrite W. reflexivity. }
  assert (Lf : len (firstn m (mc_data c)) = Z.of_nat m).
  { unfold len. rewrite length_firstn. lia. }
  assert (AL : pos + len (movi_body cs) + 8 + Z.of_nat m = len bytes).
  { pose proof (at_pos_app _ _ _ _ A) as A1.
    rewrite app_assoc in A1.
    pose proof (at_pos_length _ _ _ A1
                  (len_app_pos (mc_tag c ++ enc32 (len (mc_data c)))
                               (firstn m (mc_data c)) ltac:(lia))) as AL.
    rewrite len_app, Lt, Lf in AL. lia. }
  assert (Hc : (length cs < length bytes)%nat).
  { pose proof (movi_body_chunks cs HF). unfold len in *. lia. }
  unfold indexFrames. rewrite fuel_of_PS. psimpl. cbn [tellg failbit gpos].
  replace (S (length bytes))
    with (length cs + S (S (length bytes - length cs - 1)))%nat by lia.
  rewrite (indexFrames_chunks tex pres fw fh fps_ tf cf bpp Bpp td sdl valid errs
             bytes cs pos offs sizes _ (S (S (length bytes - length cs - 1)))
             (pos + M) mh sh bh pal HF A ltac:(lia) ltac:(lia)).
  rewrite indexFrames_loop_step. psimpl. cbn [tellg failbit gpos].
  replace (pos + len (movi_body cs) <? pos + M) with true
    by (symmetry; apply Z.ltb_lt; lia).
  pose proof (at_pos_app _ _ _ _ A) as A1. rewrite app_assoc in A1.
  rewrite (read_at bytes _ (mc_tag c ++ enc32 (len (mc_data c))) _
             sizeof_ChunkHeader A1 Lt).
  cbn [failbit]. rewrite decode_chunk_bytes by (try exact W; unfold len in *; lia).
  pnorm. unfold sizeof_ChunkHeader.
  rewrite (indexFrames_chunk_at tex pres fw fh fps_ tf cf bpp Bpp td sdl valid errs
             bytes) by lia.
  rewrite frame_index_app, !map_app, !app_assoc.
  cbn [frame_index]. rewrite app_nil_r.
  assert (E : forall (A B : Type) (g : A * B -> Z) (b : bool) (x : A * B),
             map g (if b then [x] else []) = if b then [g x] else []).
  { intros ? ? g [|] x; reflexivity. }
  rewrite !E. cbn [fst snd].
  rewrite indexFrames_loop_step. psimpl. cbn [tellg failbit gpos].
  destruct (_ <? pos + M).
  - destruct (read_past_end bytes
                (pos + len (movi_body cs) + 8 + len (mc_data c) + len (mc_data c) mod 2)
                sizeof_ChunkHeader) as [q R];
      [unfold len in *; lia | reflexivity |].
    rewrite R. cbn [failbit]. pnorm. eexists. split; [|reflexivity]. reflexivity.
  - eexists. split; [|reflexivity]. reflexivity.
Qed.

End TopLevel.


(** ** loadAVI on a well-formed file *)

Lemma len_avi_prefix a :
  len (avi_prefix a) = 36 + len (hdrl_body a).
Proof.
  unfold avi_prefix, list_bytes. rewrite !len_app, !len_enc32.
  change (len FCC_RIFF) with 4. change (len FCC_AVI) with 4.
  change (len FCC_LIST) with 4. change (len FCC_hdrl) with 4.
  change (len FCC_movi) with 4. lia.
Qed.

Lemma ctor_lengths mh0 sh0 bh0 :
  length (firstn 56 (mh0 ++ repeat x00 56)) = 56%nat
  /\ length (firstn 56 (sh0 ++ repeat x00 56)) = 56%nat
  /\ length (firstn 40 (bh0 ++ repeat x00 40)) = 40%nat.
Proof.
  repeat split; rewrite length_firstn, length_app, repeat_length; lia.
Qed.

(** Everything [loadAVI] does before the movie data: the RIFF header and
    the header list.  What remains is to index the movie list. *)
Lemma loadAVI_prefix a tail u1 u2 mh0 sh0 bh0 :
  wf_avi a ->
  len (avi_prefix a) + len (movi_body (af_movi a)) < 4294967296 ->
  let bytes := avi_prefix a ++ tail in
  loadAVI u1 u2 (Some bytes) (AVIPlayer_ctor mh0 sh0 bh0)
  = match indexFrames (len (movi_body (af_movi a)))
            (parsed_player a (mkStream bytes (len (avi_prefix a)) false) []
                           mh0 sh0 bh0) with
    | Some p =>
      if negb (Nat.eqb (length (frameOffsets p)) 0)
      then Some (loadAVI_finish p)
      else Some (false, set_cerr (cerr p ++ [Err_FailedParse]) p)
    | None => None
    end.
Proof.
  intros W Hsz bytes.
  pose proof (len_avi_prefix a) as LP.
  pose proof (len_nonneg (hdrl_body a)) as Hnn.
  pose proof (len_nonneg (movi_body (af_movi a))) as Mnn.
  destruct (ctor_lengths mh0 sh0 bh0) as (Lmh & Lsh & Lbh).
  unfold loadAVI, parsed_player, AVIPlayer_ctor. pnorm. psimpl.
  set (X := 4 + len (list_bytes FCC_hdrl (hdrl_body a))
            + len (list_bytes FCC_movi (movi_body (af_movi a)))
            + len (af_trailer a)).
  assert (A : at_pos bytes 0
                ((FCC_RIFF ++ enc32 X ++ FCC_AVI)
                 ++ list_bytes FCC_hdrl (hdrl_body a)
                 ++ (FCC_LIST ++ enc32 (4 + len (movi_body (af_movi a)))
                     ++ FCC_movi ++ tail))).
  { unfold bytes, avi_prefix. fold X. rewrite <- !app_assoc. apply at_pos_start. }
  rewrite (read_at bytes 0 (FCC_RIFF ++ enc32 X ++ FCC_AVI) _ sizeof_RIFFHeader A eq_refl).
  cbv zeta.
  rewrite overlay_full
    by (change (length (FCC_RIFF ++ enc32 X ++ FCC_AVI)) with 12%nat;
        rewrite length_firstn, length_app, repeat_length; lia).
  change (strncmp4_eq (riff_signature (FCC_RIFF ++ enc32 X ++ FCC_AVI)) FCC_RIFF)
    with true.
  change (strncmp4_eq (riff_format (FCC_RIFF ++ enc32 X ++ FCC_AVI)) FCC_AVI)
    with true.
  cbn [negb orb]. pnorm.
  apply at_pos_app in A. change (len (FCC_RIFF ++ enc32 X ++ FCC_AVI)) with 12 in A.
  unfold parseAVIChunks. rewrite fuel_of_PS.
  assert (Hb : (2 <= length bytes)%nat).
  { unfold bytes. rewrite length_app. pose proof LP as LP'. unfold len in LP'. lia. }
  replace (S (length bytes)) with (S (S (length bytes - 1))) by lia.
  unfold sizeof_RIFFHeader.
  rewrite (parseAVIChunks_hdrl _ _ _ _ _ _ _ _ _ _ _ _ _ bytes u1 a (0 + 12)
             _ _ _ [] [] [] _ _ false W ltac:(lia) Lmh Lsh Lbh A).
  apply at_pos_app in A.
  rewrite (parseAVIChunks_movi _ _ _ _ _ _ _ _ _ _ _ _ _ bytes u1 _ _ _ _ [] [] _ tail
             _ true (len (movi_body (af_movi a))) Mnn ltac:(lia) A).
  replace (0 + 12 + len (list_bytes FCC_hdrl (hdrl_body a)) + 12)
    with (len (avi_prefix a))
    by (rewrite LP; unfold list_bytes; rewrite !len_app, len_enc32;
        change (len FCC_LIST) with 4; change (len FCC_hdrl) with 4; lia).
  destruct (indexFrames _ _) as [p|]; [|reflexivity].
  cbn [andb]. destruct (negb _); reflexivity.
Qed.

Lemma determinePixelFormat_supported p :
  supported_format (bitmapHeader p) ->
  fst (determinePixelFormat p) = true
  /\ cerr (snd (determinePixelFormat p)) = cerr p.
Proof.
  intros [C B]. unfold determinePixelFormat. cbv zeta. psimpl.
  rewrite C. cbn [Z.eqb negb].
  destruct B as [B | [B | [B | B]]]; rewrite B; cbn [Z.eqb Pos.eqb];
    cbn [fst snd]; split; try reflexivity; destruct p; reflexivity.
Qed.

Lemma loadAVI_finish_supported p :
  length (bitmapHeader p) = 40%nat ->
  supported_format (bitmapHeader p) ->
  fst (loadAVI_finish p) = true /\ cerr (snd (loadAVI_finish p)) = cerr p.
Proof.
  intros L S. unfold loadAVI_finish. cbv zeta.
  match goal with
  | |- context [determinePixelFormat ?q] =>
    assert (Hq : supported_format (bitmapHeader q) /\ cerr q = cerr p)
  end.
  { destruct p as [tex pres f mh sh bh fw fh fps_ tf cf bpp Bpp td offs sizes pal sdl valid errs]. cbn in L, S |- *.
    destruct (0 <? mh_microSecPerFrame mh); cbn;
      destruct (bh_height bh <? 0); cbn; split; try reflexivity;
      try exact S;
      destruct (bh_set_height_fields bh (- bh_height bh) L)
        as (_ & F1 & F2 & _);
      destruct S as [S1 S2]; split; rewrite ?F1, ?F2; assumption. }
  destruct Hq as [Hs Hc].
  destruct (determinePixelFormat_supported _ Hs) as [D1 D2].
  destruct (determinePixelFormat _) as [ok p6]. cbn [fst snd] in *. subst ok.
  cbn [fst snd]. split; [reflexivity|]. destruct p6. cbn in *. congruence.
Qed.

Lemma parsed_player_fields a f index mh0 sh0 bh0 :
  let p := parsed_player a f index mh0 sh0 bh0 in
  file p = f /\ mainHeader p = af_avih a
  /\ bitmapHeader p
     = fst (format_of (af_streams a) (firstn 40 (bh0 ++ repeat x00 40), []))
  /\ palette p = snd (format_of (af_streams a) (firstn 40 (bh0 ++ repeat x00 40), []))
  /\ frameOffsets p = map fst index /\ frameSizes p = map snd index
  /\ cerr p = [].
Proof. cbv zeta. repeat split. Qed.

Lemma format_of_length streams : forall bh pal,
  Forall wf_stream streams -> length bh = 40%nat ->
  length (fst (format_of streams (bh, pal))) = 40%nat.
Proof.
  induction streams as [|s streams IH]; intros bh pal HF L; [exact L|].
  inversion HF as [|? ? W HF']; subst. cbn [format_of fold_left].
  pose proof (capture_format_length bh pal s W L) as L1.
  destruct (capture_format (bh, pal) s) as [bh1 pal1]. apply IH; assumption.
Qed.

Lemma wf_avi_sizes a :
  wf_avi a ->
  len (avi_bytes a)
  = len (avi_prefix a) + len (movi_body (af_movi a)) + len (af_trailer a).
Proof. intros _. unfold avi_bytes. rewrite !len_app. lia. Qed.

Lemma length_frame_index cs : forall pos,
  length (frame_index pos cs) = length (frames_in cs).
Proof.
  induction cs as [|c cs IH]; intros pos; [reflexivity|].
  cbn [frame_index frames_in filter]. rewrite length_app, IH.
  unfold frames_in. destruct (isFrameTag (mc_tag c)); reflexivity.
Qed.

(** [loadAVI] on a complete well-formed file: the file is parsed to the
    end of the movie list and the frame index holds its frame chunks. *)
Lemma loadAVI_complete a u1 u2 mh0 sh0 bh0 :
  wf_avi a ->
  let p := parsed_player a
             (mkStream (avi_bytes a)
                       (len (avi_prefix a) + len (movi_body (af_movi a))) false)
             (frame_index (len (avi_prefix a)) (af_movi a)) mh0 sh0 bh0 in
  loadAVI u1 u2 (Some (avi_bytes a)) (AVIPlayer_ctor mh0 sh0 bh0)
  = if negb (Nat.eqb (length (frames_in (af_movi a))) 0)
    then Some (loadAVI_finish p)
    else Some (false, set_cerr (cerr p ++ [Err_FailedParse]) p).
Proof.
  intros W p.
  pose proof (wf_size a W) as Hsz. rewrite (wf_avi_sizes a W) in Hsz.
  pose proof (len_nonneg (af_trailer a)) as Tnn.
  pose proof (len_nonneg (movi_body (af_movi a))) as Mnn.
  pose proof (len_avi_prefix a) as LP. pose proof (len_nonneg (hdrl_body a)).
  unfold avi_bytes in *.
  pose proof (loadAVI_prefix a (movi_body (af_movi a) ++ af_trailer a)
                u1 u2 mh0 sh0 bh0 W ltac:(lia)) as E.
  cbv zeta in E. rewrite E. clear E.
  assert (A : at_pos (avi_prefix a ++ movi_body (af_movi a) ++ af_trailer a)
                     (len (avi_prefix a)) (movi_body (af_movi a) ++ af_trailer a)).
  { exact (at_pos_app _ 0 (avi_prefix a) (movi_body (af_movi a) ++ af_trailer a)
                        (at_pos_start _)). }
  unfold parsed_player at 1, AVIPlayer_ctor. pnorm. psimpl.
  rewrite (indexFrames_complete _ _ _ _ _ _ _ _ _ _ _ _ _ _ (af_movi a) _ _ _ _ [] []
             _ (af_trailer a) (wf_movi a W) A ltac:(lia)
             ltac:(rewrite !len_app; lia)).
  psimpl. cbn [app]. rewrite length_map, length_frame_index.
  subst p. unfold parsed_player, AVIPlayer_ctor. pnorm. psimpl. reflexivity.
Qed.

Lemma movi_body_app cs1 cs2 : movi_body (cs1 ++ cs2) = movi_body cs1 ++ movi_body cs2.
Proof. unfold movi_body. apply flat_map_app. Qed.

(** [loadAVI] on a file cut inside the payload of a movie chunk: the
    chunks before the cut and the cut chunk itself are indexed, and
    loading goes on as for a complete file. *)
Lemma loadAVI_truncated a before c after m u1 u2 mh0 sh0 bh0 :
  wf_avi a ->
  af_movi a = before ++ c :: after ->
  (m < length (mc_data c))%nat ->
  exists f,
    contents f = avi_truncated a before c m
    /\ let p := parsed_player a f
                  (frame_index (len (avi_prefix a)) (before ++ [c])) mh0 sh0 bh0 in
       loadAVI u1 u2 (Some (avi_truncated a before c m)) (AVIPlayer_ctor mh0 sh0 bh0)
       = if negb (Nat.eqb (length (frames_in (before ++ [c]))) 0)
         then Some (loadAVI_finish p)
         else Some (false, set_cerr (cerr p ++ [Err_FailedParse]) p).
Proof.
  intros W Hm Hcut.
  pose proof (wf_size a W) as Hsz. rewrite (wf_avi_sizes a W) in Hsz.
  pose proof (wf_movi a W) as HF. rewrite Hm in HF.
  apply Forall_app in HF. destruct HF as [HF1 HF2].
  inversion HF2 as [|? ? Wc _]; subst.
  pose proof (len_nonneg (af_trailer a)) as Tnn.
  pose proof (len_avi_prefix a) as LP. pose proof (len_nonneg (hdrl_body a)).
  assert (LM : len (movi_body (af_movi a))
               = len (movi_body before) + len (movie_chunk_bytes c)
                 + len (movi_body after)).
  { rewrite Hm, movi_body_app. cbn [movi_body flat_map]. fold (movi_body after).
    rewrite !len_app. lia. }
  rewrite (len_movie_chunk_bytes c Wc) in LM.
  pose proof (len_nonneg (movi_body before)). pose proof (len_nonneg (movi_body after)).
  pose proof (len_nonneg (mc_data c)).
  pose proof (Z.mod_pos_bound (len (mc_data c)) 2 ltac:(lia)).
  unfold avi_truncated.
  pose proof (loadAVI_prefix a
                (movi_body before ++ mc_tag c ++ enc32 (len (mc_data c))
                 ++ firstn m (mc_data c))
                u1 u2 mh0 sh0 bh0 W ltac:(lia)) as E.
  cbv zeta in E. rewrite E. clear E.
  set (bytes := avi_prefix a ++ movi_body before ++ mc_tag c
                ++ enc32 (len (mc_data c)) ++ firstn m (mc_data c)).
  assert (A : at_pos bytes (len (avi_prefix a))
                (movi_body before ++ mc_tag c ++ enc32 (len (mc_data c))
                 ++ firstn m (mc_data c))).
  { exact (at_pos_app _ 0 (avi_prefix a) _ (at_pos_start _)). }
  unfold parsed_player at 1, AVIPlayer_ctor. pnorm. psimpl.
  destruct (indexFrames_truncated None [] 0 0 0 0 0 0 0 false SDL_PIXELFORMAT_UNKNOWN
              false [] bytes before c m (len (avi_prefix a)) (af_avih a)
              (last_strh (af_streams a) (firstn 56 (sh0 ++ repeat x00 56)))
              (fst (format_of (af_streams a) (firstn 40 (bh0 ++ repeat x00 40), [])))
              [] []
              (snd (format_of (af_streams a) (firstn 40 (bh0 ++ repeat x00 40), [])))
              (len (movi_body (af_movi a))) HF1 Wc A Hcut ltac:(lia) ltac:(lia))
    as (f & Cf & E).
  exists f. split; [exact Cf|]. cbv zeta. cbn [map].
  rewrite E. psimpl. cbn [app]. rewrite length_map, length_frame_index.
  unfold parsed_player, AVIPlayer_ctor. pnorm. psimpl. reflexivity.
Qed.


(** ** Playback *)

Lemma renderFrame_counters i p :
  currentFrame (renderFrame i p) = currentFrame p
  /\ totalFrames (renderFrame i p) = totalFrames p.
Proof.
  unfold renderFrame. destruct (_ <=? i); [split; reflexivity|].
  destruct (stream_read _ _) as [got f2]. cbv zeta. psimpl.
  destruct (texture p); psimpl; split; reflexivity.
Qed.

Lemma play_loop_bound env : forall quit p,
  currentFrame p <= totalFrames p -> totalFrames p < 4294967296 ->
  0 <= currentFrame p ->
  currentFrame (play_loop env quit p) <= totalFrames p
  /\ totalFrames (play_loop env quit p) = totalFrames p.
Proof.
  induction env as [|[quitEvent due] env IH]; intros quit p Hc Ht H0;
    [split; [exact Hc|reflexivity]|].
  cbn [play_loop].
  destruct (negb quit && (currentFrame p <? totalFrames p)) eqn:C;
    [|split; [exact Hc|reflexivity]].
  apply andb_true_iff in C. destruct C as [_ C]. apply Z.ltb_lt in C.
  destruct due; [|apply IH; assumption].
  destruct (renderFrame_counters (currentFrame p) p) as [R1 R2].
  match goal with
  | |- context [play_loop env ?q ?p'] =>
    assert (E1 : currentFrame p' = currentFrame p + 1
                 /\ totalFrames p' = totalFrames p)
  end.
  { psimpl. rewrite R1, R2. split; [|reflexivity]. apply wrap32_small. lia. }
  destruct E1 as [E1 E2].
  match goal with
  | |- context [play_loop env ?q ?p'] =>
    destruct (IH q p' ltac:(lia) ltac:(lia) ltac:(lia)) as [I1 I2]
  end.
  rewrite I2, <- E2. split; [|reflexivity]. lia.
Qed.

Lemma loadAVI_finish_counters p ok q :
  loadAVI_finish p = (ok, q) -> currentFrame q = currentFrame p.
Proof.
  unfold loadAVI_finish, determinePixelFormat. destruct p. cbn.
  repeat match goal with
         | |- context [if ?c then _ else _] => destruct c
         end; intros H; inversion H; reflexivity.
Qed.

Lemma map_snd_frame_index cs : forall pos,
  map snd (frame_index pos cs) = map (fun c => len (mc_data c)) (frames_in cs).
Proof.
  induction cs as [|c cs IH]; intros pos; [reflexivity|].
  cbn [frame_index frames_in filter]. rewrite map_app, IH.
  unfold frames_in. destruct (isFrameTag (mc_tag c)); reflexivity.
Qed.

Lemma frames_nonempty (cs : list MovieChunk) :
  cs <> [] -> negb (Nat.eqb (length cs) 0) = true.
Proof. destruct cs; [congruence|reflexivity]. Qed.

(** ** The frame count *)


Lemma sample_avi_wf : wf_avi sample_avi.
Proof.
  constructor.
  - reflexivity.
  - repeat constructor; intros; vm_compute; lia.
  - repeat constructor.
  - reflexivity.
  - vm_compute. lia.
  - reflexivity.
Qed.




(** ** A movie chunk that runs past the end of the file *)

Lemma avi_truncated_prefix a before c after m :
  af_movi a = before ++ c :: after ->
  (m <= length (mc_data c))%nat ->
  avi_truncated a before c m
  = firstn (length (avi_truncated a before c m)) (avi_bytes a).
Proof.
  intros Hm Hcut. unfold avi_truncated, avi_bytes.
  rewrite Hm, movi_body_app. cbn [movi_body flat_map]. fold (movi_body after).
  unfold movie_chunk_bytes, chunk_bytes.
  set (X := avi_prefix a ++ movi_body before ++ mc_tag c ++ enc32 (len (mc_data c))).
  replace (avi_prefix a ++ movi_body before ++ mc_tag c ++ enc32 (len (mc_data c))
           ++ firstn m (mc_data c))
    with (X ++ firstn m (mc_data c))
    by (unfold X; rewrite <- !app_assoc; reflexivity).
  replace (avi_prefix a
           ++ (movi_body before
               ++ (mc_tag c ++ enc32 (len (mc_data c)) ++ mc_data c
                   ++ pad_bytes (mc_data c)) ++ movi_body after) ++ af_trailer a)
    with (X ++ mc_data c ++ pad_bytes (mc_data c) ++ movi_body after ++ af_trailer a)
    by (unfold X; rewrite <- !app_assoc; reflexivity).
  rewrite length_app, length_firstn, Nat.min_l by exact Hcut.
  rewrite firstn_app, (firstn_all2 X) by lia.
  replace (length X + m - length X)%nat with m by lia.
  rewrite firstn_app.
  replace (m - length (mc_data c))%nat with 0%nat by lia.
  cbn [firstn]. rewrite app_nil_r. reflexivity.
Qed.




(** ** More than one video stream *)

Lemma format_of_app pre post init :
  format_of (pre ++ post) init = format_of post (format_of pre init).
Proof. unfold format_of. apply fold_left_app. Qed.

Lemma format_of_not_video post : forall fmt,
  Forall (fun t => is_video t = false) post -> format_of post fmt = fmt.
Proof.
  induction post as [|t post IH]; intros fmt HF; [reflexivity|].
  inversion HF as [|? ? Ht HF']; subst. cbn [format_of fold_left].
  unfold capture_format at 2. rewrite Ht. apply IH. exact HF'.
Qed.


Lemma two_stream_avi_wf : wf_avi two_stream_avi.
Proof.
  constructor.
  - reflexivity.
  - repeat constructor; intros; vm_compute; lia.
  - repeat constructor.
  - reflexivity.
  - vm_compute. lia.
  - reflexivity.
Qed.



(** ** The position after a chunk *)

(** C2 (amended): in the movie list, when the eight bytes of a chunk
    header can be read, the chunk is passed by a seek to its start plus 8
    plus its declared length rounded up to an even number.  The seek is
    made whether or not that position lies within the file, and neither
    sets the stream's fail bit nor writes an error. *)
Theorem C2_movie_chunk_position fuel movieEnd p :
  let f := file p in
  let chunk := decode_chunk (firstn 8 (skipn (Z.to_nat (gpos f)) (contents f))) in
  failbit f = false ->
  0 <= gpos f -> gpos f + 8 <= len (contents f) ->
  gpos f < movieEnd ->
  size chunk < 4294967295 ->
  exists p',
    indexFrames_loop (S fuel) movieEnd p = indexFrames_loop fuel movieEnd p'
    /\ failbit (file p') = false
    /\ gpos (file p') = gpos f + 8 + size chunk + size chunk mod 2
    /\ (size chunk + size chunk mod 2) mod 2 = 0
    /\ contents (file p') = contents f
    /\ cerr p' = cerr p.
Proof.
  cbv zeta. intros Ff Hpos Hlen Hend Hn.
  set (raw := firstn 8 (skipn (Z.to_nat (gpos (file p))) (contents (file p)))) in *.
  assert (R : stream_read sizeof_ChunkHeader (file p)
              = (raw, mkStream (contents (file p)) (gpos (file p) + 8) false)).
  { unfold stream_read. rewrite Ff. fold raw.
    assert (L : Z.of_nat (length raw) = 8).
    { unfold raw. rewrite length_firstn, length_skipn. unfold len in Hlen. lia. }
    change (Z.to_nat sizeof_ChunkHeader) with 8%nat. fold raw.
    unfold sizeof_ChunkHeader. rewrite L. reflexivity. }
  exists (indexFrames_chunk (decode_chunk raw)
            (set_file (mkStream (contents (file p)) (gpos (file p) + 8) false) p)).
  pose proof (size_decode_nonneg raw) as Sn.
  pose proof (Z.mod_pos_bound (size (decode_chunk raw)) 2 ltac:(lia)) as Mb.
  split.
  - rewrite indexFrames_loop_step. unfold tellg. rewrite Ff.
    replace (gpos (file p) <? movieEnd) with true by (symmetry; apply Z.ltb_lt; lia).
    rewrite R. reflexivity.
  - unfold indexFrames_chunk. cbv zeta.
    assert (Hs : (if size (decode_chunk raw) mod 2 =? 1
                  then wrap32 (size (decode_chunk raw) + 1)
                  else size (decode_chunk raw))
                 = size (decode_chunk raw) + size (decode_chunk raw) mod 2).
    { destruct (_ mod 2 =? 1) eqn:E.
      - apply Z.eqb_eq in E. rewrite wrap32_small by lia. lia.
      - apply Z.eqb_neq in E. lia. }
    rewrite Hs.
    assert (Ev : (size (decode_chunk raw) + size (decode_chunk raw) mod 2) mod 2 = 0).
    { pose proof (Z.div_mod (size (decode_chunk raw)) 2 ltac:(lia)) as DM.
      assert (C : size (decode_chunk raw) mod 2 = 0
                  \/ size (decode_chunk raw) mod 2 = 1) by lia.
      destruct C as [C|C]; rewrite C.
      - rewrite Z.add_0_r. exact C.
      - replace (size (decode_chunk raw) + 1)
          with ((size (decode_chunk raw) / 2 + 1) * 2) by lia.
        apply Z.mod_mul. lia. }
    destruct (isFrameTag _); psimpl; cbn [seekg_cur failbit gpos contents];
      repeat split; try reflexivity; try exact Ev; lia.
Qed.

Lemma C2_movie_chunk_position_witness :
  exists p',
    indexFrames_loop 2 1000 short_movie_player = indexFrames_loop 1 1000 p'
    /\ failbit (file p') = false
    /\ gpos (file p') = 108
    /\ len (contents (file p')) = 12.
Proof.
  destruct (C2_movie_chunk_position 1 1000 short_movie_player)
    as (p' & E & F & G & _ & C & _); try (vm_compute; congruence).
  exists p'. split; [exact E|]. split; [exact F|]. split.
  - rewrite G. vm_compute. reflexivity.
  - rewrite C. vm_compute. reflexivity.
Defined.

(** C2 as stated fails twice.  At the top level a JUNK chunk of three
    bytes, whose header starts at position 0, is passed by a seek to
    position 11, not 12: outside the movie list odd lengths are not
    rounded up.  And a movie chunk that declares 100 bytes in a file of
    12 is passed by a seek to position 108 without any error: the fail bit
    stays clear and nothing is written to the error output. *)
Lemma C2_counterexample :
  (exists r,
     parseAVIChunks_chunk [] (decode_chunk (firstn 8 junk_file)) false junk_player
     = Some r
     /\ size (decode_chunk (firstn 8 junk_file)) = 3
     /\ gpos (file (snd r)) = 11
     /\ gpos (file (snd r)) <> 0 + 8 + 4)
  /\ (let p' := indexFrames_chunk (decode_chunk (firstn 8 short_movie_file))
                  (set_file (mkStream short_movie_file 8 false) short_movie_player) in
      size (decode_chunk (firstn 8 short_movie_file)) = 100
      /\ len short_movie_file = 12
      /\ gpos (file p') = 108
      /\ failbit (file p') = false
      /\ cerr p' = []).
Proof.
  split.
  - eexists. split; [vm_compute; reflexivity|].
    repeat split; vm_compute; congruence.
  - cbv zeta. repeat split; vm_compute; congruence.
Qed.


(** ** Frame conversion, pixel by pixel *)

(** What a loop over blocks leaves alone: a byte that lies in the used
    part of no block. *)
Section BlockLoopOutside.

Variables (step : list byte -> Z -> list byte) (base stride used n : Z).
Hypothesis step_outside : forall px i o,
  0 <= i < n -> 0 <= o ->
  (o < base + i * stride \/ base + i * stride + used <= o) ->
  src_byte (step px i) o = src_byte px o.

Lemma block_loop_untouched m px o :
  0 <= m <= n -> 0 <= o ->
  (forall i, 0 <= i < m -> o < base + i * stride \/ base + i * stride + used <= o) ->
  src_byte (fold_left step (zrange m) px) o = src_byte px o.
Proof.
  intros [Hm0 Hmn] Ho. revert Hmn. pattern m. apply natlike_ind; [| |exact Hm0].
  - intros _ _. reflexivity.
  - intros j Hj IH Hjn Hout. unfold Z.succ.
    rewrite zrange_succ by lia. rewrite fold_left_app. cbn [fold_left].
    rewrite step_outside; [|lia|exact Ho|apply Hout; lia].
    apply IH; [lia|]. intros i Hi. apply Hout. lia.
Qed.

End BlockLoopOutside.

(** The two nested loops of a conversion routine: [pixel y] is the body
    of the inner loop in row [y], which writes the [k] bytes of pixel
    [x]. *)
Section FrameLoop.

Variables (w h pitch k : Z).
Variable pixel : Z -> list byte -> Z -> list byte.
Variable val : Z -> Z -> Z -> byte.
Hypothesis Hk : 0 < k.
Hypothesis Hw0 : 0 <= w.
Hypothesis Hw : w * k <= pitch.
Hypothesis pixel_length : forall y px x, length (pixel y px x) = length px.
Hypothesis pixel_inside : forall y px x c,
  0 <= y < h -> 0 <= x < w -> 0 <= c < k -> y * pitch + w * k <= len px ->
  src_byte (pixel y px x) (y * pitch + x * k + c) = val y x c.
Hypothesis pixel_outside : forall y px x o,
  0 <= y < h -> 0 <= x < w -> 0 <= o ->
  (o < y * pitch + x * k \/ y * pitch + x * k + k <= o) ->
  src_byte (pixel y px x) o = src_byte px o.

Lemma frame_row_length y px :
  length (fold_left (pixel y) (zrange w) px) = length px.
Proof. apply block_loop_length. apply pixel_length. Qed.

Lemma frame_row_outside y px o :
  0 <= y < h -> 0 <= o -> (o < y * pitch \/ y * pitch + w * k <= o) ->
  src_byte (fold_left (pixel y) (zrange w) px) o = src_byte px o.
Proof.
  intros Hy Ho Hout.
  apply (block_loop_untouched (pixel y) (y * pitch) k k w); try lia.
  - intros px' i o' Hi Ho' H. apply pixel_outside; assumption.
  - intros i Hi. nia.
Qed.

Lemma frame_row_inside y px x c :
  0 <= y < h -> 0 <= x < w -> 0 <= c < k -> y * pitch + w * k <= len px ->
  src_byte (fold_left (pixel y) (zrange w) px) (y * pitch + x * k + c) = val y x c.
Proof.
  intros Hy Hx Hc Hlen.
  assert (Hb : 0 <= y * pitch) by nia.
  destruct (block_loop_spec (pixel y) (y * pitch) k k (val y) w ltac:(lia) Hb
              (pixel_length y)
              (fun px' i c' Hi Hc' Hl => pixel_inside y px' i c' Hy Hi Hc' Hl)
              (fun px' i o Hi Ho _ Hout => pixel_outside y px' i o Hy Hi Ho Hout)
              w px ltac:(lia) Hlen) as [S _].
  apply S; assumption.
Qed.

Lemma frame_loop_spec pixels :
  let out := fold_left (fun px y => fold_left (pixel y) (zrange w) px)
                       (zrange h) pixels in
  length out = length pixels
  /\ (h * pitch <= len pixels ->
      forall y x c, 0 <= y < h -> 0 <= x < w -> 0 <= c < k ->
        src_byte out (y * pitch + x * k + c) = val y x c)
  /\ (forall o, 0 <= o ->
        (forall y, 0 <= y < h -> o < y * pitch \/ y * pitch + w * k <= o) ->
        src_byte out o = src_byte pixels o).
Proof.
  cbv zeta.
  set (step := fun (px : list byte) (y : Z) => fold_left (pixel y) (zrange w) px).
  assert (SL : forall px y, length (step px y) = length px).
  { intros. apply frame_row_length. }
  split; [apply block_loop_length; exact SL|]. split.
  - intros Hlen y x c Hy Hx Hc.
    assert (Hp : 0 < pitch) by nia.
    destruct (block_loop_spec step 0 pitch (w * k)
                (fun y j => val y (j / k) (j mod k)) h ltac:(nia) ltac:(lia) SL)
      with (m := h) (px := pixels) as [S _]; try lia.
    + intros px i j Hi Hj Hl. unfold step.
      pose proof (Z.div_mod j k ltac:(lia)) as DM.
      pose proof (Z.mod_pos_bound j k Hk) as MB.
      assert (0 <= j / k < w).
      { split; [apply Z.div_pos; lia|]. apply Z.div_lt_upper_bound; lia. }
      replace (0 + i * pitch + j) with (i * pitch + (j / k) * k + j mod k) by lia.
      apply frame_row_inside; try assumption. nia.
    + intros px i o Hi Ho _ Hout. unfold step.
      apply frame_row_outside; try assumption; lia.
    + specialize (S y (x * k + c) Hy ltac:(nia)). cbv beta in S.
      replace ((x * k + c) / k) with x in S by (apply Z.div_unique with c; lia).
      replace ((x * k + c) mod k) with c in S by (apply Z.mod_unique with x; lia).
      rewrite <- S. f_equal. lia.
  - intros o Ho Hout.
    destruct (Z_lt_le_dec h 0) as [Hneg|Hpos].
    { unfold zrange. replace (Z.to_nat h) with 0%nat by lia. reflexivity. }
    apply (block_loop_untouched step 0 pitch (w * k) h); try lia.
    + intros px i o' Hi Ho' H. unfold step. apply frame_row_outside; try assumption; lia.
    + intros i Hi. specialize (Hout i Hi). lia.
Qed.

End FrameLoop.

Ltac poke_cases :=
  repeat first
    [ rewrite peek_poke_same by (unfold len in *; rewrite ?length_poke; lia)
    | rewrite peek_poke_other by lia ];
  try reflexivity.

(** Where the rows of a frame start, in the texture and in the frame
    data, when the offsets fit 32 bits. *)
Lemma row_offsets p pitch k y :
  0 < k -> 0 < frameWidth p -> frameWidth p * k <= pitch ->
  frameHeight p * pitch <= 4294967296 -> 0 <= y < frameHeight p ->
  wrap32 (y * pitch) = y * pitch
  /\ wrap32 (srcRow p y * frameWidth p * k) = srcRow p y * frameWidth p * k
  /\ 0 <= srcRow p y < frameHeight p
  /\ frameWidth p * k <= 4294967296.
Proof.
  intros Hk Hw Hp Hmax Hy.
  assert (Hh : frameHeight p <= 4294967296) by nia.
  pose proof (srcRow_range p y Hy Hh) as R.
  split; [apply wrap32_small; nia|]. split; [|split; [exact R|nia]].
  apply wrap32_small.
  assert (srcRow p y * frameWidth p * k = srcRow p y * (frameWidth p * k)) by ring.
  nia.
Qed.

Section ConvertSpec.

Variables (p : AVIPlayer) (frameData pixels : list byte) (pitch : Z).
Hypothesis Hw0 : 0 <= frameWidth p.
Hypothesis Hmax : frameHeight p * pitch <= 4294967296.

(** [convert24BitBGRToRGB]: byte [c] of a pixel comes from byte [2 - c]
    of the source pixel. *)
Lemma convert24_frame_spec :
  frameWidth p * 3 <= pitch ->
  let out := convert24BitBGRToRGB p frameData pixels pitch in
  length out = length pixels
  /\ (frameHeight p * pitch <= len pixels ->
      forall y x c, 0 <= y < frameHeight p -> 0 <= x < frameWidth p -> 0 <= c < 3 ->
        src_byte out (y * pitch + x * 3 + c)
        = src_byte frameData (srcRow p y * frameWidth p * 3 + x * 3 + (2 - c)))
  /\ (forall o, 0 <= o ->
        (forall y, 0 <= y < frameHeight p ->
           o < y * pitch \/ y * pitch + frameWidth p * 3 <= o) ->
        src_byte out o = src_byte pixels o).
Proof.
  intros Hw. unfold convert24BitBGRToRGB.
  apply (frame_loop_spec (frameWidth p) (frameHeight p) pitch 3
    (fun y px x =>
       poke (wrap32 (y * pitch) + wrap32 (x * 3 + 2))
            (src_byte frameData (wrap32 (srcRow p y * frameWidth p * 3) + wrap32 (x * 3 + 0)))
         (poke (wrap32 (y * pitch) + wrap32 (x * 3 + 1))
            (src_byte frameData (wrap32 (srcRow p y * frameWidth p * 3) + wrap32 (x * 3 + 1)))
            (poke (wrap32 (y * pitch) + wrap32 (x * 3 + 0))
               (src_byte frameData (wrap32 (srcRow p y * frameWidth p * 3) + wrap32 (x * 3 + 2)))
               px)))
    (fun y x c =>
       src_byte frameData (srcRow p y * frameWidth p * 3 + x * 3 + (2 - c))));
    try lia.
  - intros. rewrite !length_poke. reflexivity.
  - intros y px x c Hy Hx Hc Hlen.
    destruct (row_offsets p pitch 3 y ltac:(lia) ltac:(lia) Hw Hmax Hy)
      as (E1 & E2 & R & W).
    assert (Hd : 0 <= y * pitch) by nia.
    rewrite E1, E2. rewrite !(wrap32_small (x * 3 + _)) by lia.
    assert (C : c = 0 \/ c = 1 \/ c = 2) by lia.
    destruct C as [-> | [-> | ->]]; rewrite <- !Z.add_assoc; poke_cases;
      f_equal; lia.
  - intros y px x o Hy Hx Ho Hout.
    destruct (row_offsets p pitch 3 y ltac:(lia) ltac:(lia) Hw Hmax Hy)
      as (E1 & E2 & R & W).
    assert (Hd : 0 <= y * pitch) by nia.
    rewrite E1. rewrite !(wrap32_small (x * 3 + _)) by lia.
    poke_cases.
Qed.

(** [convert32BitBGRAToRGBA]: the first three bytes of a pixel are
    reversed and the fourth stays. *)
Lemma convert32_frame_spec :
  frameWidth p * 4 <= pitch ->
  let out := convert32BitBGRAToRGBA p frameData pixels pitch in
  length out = length pixels
  /\ (frameHeight p * pitch <= len pixels ->
      forall y x c, 0 <= y < frameHeight p -> 0 <= x < frameWidth p -> 0 <= c < 4 ->
        src_byte out (y * pitch + x * 4 + c)
        = src_byte frameData (srcRow p y * frameWidth p * 4 + x * 4
                              + (if c =? 3 then 3 else 2 - c)))
  /\ (forall o, 0 <= o ->
        (forall y, 0 <= y < frameHeight p ->
           o < y * pitch \/ y * pitch + frameWidth p * 4 <= o) ->
        src_byte out o = src_byte pixels o).
Proof.
  intros Hw. unfold convert32BitBGRAToRGBA.
  apply (frame_loop_spec (frameWidth p) (frameHeight p) pitch 4
    (fun y px x =>
       poke (wrap32 (y * pitch) + wrap32 (x * 4 + 3))
            (src_byte frameData (wrap32 (srcRow p y * frameWidth p * 4) + wrap32 (x * 4 + 3)))
         (poke (wrap32 (y * pitch) + wrap32 (x * 4 + 2))
            (src_byte frameData (wrap32 (srcRow p y * frameWidth p * 4) + wrap32 (x * 4 + 0)))
            (poke (wrap32 (y * pitch) + wrap32 (x * 4 + 1))
               (src_byte frameData (wrap32 (srcRow p y * frameWidth p * 4) + wrap32 (x * 4 + 1)))
               (poke (wrap32 (y * pitch) + wrap32 (x * 4 + 0))
                  (src_byte frameData (wrap32 (srcRow p y * frameWidth p * 4) + wrap32 (x * 4 + 2)))
                  px))))
    (fun y x c =>
       src_byte frameData (srcRow p y * frameWidth p * 4 + x * 4
                           + (if c =? 3 then 3 else 2 - c))));
    try lia.
  - intros. rewrite !length_poke. reflexivity.
  - intros y px x c Hy Hx Hc Hlen.
    destruct (row_offsets p pitch 4 y ltac:(lia) ltac:(lia) Hw Hmax Hy)
      as (E1 & E2 & R & W).
    assert (Hd : 0 <= y * pitch) by nia.
    rewrite E1, E2. rewrite !(wrap32_small (x * 4 + _)) by lia.
    assert (C : c = 0 \/ c = 1 \/ c = 2 \/ c = 3) by lia.
    destruct C as [-> | [-> | [-> | ->]]]; cbn [Z.eqb Pos.eqb];
      rewrite <- !Z.add_assoc; poke_cases; f_equal; lia.
  - intros y px x o Hy Hx Ho Hout.
    destruct (row_offsets p pitch 4 y ltac:(lia) ltac:(lia) Hw Hmax Hy)
      as (E1 & E2 & R & W).
    assert (Hd : 0 <= y * pitch) by nia.
    rewrite E1. rewrite !(wrap32_small (x * 4 + _)) by lia.
    poke_cases.
Qed.

(** [convert16BitToRGB565]: the two bytes of a pixel are copied. *)
Lemma convert16_frame_spec :
  frameWidth p * 2 <= pitch ->
  let out := convert16BitToRGB565 p frameData pixels pitch in
  length out = length pixels
  /\ (frameHeight p * pitch <= len pixels ->
      forall y x c, 0 <= y < frameHeight p -> 0 <= x < frameWidth p -> 0 <= c < 2 ->
        src_byte out (y * pitch + x * 2 + c)
        = src_byte frameData (srcRow p y * frameWidth p * 2 + x * 2 + c))
  /\ (forall o, 0 <= o ->
        (forall y, 0 <= y < frameHeight p ->
           o < y * pitch \/ y * pitch + frameWidth p * 2 <= o) ->
        src_byte out o = src_byte pixels o).
Proof.
  intros Hw. unfold convert16BitToRGB565.
  apply (frame_loop_spec (frameWidth p) (frameHeight p) pitch 2
    (fun y px x =>
       poke (wrap32 (y * pitch) + 2 * x + 1)
            (src_byte frameData (wrap32 (srcRow p y * frameWidth p * 2) + 2 * x + 1))
         (poke (wrap32 (y * pitch) + 2 * x)
            (src_byte frameData (wrap32 (srcRow p y * frameWidth p * 2) + 2 * x))
            px))
    (fun y x c =>
       src_byte frameData (srcRow p y * frameWidth p * 2 + x * 2 + c)));
    try lia.
  - intros. rewrite !length_poke. reflexivity.
  - intros y px x c Hy Hx Hc Hlen.
    destruct (row_offsets p pitch 2 y ltac:(lia) ltac:(lia) Hw Hmax Hy)
      as (E1 & E2 & R & W).
    assert (Hd : 0 <= y * pitch) by nia.
    rewrite E1, E2.
    assert (C : c = 0 \/ c = 1) by lia.
    destruct C as [-> | ->].
    + replace (y * pitch + x * 2 + 0) with (y * pitch + 2 * x) by lia.
      poke_cases. f_equal. lia.
    + replace (y * pitch + x * 2 + 1) with (y * pitch + 2 * x + 1) by lia.
      poke_cases. f_equal. lia.
  - intros y px x o Hy Hx Ho Hout.
    destruct (row_offsets p pitch 2 y ltac:(lia) ltac:(lia) Hw Hmax Hy)
      as (E1 & E2 & R & W).
    assert (Hd : 0 <= y * pitch) by nia.
    rewrite E1. poke_cases.
Qed.

End ConvertSpec.

Ltac bytes_eq := repeat (apply f_equal2; [apply f_equal; lia|]); reflexivity.







(** ** What a conversion leaves alone *)

Lemma convert8_pixel_untouched p frameData dst src px x o :
  0 <= dst -> frameWidth p * 3 <= 4294967296 ->
  0 <= x < frameWidth p -> 0 <= o ->
  (o < dst + x * 3 \/ dst + x * 3 + 3 <= o) ->
  src_byte (convert8_pixel p frameData dst src px x) o = src_byte px o.
Proof.
  intros Hdst Hw Hx Ho Hout. unfold convert8_pixel. cbv zeta.
  rewrite !(wrap32_small (x * 3 + _)) by lia.
  destruct (_ <? _); rewrite !peek_poke_other by lia; reflexivity.
Qed.

Lemma convert8_frame_untouched p frameData pixels pitch :
  0 <= frameWidth p -> frameHeight p * pitch <= 4294967296 ->
  frameWidth p * 3 <= pitch ->
  let out := convert8BitToRGB24 p frameData pixels pitch in
  length out = length pixels
  /\ (forall o, 0 <= o ->
        (forall y, 0 <= y < frameHeight p ->
           o < y * pitch \/ y * pitch + frameWidth p * 3 <= o) ->
        src_byte out o = src_byte pixels o).
Proof.
  intros Hw0 Hmax Hw. unfold convert8BitToRGB24.
  destruct (frame_loop_spec (frameWidth p) (frameHeight p) pitch 3
    (fun y px x =>
       convert8_pixel p frameData (wrap32 (y * pitch))
         (wrap32 (srcRow p y * frameWidth p)) px x)
    (fun y x c =>
       nth (Z.to_nat c)
         (indexed8_pixel (palette p)
            (byte_val (src_byte frameData
                         (wrap32 (srcRow p y * frameWidth p) + x)))) x00)
    ltac:(lia) Hw0 Hw) with (pixels := pixels) as (L & _ & O).
  - intros. apply convert8_pixel_length.
  - intros y px x c Hy Hx Hc Hlen.
    destruct (row_offsets p pitch 3 y ltac:(lia) ltac:(lia) Hw Hmax Hy)
      as (E1 & _ & _ & W).
    rewrite E1. apply convert8_pixel_inside; try assumption. nia.
  - intros y px x o Hy Hx Ho Hout.
    destruct (row_offsets p pitch 3 y ltac:(lia) ltac:(lia) Hw Hmax Hy)
      as (E1 & _ & _ & W).
    rewrite E1. apply convert8_pixel_untouched; try assumption. nia.
  - split; [exact L|exact O].
Qed.

(** X22: A conversion writes the pixels of the frame and nothing else: the
    texture keeps its size, and every byte outside the first width x
    bytes-per-pixel bytes of the rows (the padding of each row up to the
    pitch and whatever follows the last row) keeps its value. *)
Theorem conversion_confined p frameData pixels pitch :
  0 <= frameWidth p ->
  frameWidth p * texel_bytes (bitsPerPixel p) <= pitch ->
  frameHeight p * pitch <= 4294967296 ->
  let out := convertAndCopyFrame p frameData pixels pitch in
  length out = length pixels
  /\ forall o, 0 <= o ->
       (forall y, 0 <= y < frameHeight p ->
          o < y * pitch
          \/ y * pitch + frameWidth p * texel_bytes (bitsPerPixel p) <= o) ->
       src_byte out o = src_byte pixels o.
Proof.
  intros Hw0 Hw Hmax. cbv zeta. unfold convertAndCopyFrame, texel_bytes in *.
  destruct (bitsPerPixel p =? 8) eqn:B8.
  { apply Z.eqb_eq in B8. rewrite B8 in *. cbn [Z.eqb Pos.eqb] in *.
    apply convert8_frame_untouched; assumption. }
  destruct (bitsPerPixel p =? 16) eqn:B16.
  { destruct (convert16_frame_spec p frameData pixels pitch Hw0 Hmax Hw)
      as (L & _ & O). split; assumption. }
  destruct (bitsPerPixel p =? 24) eqn:B24.
  { apply Z.eqb_eq in B24. rewrite B24 in *. cbn [Z.eqb Pos.eqb] in *.
    destruct (convert24_frame_spec p frameData pixels pitch Hw0 Hmax Hw)
      as (L & _ & O). split; assumption. }
  destruct (bitsPerPixel p =? 32) eqn:B32.
  { destruct (convert32_frame_spec p frameData pixels pitch Hw0 Hmax Hw)
      as (L & _ & O). split; assumption. }
  split; reflexivity.
Qed.

Lemma conversion_confined_witness :
  let out := convertAndCopyFrame (decoder_state 1 2 24 false [])
               [x01; x02; x03; x04; x05; x06] (repeat xff 10) 4 in
  length out = 10%nat /\ src_byte out 3 = xff /\ src_byte out 7 = xff
  /\ src_byte out 9 = xff.
Proof.
  cbv zeta.
  destruct (conversion_confined (decoder_state 1 2 24 false [])
              [x01; x02; x03; x04; x05; x06] (repeat xff 10) 4
              ltac:(vm_compute; discriminate) ltac:(vm_compute; discriminate)
              ltac:(vm_compute; discriminate)) as [L O].
  split; [exact L|].
  assert (R : forall o y, (o = 3 \/ o = 7 \/ o = 9) -> 0 <= y < 2 ->
                o < y * 4 \/ y * 4 + 1 * 3 <= o) by (intros; lia).
  split; [|split].
  - apply (O 3); [lia|]. intros y Hy. apply (R 3 y); [lia|exact Hy].
  - apply (O 7); [lia|]. intros y Hy. apply (R 7 y); [lia|exact Hy].
  - apply (O 9); [lia|]. intros y Hy. apply (R 9 y); [lia|exact Hy].
Defined.

(** ** Converting twice *)

Lemma src_byte_ext (l1 l2 : list byte) :
  length l1 = length l2 ->
  (forall o, 0 <= o < len l1 -> src_byte l1 o = src_byte l2 o) ->
  l1 = l2.
Proof.
  intros L H. apply (nth_ext l1 l2 x00 x00 L). intros n Hn.
  specialize (H (Z.of_nat n) ltac:(unfold len; lia)).
  unfold src_byte in H. rewrite Nat2Z.id in H. exact H.
Qed.

Lemma srcRow_involutive p y :
  0 <= y < frameHeight p -> frameHeight p <= 4294967296 ->
  srcRow p (srcRow p y) = y.
Proof.
  intros Hy Hh. unfold srcRow. destruct (isTopDown p); [reflexivity|].
  rewrite (wrap32_small (frameHeight p - 1 - y)) by lia.
  rewrite wrap32_small by lia. lia.
Qed.

(** A conversion that moves the bytes of every pixel by a self-inverse
    permutation, applied to its own result on a texture without row
    padding, gives the frame data back. *)
Section Involution.

Variables (p : AVIPlayer) (k : Z) (perm : Z -> Z).
Variable conv : list byte -> list byte -> Z -> list byte.
Hypothesis Hk : 0 < k.
Hypothesis perm_inv : forall c, 0 <= c < k -> 0 <= perm c < k /\ perm (perm c) = c.
Hypothesis conv_spec : forall d pixels pitch,
  0 <= frameWidth p -> frameHeight p * pitch <= 4294967296 ->
  frameWidth p * k <= pitch ->
  length (conv d pixels pitch) = length pixels
  /\ (frameHeight p * pitch <= len pixels ->
      forall y x c, 0 <= y < frameHeight p -> 0 <= x < frameWidth p -> 0 <= c < k ->
        src_byte (conv d pixels pitch) (y * pitch + x * k + c)
        = src_byte d (srcRow p y * frameWidth p * k + x * k + perm c)).

Lemma conv_conv d px1 px2 :
  0 <= frameWidth p ->
  len d = frameHeight p * frameWidth p * k ->
  len px1 = len d -> len px2 = len d ->
  frameHeight p * frameWidth p * k <= 4294967296 ->
  conv (conv d px1 (frameWidth p * k)) px2 (frameWidth p * k) = d.
Proof.
  intros Hw0 Ld L1 L2 Hmax.
  remember (frameWidth p) as w eqn:Ew. remember (frameHeight p) as h eqn:Eh.
  remember (w * k) as P eqn:EP.
  assert (HP : h * P = h * w * k) by (subst P; ring).
  destruct (conv_spec d px1 P) as [E1 S1]; [lia|lia|lia|].
  destruct (conv_spec (conv d px1 P) px2 P) as [E2 S2]; [lia|lia|lia|].
  specialize (S1 ltac:(lia)). specialize (S2 ltac:(unfold len in *; lia)).
  apply src_byte_ext; [unfold len in *; lia|].
  intros o Ho.
  assert (Ho' : 0 <= o < h * P) by (unfold len in *; lia).
  assert (HP0 : 0 <= P) by (rewrite EP; apply Z.mul_nonneg_nonneg; lia).
  assert (HPpos : 0 < P).
  { destruct (Z.eq_dec P 0) as [Z0|]; [rewrite Z0 in Ho'; lia|lia]. }
  assert (Hh : 0 < h) by nia.
  pose proof (Z.div_mod o P ltac:(lia)) as DM.
  pose proof (Z.mod_pos_bound o P HPpos) as MB.
  pose proof (Z.div_mod (o mod P) k ltac:(lia)) as DM2.
  pose proof (Z.mod_pos_bound (o mod P) k Hk) as MB2.
  remember (o / P) as y eqn:Ey. remember (o mod P) as r eqn:Er.
  remember (r / k) as x eqn:Ex. remember (r mod k) as c eqn:Ec.
  assert (Hy : 0 <= y < h).
  { subst y. split; [apply Z.div_pos; lia|]. apply Z.div_lt_upper_bound; lia. }
  assert (Hx : 0 <= x < w).
  { subst x. split; [apply Z.div_pos; lia|].
    apply Z.div_lt_upper_bound; lia. }
  assert (Hle : h <= 4294967296) by nia.
  assert (R : 0 <= srcRow p y < h).
  { rewrite Eh. apply srcRow_range; lia. }
  destruct (perm_inv c MB2) as [Pc Pi].
  replace o with (y * P + x * k + c) by lia.
  rewrite (S2 y x c Hy Hx MB2).
  replace (srcRow p y * w * k + x * k + perm c)
    with (srcRow p y * P + x * k + perm c) by (subst P; ring).
  rewrite (S1 (srcRow p y) x (perm c) R Hx Pc).
  rewrite srcRow_involutive by lia. rewrite Pi.
  f_equal. subst P. ring.
Qed.

End Involution.

(** X23: For 16, 24 and 32 bits per pixel the conversion is its own inverse:
    on a texture whose pitch is the row length, converting the converted
    frame gives the frame data back, byte for byte, in either
    orientation. *)
Theorem conversion_involutive p d px1 px2 :
  bitsPerPixel p = 16 \/ bitsPerPixel p = 24 \/ bitsPerPixel p = 32 ->
  0 <= frameWidth p ->
  len d = frameHeight p * frameWidth p * (bitsPerPixel p / 8) ->
  len px1 = len d -> len px2 = len d ->
  len d <= 4294967296 ->
  let pitch := frameWidth p * (bitsPerPixel p / 8) in
  convertAndCopyFrame p (convertAndCopyFrame p d px1 pitch) px2 pitch = d.
Proof.
  intros B Hw0 Ld L1 L2 Hmax. cbv zeta. unfold convertAndCopyFrame.
  destruct B as [B | [B | B]]; rewrite B in *; cbn [Z.eqb Pos.eqb];
    change (16 / 8) with 2 in *; change (24 / 8) with 3 in *;
    change (32 / 8) with 4 in *.
  - apply (conv_conv p 2 (fun c => c) (convert16BitToRGB565 p)); try lia.
    intros dd pixels pitch H1 H2 H3.
    destruct (convert16_frame_spec p dd pixels pitch H1 H2 H3) as (L & S & _).
    split; assumption.
  - apply (conv_conv p 3 (fun c => 2 - c) (convert24BitBGRToRGB p)); try lia.
    intros dd pixels pitch H1 H2 H3.
    destruct (convert24_frame_spec p dd pixels pitch H1 H2 H3) as (L & S & _).
    split; assumption.
  - apply (conv_conv p 4 (fun c => if c =? 3 then 3 else 2 - c)
             (convert32BitBGRAToRGBA p)); try lia.
    + intros c Hc. assert (C : c = 0 \/ c = 1 \/ c = 2 \/ c = 3) by lia.
      destruct C as [-> | [-> | [-> | ->]]]; cbn; lia.
    + intros dd pixels pitch H1 H2 H3.
      destruct (convert32_frame_spec p dd pixels pitch H1 H2 H3) as (L & S & _).
      split; assumption.
Qed.

Lemma conversion_involutive_witness :
  convertAndCopyFrame (decoder_state 1 2 24 false [])
    (convertAndCopyFrame (decoder_state 1 2 24 false [])
       [x01; x02; x03; x04; x05; x06] (repeat x00 6) 3)
    (repeat xff 6) 3
  = [x01; x02; x03; x04; x05; x06].
Proof.
  apply (conversion_involutive (decoder_state 1 2 24 false [])
           [x01; x02; x03; x04; x05; x06] (repeat x00 6) (repeat xff 6)).
  - right. left. reflexivity.
  - vm_compute. discriminate.
  - reflexivity.
  - reflexivity.
  - reflexivity.
  - vm_compute. discriminate.
Defined.


(** ** Parsing an arbitrary file: what stays as it is *)

Lemma parse_keeps_refl p : parse_keeps p p.
Proof. unfold parse_keeps. repeat split; reflexivity. Qed.

Lemma parse_keeps_trans p q r : parse_keeps p q -> parse_keeps q r -> parse_keeps p r.
Proof.
  unfold parse_keeps. intros H1 H2.
  decompose [and] H1. decompose [and] H2. repeat split; congruence.
Qed.

Lemma headers_only_refl p : headers_only p p.
Proof. split; [apply parse_keeps_refl|split; reflexivity]. Qed.

Lemma headers_only_trans p q r : headers_only p q -> headers_only q r -> headers_only p r.
Proof.
  intros (K1 & O1 & Z1) (K2 & O2 & Z2).
  split; [eapply parse_keeps_trans; eassumption|split; congruence].
Qed.

Ltac keeps_done :=
  unfold headers_only, parse_keeps; psimpl; rewrite ?length_overlay;
  repeat split; reflexivity.

Lemma headers_only_set_file f p : headers_only p (set_file f p).
Proof. keeps_done. Qed.

Lemma parseStreamList_chunk_keeps chunk p :
  headers_only p (parseStreamList_chunk chunk p).
Proof.
  unfold parseStreamList_chunk.
  destruct (strncmp4_eq (fourCC chunk) FCC_strh).
  { destruct (stream_read _ _) as [got f1]. keeps_done. }
  destruct (strncmp4_eq (fourCC chunk) FCC_strf); [|keeps_done].
  destruct (strncmp4_eq _ FCC_vids); [|keeps_done].
  destruct (stream_read sizeof_BitmapInfoHeader _) as [got f1].
  cbv zeta. psimpl.
  destruct (_ && _).
  - destruct (stream_read _ f1) as [got2 f2]. keeps_done.
  - destruct (0 <? _); keeps_done.
Qed.

Lemma parseStreamList_loop_keeps fuel : forall sz bytesRead p q,
  parseStreamList_loop fuel sz bytesRead p = Some q -> headers_only p q.
Proof.
  induction fuel as [|fuel IH]; intros sz br p q E; [discriminate|].
  cbn [parseStreamList_loop] in E.
  destruct (br <? sz); [|inversion E; apply headers_only_refl].
  destruct (stream_read _ _) as [raw f1].
  destruct (failbit f1); [inversion E; apply headers_only_set_file|].
  apply IH in E.
  eapply headers_only_trans; [apply (headers_only_set_file f1)|].
  eapply headers_only_trans; [apply parseStreamList_chunk_keeps|exact E].
Qed.

Section ParsingKeeps.

Variables uninit_listType uninit_riffHeader : list byte.

Lemma parseHeaderList_chunk_keeps chunk bytesRead p r :
  parseHeaderList_chunk uninit_listType chunk bytesRead p = Some r ->
  headers_only p (snd r).
Proof.
  unfold parseHeaderList_chunk.
  destruct (strncmp4_eq _ FCC_avih).
  { destruct (stream_read _ _) as [got f1]. intros H. inversion H. cbn [snd].
    keeps_done. }
  destruct (strncmp4_eq _ FCC_LIST).
  2:{ intros H. inversion H. cbn [snd]. keeps_done. }
  destruct (stream_read _ _) as [got f1]. cbv zeta.
  destruct (strncmp4_eq _ FCC_strl).
  - destruct (parseStreamList _ _) as [p2|] eqn:E; [|discriminate].
    intros H. inversion H. cbn [snd].
    apply parseStreamList_loop_keeps in E.
    eapply headers_only_trans; [apply (headers_only_set_file f1)|exact E].
  - intros H. inversion H. cbn [snd]. keeps_done.
Qed.

Lemma parseHeaderList_loop_keeps fuel : forall sz bytesRead p q,
  parseHeaderList_loop uninit_listType fuel sz bytesRead p = Some q ->
  headers_only p q.
Proof.
  induction fuel as [|fuel IH]; intros sz br p q E; [discriminate|].
  cbn [parseHeaderList_loop] in E.
  destruct (br <? sz); [|inversion E; apply headers_only_refl].
  destruct (stream_read _ _) as [raw f1].
  destruct (failbit f1); [inversion E; apply headers_only_set_file|].
  destruct (parseHeaderList_chunk _ _ _ _) as [r|] eqn:C; [|discriminate].
  apply parseHeaderList_chunk_keeps in C. apply IH in E.
  eapply headers_only_trans; [apply (headers_only_set_file f1)|].
  eapply headers_only_trans; eassumption.
Qed.

End ParsingKeeps.

(** ** The frame index of an arbitrary file *)

Lemma padded_nonneg sz : 0 <= sz -> 0 <= padded sz.
Proof.
  intros H. unfold padded. destruct (_ =? 1); [apply wrap32_range|exact H].
Qed.

Lemma padded_small sz : 0 <= sz < 4294967295 -> padded sz = sz + sz mod 2.
Proof.
  intros H. unfold padded. pose proof (Z.mod_pos_bound sz 2 ltac:(lia)).
  destruct (sz mod 2 =? 1) eqn:E.
  - apply Z.eqb_eq in E. rewrite E. apply wrap32_small. lia.
  - apply Z.eqb_neq in E. lia.
Qed.

Lemma entries_ordered_mono lo lo' es :
  lo' <= lo -> entries_ordered lo es -> entries_ordered lo' es.
Proof.
  destruct es as [|e es]; [intros; exact I|]. cbn [entries_ordered].
  intros H [H1 H2]. split; [lia|exact H2].
Qed.

Lemma entries_ordered_nth es : forall lo i d,
  Forall (fun e => 0 <= snd e) es ->
  entries_ordered lo es -> (i < length es)%nat ->
  lo + 8 <= fst (nth i es d)
  /\ ((S i < length es)%nat ->
      fst (nth i es d) + padded (snd (nth i es d)) + 8 <= fst (nth (S i) es d)).
Proof.
  induction es as [|e es IH]; intros lo i d HF EO Hi; [cbn in Hi; lia|].
  inversion HF as [|? ? Hs HF']; subst.
  cbn [entries_ordered] in EO. destruct EO as [E1 E2].
  pose proof (padded_nonneg _ Hs) as Pn.
  destruct i as [|i].
  - cbn [nth]. split; [exact E1|]. intros Hi2.
    destruct (IH (fst e + padded (snd e)) 0%nat d HF' E2) as [H _];
      [cbn [length] in Hi2; lia|].
    destruct es; [cbn in Hi2; lia|]. cbn [nth] in *. lia.
  - cbn [nth]. cbn [length] in Hi.
    destruct (IH (fst e + padded (snd e)) i d HF' E2 ltac:(lia)) as [H1 H2].
    split; [lia|]. intros Hi2. apply H2. cbn [length] in Hi2. lia.
Qed.

(** The chunk header a successful read of eight bytes delivers. *)
Lemma decode_chunk_at s raw s' :
  stream_read sizeof_ChunkHeader s = (raw, s') -> failbit s' = false -> sane s ->
  fourCC (decode_chunk raw) = bytes_at (contents s) (Z.to_nat (gpos s)) 4
  /\ size (decode_chunk raw) = u32_at (contents s) (Z.to_nat (gpos s + 4)).
Proof.
  intros R F S.
  destruct (stream_read_ok _ _ _ _ R F S ltac:(reflexivity))
    as (F0 & _ & _ & _ & B & E).
  specialize (S F0).
  unfold decode_chunk, u32_at, bytes_at. cbn [fourCC size]. subst raw.
  change (Z.to_nat sizeof_ChunkHeader) with 8%nat.
  split; [cbn [skipn]; rewrite firstn_firstn; reflexivity|].
  rewrite skipn_firstn_comm. change (8 - 4)%nat with 4%nat.
  rewrite firstn_firstn. change (Nat.min 4 4) with 4%nat.
  rewrite skipn_skipn.
  replace (Z.to_nat (gpos s + 4)) with (4 + Z.to_nat (gpos s))%nat by lia.
  reflexivity.
Qed.

Lemma indexFrames_chunk_fields chunk p :
  failbit (file p) = false ->
  let q := indexFrames_chunk chunk p in
  file q = mkStream (contents (file p)) (gpos (file p) + padded (size chunk)) false
  /\ frameOffsets q
     = frameOffsets p
       ++ map fst (if isFrameTag (fourCC chunk)
                   then [(wrap32 (gpos (file p)), size chunk)] else [])
  /\ frameSizes q
     = frameSizes p
       ++ map snd (if isFrameTag (fourCC chunk)
                   then [(wrap32 (gpos (file p)), size chunk)] else [])
  /\ parse_keeps p q.
Proof.
  intros F. cbv zeta. unfold indexFrames_chunk, padded. cbv zeta.
  destruct (isFrameTag (fourCC chunk)); psimpl; unfold seekg_cur, tellg;
    rewrite F; cbn [map fst snd]; rewrite ?app_nil_r;
    (split; [reflexivity|]); (split; [reflexivity|]); (split; [reflexivity|]);
    unfold parse_keeps; psimpl; repeat split; reflexivity.
Qed.

Lemma indexFrames_loop_entries fuel : forall movieEnd p q,
  indexFrames_loop fuel movieEnd p = Some q ->
  sane (file p) -> len (contents (file p)) < 4294967296 ->
  exists es,
    frameOffsets q = frameOffsets p ++ map fst es
    /\ frameSizes q = frameSizes p ++ map snd es
    /\ Forall (entry_backed (contents (file p))) es
    /\ entries_ordered (gpos (file p)) es
    /\ (failbit (file p) = true -> es = [])
    /\ parse_keeps p q.
Proof.
  induction fuel as [|fuel IH]; intros movieEnd p q E S Hlen; [discriminate|].
  cbn [indexFrames_loop] in E.
  assert (Nil : forall f, q = set_file f p ->
    exists es,
      frameOffsets q = frameOffsets p ++ map fst es
      /\ frameSizes q = frameSizes p ++ map snd es
      /\ Forall (entry_backed (contents (file p))) es
      /\ entries_ordered (gpos (file p)) es
      /\ (failbit (file p) = true -> es = [])
      /\ parse_keeps p q).
  { intros f ->. exists []. psimpl. cbn [map]. rewrite !app_nil_r.
    repeat split; try reflexivity; try constructor.
    all: apply (headers_only_set_file f p). }
  destruct (tellg (file p) <? movieEnd).
  2:{ inversion E; subst q. apply (Nil (file p)). destruct p; reflexivity. }
  destruct (stream_read _ _) as [raw f1] eqn:R.
  destruct (failbit f1) eqn:F.
  { inversion E; subst q. apply (Nil f1). reflexivity. }
  destruct (stream_read_ok _ _ _ _ R F S ltac:(reflexivity))
    as (F0 & _ & G & C & B & _).
  destruct (decode_chunk_at _ _ _ R F S) as [Tag Sz].
  pose proof (S F0) as G0.
  pose proof (size_decode_nonneg raw) as Szr.
  set (chunk := decode_chunk raw) in *.
  destruct (indexFrames_chunk_fields chunk (set_file f1 p) ltac:(psimpl; exact F))
    as (Q1 & Q2 & Q3 & Q4).
  psimpl in Q1. psimpl in Q2. psimpl in Q3.
  set (p1 := indexFrames_chunk chunk (set_file f1 p)) in *.
  apply IH in E.
  2:{ rewrite Q1. intros _. cbn [gpos]. pose proof (padded_nonneg _ (proj1 Szr)).
      unfold sizeof_ChunkHeader in G. lia. }
  2:{ rewrite Q1. cbn [contents]. rewrite C. exact Hlen. }
  destruct E as (es & O & Z & FB & EO & _ & K).
  rewrite Q1 in FB, EO. cbn [contents gpos] in FB, EO. rewrite C in FB.
  unfold sizeof_ChunkHeader in *.
  rewrite (wrap32_small (gpos f1)) in Q2, Q3 by lia.
  exists ((if isFrameTag (fourCC chunk) then [(gpos f1, size chunk)] else []) ++ es).
  rewrite map_app, map_app, !app_assoc, <- Q2, <- Q3.
  split; [exact O|]. split; [exact Z|]. split; [|split; [|split]].
  - apply Forall_app. split; [|exact FB].
    destruct (isFrameTag (fourCC chunk)) eqn:T; constructor; [|constructor].
    unfold entry_backed. cbn [fst snd]. rewrite G.
    replace (gpos (file p) + 8 - 8) with (gpos (file p)) by lia.
    replace (gpos (file p) + 8 - 4) with (gpos (file p) + 4) by lia.
    rewrite <- Tag, <- Sz. repeat split; try assumption; lia.
  - destruct (isFrameTag (fourCC chunk)); cbn [app entries_ordered fst snd].
    + split; [lia|exact EO].
    + pose proof (padded_nonneg _ (proj1 Szr)) as Pn.
      apply (entries_ordered_mono (gpos f1 + padded (size chunk))); [lia|exact EO].
  - congruence.
  - eapply parse_keeps_trans; [apply (headers_only_set_file f1 p)|].
    eapply parse_keeps_trans; [exact Q4|exact K].
Qed.

Section ParsingEntries.

Variables uninit_listType uninit_riffHeader : list byte.

Lemma parseAVIChunks_chunk_entries chunk found p cont found' q :
  parseAVIChunks_chunk uninit_listType chunk found p = Some (cont, found', q) ->
  sane (file p) -> failbit (file p) = false ->
  len (contents (file p)) < 4294967296 -> 0 <= size chunk ->
  advances (file p) (file q) /\ parse_keeps p q
  /\ exists es,
       frameOffsets q = frameOffsets p ++ map fst es
       /\ frameSizes q = frameSizes p ++ map snd es
       /\ Forall (entry_backed (contents (file p))) es
       /\ entries_ordered (gpos (file p) + 4) es
       /\ (cont = true -> es = [])
       /\ (cont = false -> found' = found)
       /\ (found' = true ->
           found = true \/ failbit (file q) = true
           \/ gpos (file p) + 4 <= gpos (file q)).
Proof.
  intros E S F0 Hlen Hs.
  assert (Nil : forall q0, headers_only p q0 ->
    exists es,
      frameOffsets q0 = frameOffsets p ++ map fst es
      /\ frameSizes q0 = frameSizes p ++ map snd es
      /\ Forall (entry_backed (contents (file p))) es
      /\ entries_ordered (gpos (file p) + 4) es
      /\ es = []).
  { intros q0 (_ & O & Z). exists []. cbn [map]. rewrite !app_nil_r.
    repeat split; try assumption; constructor. }
  unfold parseAVIChunks_chunk in E.
  destruct (strncmp4_eq _ FCC_LIST).
  2:{ inversion E; subst. split; [psimpl; adv_step|].
      split; [apply (headers_only_set_file _ p)|].
      destruct (Nil _ (headers_only_set_file (seekg_cur (size chunk) (file p)) p))
        as (es & O & Z & FB & EO & ->).
      exists []. repeat split; try assumption; try reflexivity; try discriminate.
      intros ->. left. reflexivity. }
  destruct (stream_read _ _) as [got f1] eqn:R. cbv zeta in E.
  pose proof (stream_read_advances _ _ _ _ R) as A1.
  assert (S1 : sane (file (set_file f1 p))).
  { psimpl. eapply sane_advances; eassumption. }
  assert (G1 : failbit f1 = false -> gpos f1 = gpos (file p) + 4).
  { intros F1. destruct (stream_read_ok _ _ _ _ R F1 S ltac:(lia))
      as (_ & _ & G & _). exact G. }
  destruct (strncmp4_eq _ FCC_hdrl).
  - destruct (parseHeaderList _ _ _) as [p2|] eqn:P; [|discriminate].
    inversion E; subst. clear E.
    destruct (parseHeaderList_total uninit_listType (wrap32 (size chunk - 4))
                (set_file f1 p) S1) as (p' & P' & A2).
    rewrite P in P'. inversion P'; subst p'. psimpl in A2.
    pose proof (parseHeaderList_loop_keeps _ _ _ _ _ _ P) as K.
    pose proof (headers_only_trans _ _ _ (headers_only_set_file f1 p) K) as K2.
    split; [eapply advances_trans; eassumption|]. split; [exact (proj1 K2)|].
    destruct (Nil _ K2) as (es & O & Z & FB & EO & ->).
    exists []. repeat split; try assumption; try reflexivity; try discriminate.
    intros _. right. destruct A2 as [_ [A2|(F1 & F2 & G2)]]; [left; exact A2|].
    right. rewrite <- (G1 F1). exact G2.
  - destruct (strncmp4_eq _ FCC_movi).
    + destruct (indexFrames _ _) as [p2|] eqn:P; [|discriminate].
      inversion E; subst. clear E.
      destruct (indexFrames_total (wrap32 (size chunk - 4)) (set_file f1 p) S1)
        as (p' & P' & A2).
      rewrite P in P'. inversion P'; subst p'. psimpl in A2.
      unfold indexFrames in P.
      destruct (indexFrames_loop_entries _ _ _ _ P S1) as (es & O & Z & FB & EO & FN & K).
      { psimpl. rewrite (proj1 A1). exact Hlen. }
      psimpl in O. psimpl in Z. psimpl in FB. psimpl in EO. psimpl in FN.
      rewrite (proj1 A1) in FB.
      split; [eapply advances_trans; eassumption|].
      split; [eapply parse_keeps_trans; [apply (headers_only_set_file f1 p)|exact K]|].
      exists es. repeat split; try assumption; try discriminate.
      * destruct (failbit f1) eqn:F1; [rewrite (FN eq_refl); exact I|].
        rewrite <- (G1 eq_refl). exact EO.
      * intros ->. left. reflexivity.
    + inversion E; subst. clear E.
      split; [psimpl; apply advances_trans with f1; adv_step|].
      split; [keeps_done|].
      destruct (Nil (set_file (seekg_cur (wrap32 (size chunk - 4)) (file (set_file f1 p)))
                       (set_file f1 p)) ltac:(keeps_done))
        as (es & O & Z & FB & EO & ->).
      exists []. repeat split; try assumption; try reflexivity; try discriminate.
      intros ->. left. reflexivity.
Qed.

Lemma parseAVIChunks_loop_entries fuel : forall found p found' q,
  parseAVIChunks_loop uninit_listType fuel found p = Some (found', q) ->
  sane (file p) -> len (contents (file p)) < 4294967296 ->
  (failbit (file p) = false -> 12 <= gpos (file p)) ->
  (found = true -> failbit (file p) = true \/ 24 <= gpos (file p)) ->
  parse_keeps p q /\ contents (file q) = contents (file p)
  /\ exists es,
       frameOffsets q = frameOffsets p ++ map fst es
       /\ frameSizes q = frameSizes p ++ map snd es
       /\ Forall (entry_backed (contents (file p))) es
       /\ entries_ordered (if found' then 36 else 24) es.
Proof.
  induction fuel as [|fuel IH]; intros found p found' q E S Hlen H12 H24;
    [discriminate|].
  cbn [parseAVIChunks_loop] in E.
  destruct (stream_read _ _) as [raw f1] eqn:R.
  pose proof (stream_read_advances _ _ _ _ R) as A1.
  destruct (failbit f1) eqn:F.
  { inversion E; subst. split; [apply (headers_only_set_file f1 p)|].
    split; [psimpl; exact (proj1 A1)|].
    exists []. psimpl. cbn [map]. rewrite !app_nil_r.
    repeat split; try reflexivity; try constructor. }
  destruct (stream_read_ok _ _ _ _ R F S ltac:(reflexivity))
    as (F0 & _ & G & C & B & _).
  specialize (H12 F0). unfold sizeof_ChunkHeader in G.
  destruct (parseAVIChunks_chunk _ _ _ _) as [[[cont found1] p1]|] eqn:Ch;
    [|discriminate].
  destruct (parseAVIChunks_chunk_entries _ _ _ _ _ _ Ch) as (A2 & K & es & O & Z & FB & EO & Hc & Hb & Hf).
  { psimpl. eapply sane_advances; eassumption. }
  { psimpl. exact F. }
  { psimpl. rewrite C. exact Hlen. }
  { apply size_decode_nonneg. }
  psimpl in A2. psimpl in O. psimpl in Z. psimpl in FB. psimpl in EO. psimpl in Hf.
  rewrite C in FB. rewrite G in EO, Hf.
  pose proof (parse_keeps_trans _ _ _ (proj1 (headers_only_set_file f1 p)) K) as K1.
  assert (C1 : contents (file p1) = contents (file p)).
  { rewrite (proj1 A2). exact C. }
  assert (H24' : found = true -> 24 <= gpos (file p)).
  { intros Hfd. destruct (H24 Hfd); [congruence|assumption]. }
  destruct cont.
  - rewrite (Hc eq_refl) in O, Z. cbn [map] in O, Z. rewrite app_nil_r in O, Z.
    destruct (IH _ _ _ _ E) as (K2 & C2 & es2 & O2 & Z2 & FB2 & EO2).
    + eapply sane_advances; [exact A2|]. eapply sane_advances; eassumption.
    + rewrite C1. exact Hlen.
    + intros F1. destruct A2 as [_ [A2|(_ & _ & G2)]]; [congruence|]. lia.
    + intros Hfd. destruct (failbit (file p1)) eqn:F1; [left; reflexivity|right].
      destruct A2 as [_ [A2|(_ & _ & G2)]]; [congruence|].
      destruct (Hf Hfd) as [Hfd0|[Hq|Hq]]; [specialize (H24' Hfd0); lia|congruence|lia].
    + split; [eapply parse_keeps_trans; eassumption|].
      split; [congruence|].
      exists es2. rewrite O2, Z2, O, Z, C1 in *. repeat split; assumption.
  - inversion E; subst found' q. rewrite (Hb eq_refl).
    split; [exact K1|]. split; [exact C1|].
    exists es. repeat split; try assumption.
    destruct found.
    + specialize (H24' eq_refl).
      apply (entries_ordered_mono (gpos (file p) + 8 + 4)); [lia|exact EO].
    + apply (entries_ordered_mono (gpos (file p) + 8 + 4)); [lia|exact EO].
Qed.

(** The ways through [loadAVI]. *)
Lemma loadAVI_cases fs p0 ok q :
  loadAVI uninit_listType uninit_riffHeader fs p0 = Some (ok, q) ->
  (fs = None /\ ok = false /\ q = set_cerr (cerr p0 ++ [Err_CannotOpen]) p0)
  \/ exists bytes got f1,
       fs = Some bytes
       /\ stream_read sizeof_RIFFHeader (mkStream bytes 0 false) = (got, f1)
       /\ ((ok = false
            /\ q = set_cerr (cerr p0 ++ [Err_NotValidAVI]) (set_file f1 p0))
           \/ exists found p2,
                parseAVIChunks_loop uninit_listType (S (length bytes)) false
                  (set_file f1 p0) = Some (found, p2)
                /\ ((found && negb (Nat.eqb (length (frameOffsets p2)) 0) = false
                     /\ ok = false
                     /\ q = set_cerr (cerr p2 ++ [Err_FailedParse]) p2)
                    \/ (found = true /\ frameOffsets p2 <> []
                        /\ loadAVI_finish p2 = (ok, q)))).
Proof.
  unfold loadAVI. destruct fs as [bytes|].
  2:{ intros H. inversion H. left. repeat split; reflexivity. }
  intros E. right. psimpl in E.
  destruct (stream_read _ _) as [got f1] eqn:R. cbv zeta in E.
  exists bytes, got, f1. split; [reflexivity|]. split; [exact R|].
  assert (Eq : set_file f1 (set_file (mkStream bytes 0 false) p0) = set_file f1 p0)
    by (destruct p0; reflexivity).
  rewrite Eq in E.
  destruct (_ || _).
  { inversion E. left. psimpl. split; reflexivity. }
  right. unfold parseAVIChunks in E.
  assert (Fu : fuel_of (set_file f1 p0) = S (length bytes)).
  { unfold fuel_of. psimpl.
    rewrite (proj1 (stream_read_advances _ _ _ _ R)). reflexivity. }
  rewrite Fu in E.
  destruct (parseAVIChunks_loop _ _ _ _) as [[found p2]|] eqn:L; [|discriminate].
  exists found, p2. split; [reflexivity|].
  destruct (found && _) eqn:T.
  - right. apply andb_true_iff in T. destruct T as [T1 T2].
    split; [exact T1|]. split.
    + intros N. rewrite N in T2. discriminate.
    + destruct (loadAVI_finish p2) as [ok' q'] eqn:Fi. inversion E. reflexivity.
  - left. inversion E. repeat split; reflexivity.
Qed.

(** The frame index [loadAVI] leaves, for any file below 4 GiB. *)
Lemma loadAVI_entries bytes mh0 sh0 bh0 ok q :
  loadAVI uninit_listType uninit_riffHeader (Some bytes) (AVIPlayer_ctor mh0 sh0 bh0)
  = Some (ok, q) ->
  len bytes < 4294967296 ->
  exists es,
    frameOffsets q = map fst es /\ frameSizes q = map snd es
    /\ Forall (entry_backed bytes) es
    /\ entries_ordered 24 es
    /\ (ok = true -> es <> [] /\ entries_ordered 36 es).
Proof.
  intros E Hlen.
  assert (Nil : forall q0, frameOffsets q0 = [] -> frameSizes q0 = [] ->
    exists es : list (Z * Z),
      frameOffsets q0 = map fst es /\ frameSizes q0 = map snd es
      /\ Forall (entry_backed bytes) es /\ entries_ordered 24 es
      /\ (false = true -> es <> [] /\ entries_ordered 36 es)).
  { intros q0 O Z. exists []. repeat split; try assumption; try constructor;
      discriminate. }
  apply loadAVI_cases in E.
  destruct E as [(D & _)|(b & got & f1 & Eb & R & E)]; [discriminate|].
  inversion Eb; subst b. clear Eb.
  destruct E as [(-> & ->)|(found & p2 & L & E)]; [apply Nil; reflexivity|].
  pose proof (stream_read_advances _ _ _ _ R) as A1.
  destruct (parseAVIChunks_loop_entries _ _ _ _ _ L)
    as (K & C & es & O & Z & FB & EO).
  { psimpl. eapply sane_advances; [exact A1|]. intros _. cbn. lia. }
  { psimpl. rewrite (proj1 A1). exact Hlen. }
  { psimpl. intros F1.
    destruct (stream_read_ok _ _ _ _ R F1 ltac:(intros _; cbn; lia) ltac:(reflexivity))
      as (_ & _ & G & _). rewrite G. cbn. unfold sizeof_RIFFHeader. lia. }
  { discriminate. }
  psimpl in O. psimpl in Z. psimpl in FB. rewrite (proj1 A1) in FB.
  cbn [contents app] in FB, O, Z.
  assert (EO24 : entries_ordered 24 es).
  { destruct found; [|exact EO]. apply (entries_ordered_mono 36); [lia|exact EO]. }
  destruct E as [(T & -> & ->)|(-> & Hne & Fi)].
  - exists es. psimpl. repeat split; try assumption; discriminate.
  - pose proof (loadAVI_finish_fields _ _ _ Fi) as (_ & _ & _ & _ & O2 & Z2 & _).
    exists es. rewrite O2, Z2. repeat split; try assumption.
    intros N. rewrite N in O. cbn in O. congruence.
Qed.

End ParsingEntries.

Lemma nth_map_fst (es : list (Z * Z)) i : nth i (map fst es) 0 = fst (nth i es (0, 0)).
Proof. exact (map_nth fst es (0, 0) i). Qed.

Lemma nth_map_snd (es : list (Z * Z)) i : nth i (map snd es) 0 = snd (nth i es (0, 0)).
Proof. exact (map_nth snd es (0, 0) i). Qed.

Lemma entry_backed_size bytes es :
  Forall (entry_backed bytes) es -> Forall (fun e => 0 <= snd e) es.
Proof.
  intros H. eapply Forall_impl; [|exact H].
  intros e (_ & _ & ->). apply u32_at_range.
Qed.

(** X4: Whatever the file holds, the frame index is sound: the two vectors
    have the same length, and every entry comes from a chunk header that
    lies in the file, eight bytes before the recorded offset, whose tag is
    00dc or 00db and whose length field is the recorded length.  No
    offset is below 32. *)
Theorem index_backed_by_file u1 u2 bytes mh0 sh0 bh0 ok q :
  len bytes < 4294967296 ->
  loadAVI u1 u2 (Some bytes) (AVIPlayer_ctor mh0 sh0 bh0) = Some (ok, q) ->
  length (frameOffsets q) = length (frameSizes q)
  /\ forall i, (i < length (frameOffsets q))%nat ->
       let off := nth i (frameOffsets q) 0 in
       let sz := nth i (frameSizes q) 0 in
       32 <= off <= len bytes
       /\ isFrameTag (bytes_at bytes (Z.to_nat (off - 8)) 4) = true
       /\ sz = u32_at bytes (Z.to_nat (off - 4)).
Proof.
  intros Hlen E.
  destruct (loadAVI_entries u1 u2 bytes mh0 sh0 bh0 ok q E Hlen)
    as (es & O & Z & FB & EO & _).
  rewrite O, Z, !length_map. split; [reflexivity|].
  intros i Hi. cbv zeta. rewrite nth_map_fst, nth_map_snd.
  pose proof (proj1 (Forall_nth _ es) FB i (0, 0) Hi) as (B1 & B2 & B3).
  destruct (entries_ordered_nth es 24 i (0, 0) (entry_backed_size _ _ FB) EO Hi)
    as [L _].
  repeat split; try assumption; lia.
Qed.

Lemma index_backed_by_file_witness :
  exists q,
    loadAVI [] [] (Some (avi_bytes sample_avi)) (AVIPlayer_ctor [] [] []) = Some (true, q)
    /\ isFrameTag (bytes_at (avi_bytes sample_avi)
                     (Z.to_nat (nth 1 (frameOffsets q) 0 - 8)) 4) = true.
Proof.
  eexists. split; [vm_compute; reflexivity|].
  match goal with
  | |- context [frameOffsets ?q] =>
    destruct (index_backed_by_file [] [] (avi_bytes sample_avi) [] [] [] true q
                ltac:(vm_compute; reflexivity) ltac:(vm_compute; reflexivity))
      as (_ & H)
  end.
  destruct (H 1%nat ltac:(vm_compute; lia)) as (_ & T & _). exact T.
Defined.

(** X5: The index follows the file: offsets grow by at least eight from one
    entry to the next; a frame that declares less than 2^32-1 bytes ends,
    padding included, before the header of the next indexed chunk, so
    that every indexed frame except the last lies in the file with all
    the bytes it declares. *)
Theorem index_in_file_order u1 u2 bytes mh0 sh0 bh0 ok q i :
  len bytes < 4294967296 ->
  loadAVI u1 u2 (Some bytes) (AVIPlayer_ctor mh0 sh0 bh0) = Some (ok, q) ->
  (S i < length (frameOffsets q))%nat ->
  let off := nth i (frameOffsets q) 0 in
  let sz := nth i (frameSizes q) 0 in
  let next := nth (S i) (frameOffsets q) 0 in
  off + 8 <= next
  /\ (sz < 4294967295 ->
      off + sz + sz mod 2 + 8 <= next /\ off + sz + 8 <= len bytes).
Proof.
  intros Hlen E Hi. cbv zeta.
  destruct (loadAVI_entries u1 u2 bytes mh0 sh0 bh0 ok q E Hlen)
    as (es & O & Z & FB & EO & _).
  rewrite O, Z in *. rewrite length_map in Hi. rewrite !nth_map_fst, nth_map_snd.
  pose proof (entry_backed_size _ _ FB) as Sz.
  destruct (entries_ordered_nth es 24 i (0, 0) Sz EO ltac:(lia)) as [_ N].
  specialize (N Hi).
  pose proof (proj1 (Forall_nth _ es) Sz i (0, 0) ltac:(lia)) as S0.
  pose proof (proj1 (Forall_nth _ es) FB (S i) (0, 0) Hi) as ((_ & B1) & _).
  cbv beta in S0.
  pose proof (padded_nonneg _ S0) as Pn.
  split; [lia|]. intros Hsz.
  rewrite (padded_small (snd (nth i es (0, 0)))) in N by lia.
  pose proof (Z.mod_pos_bound (snd (nth i es (0, 0))) 2 ltac:(lia)).
  lia.
Qed.

Lemma index_in_file_order_witness :
  exists q,
    loadAVI [] [] (Some (avi_bytes sample_avi)) (AVIPlayer_ctor [] [] []) = Some (true, q)
    /\ nth 0 (frameOffsets q) 0 + 12 + 12 mod 2 + 8 <= nth 1 (frameOffsets q) 0.
Proof.
  eexists. split; [vm_compute; reflexivity|].
  match goal with
  | |- context [frameOffsets ?q] =>
    destruct (index_in_file_order [] [] (avi_bytes sample_avi) [] [] [] true q 0%nat
                ltac:(vm_compute; reflexivity) ltac:(vm_compute; reflexivity)
                ltac:(vm_compute; lia)) as (_ & H)
  end.
  destruct H as [H _]; [vm_compute; reflexivity|]. exact H.
Defined.

(** X3: No file shorter than 44 bytes can be loaded: a header list, a movie
    list and one frame chunk header need that much after the RIFF
    header. *)
Theorem loadable_file_size u1 u2 bytes mh0 sh0 bh0 q :
  loadAVI u1 u2 (Some bytes) (AVIPlayer_ctor mh0 sh0 bh0) = Some (true, q) ->
  44 <= len bytes.
Proof.
  intros E. destruct (Z_lt_le_dec (len bytes) 4294967296) as [Hlen|]; [|lia].
  destruct (loadAVI_entries u1 u2 bytes mh0 sh0 bh0 true q E Hlen)
    as (es & _ & _ & FB & _ & H).
  destruct (H eq_refl) as [Hne EO].
  destruct es as [|e es]; [congruence|].
  inversion FB as [|? ? ((_ & B) & _) _]; subst.
  cbn [entries_ordered] in EO. lia.
Qed.

(** The bound is reached: the 44-byte file with an empty header list
    loads when the uninitialised bitmap header happens to describe a
    supported format. *)
Lemma loadable_file_size_witness :
  exists q,
    loadAVI [] [] (Some minimal_file) (AVIPlayer_ctor [] [] (make_bih 1 1 24 0))
    = Some (true, q)
    /\ 44 <= len minimal_file <= 44.
Proof.
  eexists. split; [vm_compute; reflexivity|].
  split; [|vm_compute; discriminate].
  match goal with
  | |- 44 <= len minimal_file =>
    eapply (loadable_file_size [] [] minimal_file [] [] (make_bih 1 1 24 0))
  end.
  vm_compute. reflexivity.
Defined.

(** ** The two outcomes of loadAVI *)

Lemma indexFrames_loop_keeps fuel : forall movieEnd p q,
  indexFrames_loop fuel movieEnd p = Some q -> parse_keeps p q.
Proof.
  induction fuel as [|fuel IH]; intros movieEnd p q E; [discriminate|].
  cbn [indexFrames_loop] in E.
  destruct (_ <? movieEnd); [|inversion E; apply parse_keeps_refl].
  destruct (stream_read _ _) as [raw f1].
  destruct (failbit f1); [inversion E; apply (headers_only_set_file f1 p)|].
  apply IH in E.
  eapply parse_keeps_trans; [|exact E].
  unfold indexFrames_chunk. cbv zeta.
  destruct (isFrameTag _); unfold parse_keeps; psimpl; repeat split; reflexivity.
Qed.

Section Outcome.

Variables uninit_listType uninit_riffHeader : list byte.

Lemma parseAVIChunks_loop_keeps fuel : forall found p found' q,
  parseAVIChunks_loop uninit_listType fuel found p = Some (found', q) ->
  parse_keeps p q.
Proof.
  induction fuel as [|fuel IH]; intros found p found' q E; [discriminate|].
  cbn [parseAVIChunks_loop] in E.
  destruct (stream_read _ _) as [raw f1].
  destruct (failbit f1); [inversion E; apply (headers_only_set_file f1 p)|].
  destruct (parseAVIChunks_chunk _ _ _ _) as [[[cont found1] p1]|] eqn:Ch;
    [|discriminate].
  assert (K : parse_keeps p p1).
  { eapply parse_keeps_trans; [apply (headers_only_set_file f1 p)|].
    revert Ch. unfold parseAVIChunks_chunk.
    destruct (strncmp4_eq _ FCC_LIST).
    2:{ intros H; inversion H. apply (headers_only_set_file _ (set_file f1 p)). }
    destruct (stream_read _ _) as [got f2]. cbv zeta.
    destruct (strncmp4_eq _ FCC_hdrl).
    - destruct (parseHeaderList _ _ _) as [p2|] eqn:P; [|discriminate].
      intros H; inversion H; subst.
      eapply parse_keeps_trans; [apply (headers_only_set_file f2 (set_file f1 p))|].
      exact (proj1 (parseHeaderList_loop_keeps _ _ _ _ _ _ P)).
    - destruct (strncmp4_eq _ FCC_movi).
      + destruct (indexFrames _ _) as [p2|] eqn:P; [|discriminate].
        intros H; inversion H; subst.
        eapply parse_keeps_trans; [apply (headers_only_set_file f2 (set_file f1 p))|].
        exact (indexFrames_loop_keeps _ _ _ _ P).
      + intros H; inversion H; subst. unfold parse_keeps. psimpl.
        repeat split; reflexivity. }
  destruct cont.
  - apply IH in E. eapply parse_keeps_trans; eassumption.
  - inversion E; subst. exact K.
Qed.

End Outcome.

Lemma determinePixelFormat_outcome p ok q :
  determinePixelFormat p = (ok, q) ->
  isValid q = isValid p /\ bitmapHeader q = bitmapHeader p
  /\ (ok = true ->
      cerr q = cerr p /\ bh_compression (bitmapHeader p) = 0
      /\ bitsPerPixel q = bh_bitCount (bitmapHeader p)
      /\ (bitsPerPixel q = 8 \/ bitsPerPixel q = 16
          \/ bitsPerPixel q = 24 \/ bitsPerPixel q = 32)
      /\ bitsPerPixel q = 8 * bytesPerPixel q
      /\ sdlPixelFormat q = pixel_format_of (bitsPerPixel q))
  /\ (ok = false ->
      (exists c, c <> 0 /\ cerr q = cerr p ++ [Err_Compressed c])
      \/ (exists b, cerr q = cerr p ++ [Err_UnsupportedBitDepth b])).
Proof.
  unfold determinePixelFormat. cbv zeta. psimpl.
  destruct (bh_compression (bitmapHeader p) =? 0) eqn:C; cbn [negb].
  2:{ intros H; inversion H; subst. psimpl. apply Z.eqb_neq in C.
      repeat split; try reflexivity; try discriminate.
      intros _. left. eexists. split; [exact C|reflexivity]. }
  apply Z.eqb_eq in C.
  destruct (bh_bitCount (bitmapHeader p) =? 8) eqn:B8;
    [|destruct (bh_bitCount (bitmapHeader p) =? 16) eqn:B16;
      [|destruct (bh_bitCount (bitmapHeader p) =? 24) eqn:B24;
        [|destruct (bh_bitCount (bitmapHeader p) =? 32) eqn:B32]]];
    intros H; inversion H; subst; psimpl;
    (split; [reflexivity|]); (split; [reflexivity|]);
    split; try discriminate.
  - apply Z.eqb_eq in B8. rewrite B8. intros _.
    repeat split; try assumption; try reflexivity. left. reflexivity.
  - apply Z.eqb_eq in B16. rewrite B16. intros _.
    repeat split; try assumption; try reflexivity. right. left. reflexivity.
  - apply Z.eqb_eq in B24. rewrite B24. intros _.
    repeat split; try assumption; try reflexivity. right. right. left. reflexivity.
  - apply Z.eqb_eq in B32. rewrite B32. intros _.
    repeat split; try assumption; try reflexivity. right. right. right. reflexivity.
  - intros _. right. eexists. reflexivity.
Qed.

Lemma loadAVI_finish_outcome p ok q :
  loadAVI_finish p = (ok, q) ->
  (ok = true ->
   isValid q = true /\ cerr q = cerr p /\ bh_compression (bitmapHeader q) = 0
   /\ bitsPerPixel q = bh_bitCount (bitmapHeader q)
   /\ (bitsPerPixel q = 8 \/ bitsPerPixel q = 16
       \/ bitsPerPixel q = 24 \/ bitsPerPixel q = 32)
   /\ bitsPerPixel q = 8 * bytesPerPixel q
   /\ sdlPixelFormat q = pixel_format_of (bitsPerPixel q))
  /\ (ok = false ->
      isValid q = isValid p
      /\ ((exists c, c <> 0
             /\ cerr q = cerr p ++ [Err_Compressed c; Err_UnsupportedPixelFormat])
          \/ (exists b,
                cerr q = cerr p ++ [Err_UnsupportedBitDepth b;
                                    Err_UnsupportedPixelFormat]))).
Proof.
  unfold loadAVI_finish. cbv zeta.
  match goal with
  | |- context [determinePixelFormat ?p5] =>
    assert (P5 : isValid p5 = isValid p /\ cerr p5 = cerr p);
      [|destruct (determinePixelFormat p5) as [ok' p6] eqn:D]
  end.
  { destruct (0 <? _); destruct (_ <? 0); psimpl; split; reflexivity. }
  destruct P5 as [V5 C5].
  destruct (determinePixelFormat_outcome _ _ _ D) as (V & B & T & F).
  destruct ok'; intros H; inversion H; subst.
  - split; [intros _|discriminate].
    destruct (T eq_refl) as (T1 & T2 & T3 & T4 & T5 & T6). psimpl.
    rewrite B. repeat split; try assumption. congruence.
  - split; [discriminate|intros _]. psimpl. split; [congruence|].
    destruct (F eq_refl) as [(c & Hc & Ec)|(b & Eb)]; [left|right].
    + exists c. split; [exact Hc|]. rewrite Ec, C5, <- app_assoc. reflexivity.
    + exists b. rewrite Eb, C5, <- app_assoc. reflexivity.
Qed.

(** What [loadAVI] reports: success goes with a valid player and a
    silent error output, failure with an invalid player and a report. *)
Lemma loadAVI_reports u1 u2 fs mh0 sh0 bh0 ok q :
  loadAVI u1 u2 fs (AVIPlayer_ctor mh0 sh0 bh0) = Some (ok, q) ->
  (ok = true -> isValid q = true /\ cerr q = [])
  /\ (ok = false -> isValid q = false /\ cerr q <> []).
Proof.
  intros E. apply loadAVI_cases in E.
  destruct E as [(_ & -> & ->)|(bytes & got & f1 & _ & _ & E)].
  { split; [discriminate|]. intros _. split; [reflexivity|discriminate]. }
  destruct E as [(-> & ->)|(found & p2 & L & E)].
  { split; [discriminate|]. intros _. split; [reflexivity|discriminate]. }
  pose proof (parseAVIChunks_loop_keeps _ _ _ _ _ _ L) as K.
  unfold parse_keeps in K. psimpl in K.
  destruct K as (_ & _ & _ & _ & _ & _ & _ & _ & _ & _ & _ & V & C & _).
  cbn in V, C.
  destruct E as [(_ & -> & ->)|(_ & _ & Fi)].
  { split; [discriminate|]. intros _. psimpl. rewrite V, C.
    split; [reflexivity|discriminate]. }
  destruct (loadAVI_finish_outcome _ _ _ Fi) as [T F].
  split.
  - intros Hok. destruct (T Hok) as (T1 & T2 & _). split; [exact T1|congruence].
  - intros Hok. destruct (F Hok) as [F1 F2]. split; [congruence|].
    rewrite C in F2. cbn [app] in F2.
    destruct F2 as [(c & _ & ->)|(b & ->)]; discriminate.
Qed.

(** X2: The two outcomes of [loadAVI] on a fresh player, for any input.  It
    returns true only with the player marked valid, a frame index that is
    not empty, an uncompressed format of 8, 16, 24 or 32 bits with whole
    bytes per pixel and the matching texture format, and nothing written
    to the error output.  It returns false only with the player left
    invalid and one of five reports on the error output. *)
Theorem loadAVI_outcome u1 u2 fs mh0 sh0 bh0 ok q :
  loadAVI u1 u2 fs (AVIPlayer_ctor mh0 sh0 bh0) = Some (ok, q) ->
  (ok = true ->
   isValid q = true /\ cerr q = [] /\ frameOffsets q <> []
   /\ bh_compression (bitmapHeader q) = 0
   /\ bitsPerPixel q = bh_bitCount (bitmapHeader q)
   /\ (bitsPerPixel q = 8 \/ bitsPerPixel q = 16
       \/ bitsPerPixel q = 24 \/ bitsPerPixel q = 32)
   /\ bitsPerPixel q = 8 * bytesPerPixel q
   /\ sdlPixelFormat q = pixel_format_of (bitsPerPixel q))
  /\ (ok = false ->
      isValid q = false
      /\ (cerr q = [Err_CannotOpen] \/ cerr q = [Err_NotValidAVI]
          \/ cerr q = [Err_FailedParse]
          \/ (exists c, c <> 0
                /\ cerr q = [Err_Compressed c; Err_UnsupportedPixelFormat])
          \/ (exists b,
                cerr q = [Err_UnsupportedBitDepth b; Err_UnsupportedPixelFormat]))).
Proof.
  intros E. apply loadAVI_cases in E.
  destruct E as [(_ & -> & ->)|(bytes & got & f1 & _ & _ & E)].
  { split; [discriminate|]. intros _. split; [reflexivity|]. left. reflexivity. }
  destruct E as [(-> & ->)|(found & p2 & L & E)].
  { split; [discriminate|]. intros _. split; [reflexivity|].
    right. left. reflexivity. }
  pose proof (parseAVIChunks_loop_keeps _ _ _ _ _ _ L) as K.
  unfold parse_keeps in K. psimpl in K.
  destruct K as (_ & _ & _ & _ & _ & _ & _ & _ & _ & _ & _ & V & C & _).
  cbn in V, C.
  destruct E as [(_ & -> & ->)|(_ & Hne & Fi)].
  { split; [discriminate|]. intros _. psimpl. rewrite V, C.
    split; [reflexivity|]. right. right. left. reflexivity. }
  pose proof (loadAVI_finish_fields _ _ _ Fi) as (_ & _ & _ & _ & O & _).
  destruct (loadAVI_finish_outcome _ _ _ Fi) as [T F].
  split.
  - intros Hok. destruct (T Hok) as (T1 & T2 & T3 & T4 & T5 & T6 & T7).
    rewrite O. repeat split; try assumption. congruence.
  - intros Hok. destruct (F Hok) as [F1 F2]. split; [congruence|].
    rewrite C in F2. cbn [app] in F2. right. right. right. exact F2.
Qed.

Lemma loadAVI_outcome_witness :
  exists q,
    loadAVI [] [] (Some (avi_bytes sample_avi)) (AVIPlayer_ctor [] [] []) = Some (true, q)
    /\ isValid q = true /\ cerr q = [] /\ bitsPerPixel q = 8 * bytesPerPixel q.
Proof.
  eexists. split; [vm_compute; reflexivity|].
  match goal with
  | |- isValid ?q = _ /\ _ =>
    destruct (loadAVI_outcome [] [] (Some (avi_bytes sample_avi)) [] [] [] true q
                ltac:(vm_compute; reflexivity)) as (H & _)
  end.
  destruct (H eq_refl) as (H1 & H2 & _ & _ & _ & _ & H7 & _).
  split; [exact H1|]. split; [exact H2|exact H7].
Defined.


(** ** The end of loadAVI, again *)

Lemma determinePixelFormat_set_file f p :
  determinePixelFormat (set_file f p)
  = (fst (determinePixelFormat p), set_file f (snd (determinePixelFormat p))).
Proof.
  destruct p as [tex pres f0 mh sh bh fw fh fps_ tf cf bpp Bpp td offs sizes pal sdl valid errs].
  unfold determinePixelFormat. cbv zeta. pnorm. psimpl.
  repeat match goal with
         | |- context [if ?c then _ else _] => destruct c
         end; reflexivity.
Qed.

Lemma loadAVI_finish_set_file f p :
  loadAVI_finish (set_file f p)
  = (fst (loadAVI_finish p), set_file f (snd (loadAVI_finish p))).
Proof.
  unfold loadAVI_finish. cbv zeta.
  match goal with
  | |- context [determinePixelFormat ?a] =>
    match goal with
    | |- context [(fst (let '(_, _) := determinePixelFormat ?b in _), _)] =>
      assert (E : a = set_file f b)
    end
  end.
  { destruct p as [tex pres f0 mh sh bh fw fh fps_ tf cf bpp Bpp td offs sizes pal sdl valid errs].
    pnorm. psimpl. destruct (0 <? _); destruct (_ <? 0); reflexivity. }
  rewrite E, determinePixelFormat_set_file.
  destruct (determinePixelFormat _) as [ok p6]. cbn [fst snd].
  destruct ok; cbn [fst snd]; destruct p6; reflexivity.
Qed.

Lemma determinePixelFormat_stream p :
  file (snd (determinePixelFormat p)) = file p
  /\ texture (snd (determinePixelFormat p)) = texture p
  /\ presented (snd (determinePixelFormat p)) = presented p.
Proof.
  unfold determinePixelFormat. cbv zeta.
  repeat match goal with
         | |- context [if ?c then _ else _] => destruct c
         end; cbn [snd]; psimpl; repeat split; reflexivity.
Qed.

Lemma loadAVI_finish_stream p :
  file (snd (loadAVI_finish p)) = file p
  /\ texture (snd (loadAVI_finish p)) = texture p
  /\ presented (snd (loadAVI_finish p)) = presented p.
Proof.
  unfold loadAVI_finish. cbv zeta.
  match goal with
  | |- context [determinePixelFormat ?p5] =>
    assert (P5 : file p5 = file p /\ texture p5 = texture p
                 /\ presented p5 = presented p);
      [|pose proof (determinePixelFormat_stream p5) as (D1 & D2 & D3);
        destruct (determinePixelFormat p5) as [ok' p6]]
  end.
  { destruct (0 <? _); psimpl; destruct (_ <? 0); psimpl; repeat split; reflexivity. }
  destruct P5 as (F1 & F2 & F3). cbn [snd] in *.
  destruct ok'; cbn [snd]; psimpl; repeat split; congruence.
Qed.

Lemma loadAVI_finish_file p : file (snd (loadAVI_finish p)) = file p.
Proof. apply loadAVI_finish_stream. Qed.

(** A format [determinePixelFormat] does not accept: the report it
    leaves names the compression or, for an uncompressed format, the
    depth. *)
Lemma determinePixelFormat_unsupported p :
  ~ supported_format (bitmapHeader p) ->
  fst (determinePixelFormat p) = false
  /\ isValid (snd (determinePixelFormat p)) = isValid p
  /\ cerr (snd (determinePixelFormat p))
     = cerr p
       ++ [if bh_compression (bitmapHeader p) =? 0
           then Err_UnsupportedBitDepth (bh_bitCount (bitmapHeader p))
           else Err_Compressed (bh_compression (bitmapHeader p))].
Proof.
  intros N. unfold determinePixelFormat. cbv zeta. psimpl.
  destruct (bh_compression (bitmapHeader p) =? 0) eqn:C; cbn [negb];
    [|cbn [fst snd]; psimpl; repeat split; reflexivity].
  apply Z.eqb_eq in C.
  destruct (bh_bitCount (bitmapHeader p) =? 8) eqn:B8;
    [exfalso; apply N; apply Z.eqb_eq in B8; split; [exact C|tauto]|].
  destruct (bh_bitCount (bitmapHeader p) =? 16) eqn:B16;
    [exfalso; apply N; apply Z.eqb_eq in B16; split; [exact C|tauto]|].
  destruct (bh_bitCount (bitmapHeader p) =? 24) eqn:B24;
    [exfalso; apply N; apply Z.eqb_eq in B24; split; [exact C|tauto]|].
  destruct (bh_bitCount (bitmapHeader p) =? 32) eqn:B32;
    [exfalso; apply N; apply Z.eqb_eq in B32; split; [exact C|tauto]|].
  cbn [fst snd]. psimpl. repeat split; reflexivity.
Qed.

Lemma loadAVI_finish_unsupported p :
  length (bitmapHeader p) = 40%nat ->
  ~ supported_format (bitmapHeader p) ->
  fst (loadAVI_finish p) = false
  /\ isValid (snd (loadAVI_finish p)) = isValid p
  /\ cerr (snd (loadAVI_finish p))
     = cerr p
       ++ [if bh_compression (bitmapHeader p) =? 0
           then Err_UnsupportedBitDepth (bh_bitCount (bitmapHeader p))
           else Err_Compressed (bh_compression (bitmapHeader p));
           Err_UnsupportedPixelFormat].
Proof.
  intros L N.
  destruct (bh_set_height_fields (bitmapHeader p) (- bh_height (bitmapHeader p)) L)
    as (_ & F1 & F2 & _).
  unfold loadAVI_finish. cbv zeta.
  match goal with
  | |- context [determinePixelFormat ?p5] =>
    assert (P5 : isValid p5 = isValid p /\ cerr p5 = cerr p
                 /\ bh_bitCount (bitmapHeader p5) = bh_bitCount (bitmapHeader p)
                 /\ bh_compression (bitmapHeader p5) = bh_compression (bitmapHeader p));
      [|assert (N5 : ~ supported_format (bitmapHeader p5));
        [|pose proof (determinePixelFormat_unsupported p5 N5) as (D1 & D2 & D3);
          destruct (determinePixelFormat p5) as [ok' p6]]]
  end.
  { destruct (0 <? _); destruct (_ <? 0); psimpl; repeat split;
      try reflexivity; assumption. }
  { destruct P5 as (_ & _ & B & C). unfold supported_format in *.
    rewrite B, C. exact N. }
  destruct P5 as (V & Ce & B & C). cbn [fst snd] in *. subst ok'.
  cbn [fst snd]. psimpl. rewrite D2, D3, V, Ce, B, C, <- app_assoc.
  repeat split; reflexivity.
Qed.

(** ** Well-formed files: what decides the outcome *)

Lemma supported_format_dec b : {supported_format b} + {~ supported_format b}.
Proof.
  unfold supported_format.
  destruct (Z.eq_dec (bh_compression b) 0) as [C|C]; [|right; tauto].
  destruct (Z.eq_dec (bh_bitCount b) 8); [left; tauto|].
  destruct (Z.eq_dec (bh_bitCount b) 16); [left; tauto|].
  destruct (Z.eq_dec (bh_bitCount b) 24); [left; tauto|].
  destruct (Z.eq_dec (bh_bitCount b) 32); [left; tauto|].
  right. tauto.
Qed.

(** [loadAVI] on a complete well-formed file with frames, by the format
    the stream lists leave in the bitmap header. *)
Lemma loadAVI_wf a u1 u2 mh0 sh0 bh0 :
  wf_avi a -> frames_in (af_movi a) <> [] ->
  let p := parsed_player a
             (mkStream (avi_bytes a)
                       (len (avi_prefix a) + len (movi_body (af_movi a))) false)
             (frame_index (len (avi_prefix a)) (af_movi a)) mh0 sh0 bh0 in
  loadAVI u1 u2 (Some (avi_bytes a)) (AVIPlayer_ctor mh0 sh0 bh0)
  = Some (loadAVI_finish p)
  /\ length (bitmapHeader p) = 40%nat
  /\ bitmapHeader p
     = fst (format_of (af_streams a) (firstn 40 (bh0 ++ repeat x00 40), [])).
Proof.
  intros W F p.
  pose proof (loadAVI_complete a u1 u2 mh0 sh0 bh0 W) as E. cbv zeta in E.
  rewrite (frames_nonempty _ F) in E. fold p in E.
  destruct (parsed_player_fields a
              (mkStream (avi_bytes a)
                 (len (avi_prefix a) + len (movi_body (af_movi a))) false)
              (frame_index (len (avi_prefix a)) (af_movi a)) mh0 sh0 bh0)
    as (_ & _ & Q3 & _).
  fold p in Q3.
  destruct (ctor_lengths mh0 sh0 bh0) as (_ & _ & Lbh).
  split; [exact E|]. split; [|exact Q3].
  rewrite Q3. apply format_of_length; [apply (wf_streams a W)|exact Lbh].
Qed.


Lemma compressed_avi_wf : wf_avi compressed_avi.
Proof.
  constructor.
  - reflexivity.
  - repeat constructor; intros; vm_compute; lia.
  - repeat constructor.
  - reflexivity.
  - vm_compute. lia.
  - reflexivity.
Qed.


(** X8: When no stream list of the file is a video stream, the bitmap header
    is never written: the format that decides the outcome of [loadAVI],
    and the depth frames are decoded with, is whatever the uninitialised
    member held. *)
Theorem format_from_uninitialised_memory a u1 u2 mh0 sh0 bh0 :
  wf_avi a -> frames_in (af_movi a) <> [] ->
  Forall (fun s => is_video s = false) (af_streams a) ->
  let bh := firstn 40 (bh0 ++ repeat x00 40) in
  exists ok q,
    loadAVI u1 u2 (Some (avi_bytes a)) (AVIPlayer_ctor mh0 sh0 bh0) = Some (ok, q)
    /\ (ok = true <-> supported_format bh)
    /\ bitsPerPixel q = bh_bitCount bh.
Proof.
  intros W F NV bh.
  destruct (loadAVI_wf a u1 u2 mh0 sh0 bh0 W F) as (E & L & Q3).
  set (p := parsed_player a _ _ mh0 sh0 bh0) in *.
  rewrite (format_of_not_video _ _ NV) in Q3. cbn [fst] in Q3. fold bh in Q3.
  destruct (loadAVI_finish p) as [ok q] eqn:Fin.
  exists ok, q. split; [exact E|].
  pose proof (loadAVI_finish_orientation _ _ _ Fin) as (_ & _ & B & _).
  destruct (bh_set_height_fields (bitmapHeader p) (- bh_height (bitmapHeader p)) L)
    as (_ & F1 & _).
  assert (Bq : bitsPerPixel q = bh_bitCount bh).
  { rewrite B. destruct (_ <? 0); [rewrite F1|]; rewrite Q3; reflexivity. }
  split; [|exact Bq].
  destruct (supported_format_dec bh) as [S|N].
  - rewrite <- Q3 in S. destruct (loadAVI_finish_supported p L S) as [OK _].
    rewrite Fin in OK. cbn [fst] in OK. rewrite Q3 in S. tauto.
  - rewrite <- Q3 in N. destruct (loadAVI_finish_unsupported p L N) as [U _].
    rewrite Fin in U. cbn [fst] in U. rewrite Q3 in N. subst ok.
    split; [discriminate|tauto].
Qed.

Lemma audio_only_avi_wf : wf_avi audio_only_avi.
Proof.
  constructor.
  - reflexivity.
  - repeat constructor; intros; vm_compute in *; try lia; discriminate.
  - repeat constructor.
  - reflexivity.
  - vm_compute. lia.
  - reflexivity.
Qed.

Lemma format_from_uninitialised_memory_witness :
  (exists q,
     loadAVI [] [] (Some (avi_bytes audio_only_avi))
       (AVIPlayer_ctor [] [] (make_bih 2 2 24 0)) = Some (true, q)
     /\ bitsPerPixel q = 24)
  /\ (exists q,
        loadAVI [] [] (Some (avi_bytes audio_only_avi)) (AVIPlayer_ctor [] [] [])
        = Some (false, q)).
Proof.
  split.
  - destruct (format_from_uninitialised_memory audio_only_avi [] [] [] []
                (make_bih 2 2 24 0) audio_only_avi_wf
                ltac:(vm_compute; discriminate)
                ltac:(repeat constructor))
      as (ok & q & E & I & B).
    exists q. destruct ok.
    + split; [exact E|]. rewrite B. reflexivity.
    + exfalso. assert (false = true); [|discriminate].
      apply I. split; [reflexivity|]. right. right. left. reflexivity.
  - destruct (format_from_uninitialised_memory audio_only_avi [] [] [] [] []
                audio_only_avi_wf ltac:(vm_compute; discriminate)
                ltac:(repeat constructor))
      as (ok & q & E & I & _).
    exists q. destruct ok; [|exact E].
    exfalso. destruct (proj1 I eq_refl) as [_ [H|[H|[H|H]]]];
      vm_compute in H; discriminate.
Defined.

(** ** What loadAVI does not read *)


Lemma sample_with_index_wf : wf_avi sample_with_index.
Proof.
  constructor.
  - reflexivity.
  - repeat constructor; intros; vm_compute; lia.
  - repeat constructor.
  - reflexivity.
  - vm_compute. lia.
  - reflexivity.
Qed.


(** ** The frame period *)

(** X15: [play] divides 1000 by the frame rate.  For a loaded file the frame
    rate is zero, and the division undefined, exactly when the main
    header declares a frame duration above one second. *)
Theorem play_needs_frame_rate u1 u2 fs p0 p env :
  loadAVI u1 u2 fs p0 = Some (true, p) ->
  (fps p = 0 <-> 1000000 < mh_microSecPerFrame (mainHeader p))
  /\ (play env p = None <-> 1000000 < mh_microSecPerFrame (mainHeader p)).
Proof.
  intros H. apply loadAVI_success in H.
  destruct H as (bytes & p1 & p2 & _ & _ & _ & F).
  destruct (loadAVI_finish_outcome _ _ _ F) as [T _].
  destruct (T eq_refl) as (V & _).
  apply loadAVI_finish_fields in F. destruct F as (M & F & _).
  pose proof (u32_at_range (mainHeader p2) 0) as R.
  fold (mh_microSecPerFrame (mainHeader p2)) in R.
  assert (Z0 : fps p = 0 <-> 1000000 < mh_microSecPerFrame (mainHeader p)).
  { rewrite M, F. destruct (0 <? _) eqn:E.
    - apply Z.ltb_lt in E. split.
      + intros D. apply Z.div_small_iff in D; lia.
      + intros D. apply Z.div_small. lia.
    - apply Z.ltb_ge in E. split; [discriminate|lia]. }
  split; [exact Z0|].
  unfold play. rewrite V. destruct (fps p =? 0) eqn:E.
  - apply Z.eqb_eq in E. split; [intros _; apply Z0; exact E|reflexivity].
  - apply Z.eqb_neq in E. split; [discriminate|]. intros D. apply Z0 in D. contradiction.
Qed.

Lemma play_needs_frame_rate_witness :
  exists p,
    loadAVI [] [] (Some (avi_bytes slow_avi)) fresh_player = Some (true, p)
    /\ play [(false, true)] p = None.
Proof.
  eexists. split; [vm_compute; reflexivity|].
  match goal with
  | |- play _ ?q = None =>
    destruct (play_needs_frame_rate [] [] (Some (avi_bytes slow_avi)) fresh_player q
                [(false, true)] ltac:(vm_compute; reflexivity)) as (_ & H)
  end.
  apply H. vm_compute. reflexivity.
Defined.

(** ** Fetching a frame *)

Lemma convert_same p p' d px pitch :
  frameWidth p' = frameWidth p -> frameHeight p' = frameHeight p ->
  isTopDown p' = isTopDown p -> palette p' = palette p ->
  bitsPerPixel p' = bitsPerPixel p ->
  convertAndCopyFrame p' d px pitch = convertAndCopyFrame p d px pitch.
Proof.
  destruct p, p'. cbn. intros; subst. reflexivity.
Qed.

(** [renderFrame] on an index inside the frame index, with a texture. *)
Lemma renderFrame_spec i p t :
  0 <= i < Z.of_nat (length (frameOffsets p)) -> texture p = Some t ->
  let n := nth (Z.to_nat i) (frameSizes p) 0 in
  let r := stream_read n (seekg_abs (nth (Z.to_nat i) (frameOffsets p) 0) (file p)) in
  let px := convertAndCopyFrame p (overlay (fst r) (repeat x00 (Z.to_nat n)))
              (tex_pixels t) (tex_pitch t) in
  renderFrame i p
  = set_presented (presented p ++ [px])
      (set_texture (Some (mkTexture px (tex_pitch t))) (set_file (snd r) p)).
Proof.
  intros Hi Ht. cbv zeta. unfold renderFrame.
  destruct (_ <=? i) eqn:E; [apply Z.leb_le in E; lia|].
  destruct (stream_read _ _) as [got f2]. cbv zeta. cbn [fst snd]. psimpl.
  rewrite Ht.
  rewrite (convert_same p (set_file f2 p)) by (destruct p; reflexivity).
  reflexivity.
Qed.

Lemma stream_read_exact bytes pos n x :
  0 <= pos ->
  firstn (Z.to_nat n) (skipn (Z.to_nat pos) bytes) = x -> len x = n ->
  stream_read n (mkStream bytes pos false) = (x, mkStream bytes (pos + n) false).
Proof.
  intros Hp E L. unfold stream_read. cbn [failbit gpos contents].
  rewrite E. unfold len in L. rewrite L, Z.eqb_refl. reflexivity.
Qed.

(** The index entry of a frame chunk points at its payload. *)
Lemma frame_index_data cs : forall pre tail i d,
  Forall wf_movie_chunk cs -> (i < length (frames_in cs))%nat ->
  let e := nth i (frame_index (len pre) cs) (0, 0) in
  let c := nth i (frames_in cs) d in
  snd e = len (mc_data c) /\ 0 <= fst e
  /\ firstn (Z.to_nat (snd e))
       (skipn (Z.to_nat (fst e)) (pre ++ movi_body cs ++ tail))
     = mc_data c.
Proof.
  induction cs as [|c cs IH]; intros pre tail i d HF Hi; [cbn in Hi; lia|].
  inversion HF as [|? ? W HF']; subst.
  cbv zeta. cbn [frame_index frames_in filter movi_body flat_map].
  fold (movi_body cs). fold (frames_in cs).
  assert (Step : forall j, (j < length (frames_in cs))%nat ->
    let e := nth j (frame_index (len pre + len (movie_chunk_bytes c)) cs) (0, 0) in
    snd e = len (mc_data (nth j (frames_in cs) d)) /\ 0 <= fst e
    /\ firstn (Z.to_nat (snd e))
         (skipn (Z.to_nat (fst e))
            (pre ++ (movie_chunk_bytes c ++ movi_body cs) ++ tail))
       = mc_data (nth j (frames_in cs) d)).
  { intros j Hj. rewrite <- len_app.
    replace (pre ++ (movie_chunk_bytes c ++ movi_body cs) ++ tail)
      with ((pre ++ movie_chunk_bytes c) ++ movi_body cs ++ tail)
      by (rewrite <- !app_assoc; reflexivity).
    apply (IH (pre ++ movie_chunk_bytes c) tail j d HF' Hj). }
  cbn [frames_in filter] in Hi. fold (frames_in cs) in Hi.
  destruct (isFrameTag (mc_tag c)); [|apply Step; exact Hi].
  destruct i as [|i]; [|cbn [app nth]; apply Step; cbn [length] in Hi; lia].
  cbn [app nth fst snd]. pose proof (len_nonneg pre).
  split; [reflexivity|]. split; [lia|].
  unfold movie_chunk_bytes, chunk_bytes.
  replace (pre ++ ((mc_tag c ++ enc32 (len (mc_data c)) ++ mc_data c
                    ++ pad_bytes (mc_data c)) ++ movi_body cs) ++ tail)
    with ((pre ++ mc_tag c ++ enc32 (len (mc_data c)))
          ++ mc_data c ++ (pad_bytes (mc_data c) ++ movi_body cs ++ tail))
    by (rewrite <- !app_assoc; reflexivity).
  assert (L8 : Z.to_nat (len pre + 8)
               = length (pre ++ mc_tag c ++ enc32 (len (mc_data c)))).
  { rewrite !length_app, length_enc32. unfold wf_movie_chunk in W. rewrite W.
    unfold len. lia. }
  rewrite L8, skipn_app, skipn_all, Nat.sub_diag. cbn [app skipn].
  unfold len. rewrite Nat2Z.id, firstn_app, firstn_all, Nat.sub_diag.
  cbn [firstn]. apply app_nil_r.
Qed.

Lemma loadAVI_finish_sdl p :
  texture (snd (loadAVI_finish p)) = texture p
  /\ presented (snd (loadAVI_finish p)) = presented p.
Proof. exact (proj2 (loadAVI_finish_stream p)). Qed.



(** ** A file cut in the middle of the movie list *)

Section Truncated.

Variables (tex : option SDL_Texture) (pres : list (list byte)).
Variables (fw fh fps_ tf cf bpp Bpp : Z) (td : bool).
Variables (sdl : SDL_PixelFormatEnum) (valid : bool) (errs : list ErrMsg).
Variable bytes : list byte.

(** Indexing a movie list cut inside the chunk [c]: when the list
    declares more chunks after [c], the next header is looked for past the
    end of the file, and the read that fails leaves the stream failed. *)
Lemma indexFrames_truncated_state cs c m pos mh sh bh offs sizes pal M :
  Forall wf_movie_chunk cs -> wf_movie_chunk c ->
  at_pos bytes pos
    (movi_body cs ++ mc_tag c ++ enc32 (len (mc_data c)) ++ firstn m (mc_data c)) ->
  (m < length (mc_data c))%nat ->
  len (movi_body cs) < M ->
  pos + len (movi_body cs) + 8 + len (mc_data c) < 4294967296 ->
  exists f,
    contents f = bytes
    /\ failbit f = (len (movi_body cs) + len (movie_chunk_bytes c) <? M)
    /\ indexFrames M
         (mkPlayer tex pres (mkStream bytes pos false) mh sh bh fw fh fps_ tf cf
            bpp Bpp td offs sizes pal sdl valid errs)
       = Some (mkPlayer tex pres f mh sh bh fw fh fps_ tf cf bpp Bpp td
                 (offs ++ map fst (frame_index pos (cs ++ [c])))
                 (sizes ++ map snd (frame_index pos (cs ++ [c]))) pal
                 sdl valid errs).
Proof.
  intros HF W A Hm HM Hmax.
  pose proof (len_nonneg (movi_body cs)) as Rnn.
  pose proof (len_nonneg (mc_data c)) as Dnn.
  pose proof (Z.mod_pos_bound (len (mc_data c)) 2 ltac:(lia)) as Mb.
  pose proof A as [A0 _].
  assert (Lt : len (mc_tag c ++ enc32 (len (mc_data c))) = 8).
  { rewrite len_app, len_enc32. unfold len. rewrite W. reflexivity. }
  assert (Lf : len (firstn m (mc_data c)) = Z.of_nat m).
  { unfold len. rewrite length_firstn. lia. }
  assert (AL : pos + len (movi_body cs) + 8 + Z.of_nat m = len bytes).
  { pose proof (at_pos_app _ _ _ _ A) as A1.
    rewrite app_assoc in A1.
    pose proof (at_pos_length _ _ _ A1
                  (len_app_pos (mc_tag c ++ enc32 (len (mc_data c)))
                               (firstn m (mc_data c)) ltac:(lia))) as AL.
    rewrite len_app, Lt, Lf in AL. lia. }
  assert (Hc : (length cs < length bytes)%nat).
  { pose proof (movi_body_chunks cs HF). unfold len in *. lia. }
  unfold indexFrames. unfold fuel_of. psimpl. cbn [tellg failbit gpos contents].
  replace (S (length bytes))
    with (length cs + S (S (length bytes - length cs - 1)))%nat by lia.
  rewrite (indexFrames_chunks tex pres fw fh fps_ tf cf bpp Bpp td sdl valid errs
             bytes cs pos offs sizes _ (S (S (length bytes - length cs - 1)))
             (pos + M) mh sh bh pal HF A ltac:(lia) ltac:(lia)).
  rewrite indexFrames_loop_step. psimpl. cbn [tellg failbit gpos].
  replace (pos + len (movi_body cs) <? pos + M) with true
    by (symmetry; apply Z.ltb_lt; lia).
  pose proof (at_pos_app _ _ _ _ A) as A1. rewrite app_assoc in A1.
  rewrite (read_at bytes _ (mc_tag c ++ enc32 (len (mc_data c))) _
             sizeof_ChunkHeader A1 Lt).
  cbn [failbit]. rewrite decode_chunk_bytes by (try exact W; unfold len in *; lia).
  pnorm. unfold sizeof_ChunkHeader.
  rewrite (indexFrames_chunk_at tex pres fw fh fps_ tf cf bpp Bpp td sdl valid errs
             bytes) by lia.
  rewrite frame_index_app, !map_app, !app_assoc.
  cbn [frame_index]. rewrite app_nil_r.
  assert (E : forall (A B : Type) (g : A * B -> Z) (b : bool) (x : A * B),
             map g (if b then [x] else []) = if b then [g x] else []).
  { intros ? ? g [|] x; reflexivity. }
  rewrite !E. cbn [fst snd].
  rewrite indexFrames_loop_step. psimpl. cbn [tellg failbit gpos].
  rewrite (len_movie_chunk_bytes c W).
  replace (len (movi_body cs) + (8 + len (mc_data c) + len (mc_data c) mod 2) <? M)
    with (pos + len (movi_body cs) + 8 + len (mc_data c) + len (mc_data c) mod 2
          <? pos + M).
  2:{ destruct (_ <? pos + M) eqn:C1; symmetry;
        [apply Z.ltb_lt in C1; apply Z.ltb_lt|apply Z.ltb_ge in C1; apply Z.ltb_ge];
        lia. }
  destruct (_ <? pos + M).
  - destruct (read_past_end bytes
                (pos + len (movi_body cs) + 8 + len (mc_data c) + len (mc_data c) mod 2)
                sizeof_ChunkHeader) as [q R];
      [unfold len in *; lia | reflexivity |].
    rewrite R. cbn [failbit]. pnorm. eexists. split; [|split; [|reflexivity]];
      reflexivity.
  - eexists. split; [|split; [|reflexivity]]; reflexivity.
Qed.

End Truncated.

Lemma loadAVI_truncated_state a before c after m u1 u2 mh0 sh0 bh0 :
  wf_avi a ->
  af_movi a = before ++ c :: after ->
  (m < length (mc_data c))%nat ->
  exists f,
    contents f = avi_truncated a before c m
    /\ failbit f = negb (Nat.eqb (length after) 0)
    /\ let p := parsed_player a f
                  (frame_index (len (avi_prefix a)) (before ++ [c])) mh0 sh0 bh0 in
       loadAVI u1 u2 (Some (avi_truncated a before c m)) (AVIPlayer_ctor mh0 sh0 bh0)
       = if negb (Nat.eqb (length (frames_in (before ++ [c]))) 0)
         then Some (loadAVI_finish p)
         else Some (false, set_cerr (cerr p ++ [Err_FailedParse]) p).
Proof.
  intros W Hm Hcut.
  pose proof (wf_size a W) as Hsz. rewrite (wf_avi_sizes a W) in Hsz.
  pose proof (wf_movi a W) as HF. rewrite Hm in HF.
  apply Forall_app in HF. destruct HF as [HF1 HF2].
  inversion HF2 as [|? ? Wc HF3]; subst.
  pose proof (len_nonneg (af_trailer a)) as Tnn.
  pose proof (len_avi_prefix a) as LP. pose proof (len_nonneg (hdrl_body a)).
  assert (LM : len (movi_body (af_movi a))
               = len (movi_body before) + len (movie_chunk_bytes c)
                 + len (movi_body after)).
  { rewrite Hm, movi_body_app. cbn [movi_body flat_map]. fold (movi_body after).
    rewrite !len_app. lia. }
  pose proof (len_movie_chunk_bytes c Wc) as Lc.
  pose proof (len_nonneg (movi_body before)). pose proof (len_nonneg (movi_body after)).
  pose proof (len_nonneg (mc_data c)).
  pose proof (Z.mod_pos_bound (len (mc_data c)) 2 ltac:(lia)).
  unfold avi_truncated.
  pose proof (loadAVI_prefix a
                (movi_body before ++ mc_tag c ++ enc32 (len (mc_data c))
                 ++ firstn m (mc_data c))
                u1 u2 mh0 sh0 bh0 W ltac:(lia)) as E.
  cbv zeta in E. rewrite E. clear E.
  set (bytes := avi_prefix a ++ movi_body before ++ mc_tag c
                ++ enc32 (len (mc_data c)) ++ firstn m (mc_data c)).
  assert (A : at_pos bytes (len (avi_prefix a))
                (movi_body before ++ mc_tag c ++ enc32 (len (mc_data c))
                 ++ firstn m (mc_data c))).
  { exact (at_pos_app _ 0 (avi_prefix a) _ (at_pos_start _)). }
  unfold parsed_player at 1, AVIPlayer_ctor. pnorm. psimpl.
  destruct (indexFrames_truncated_state None [] 0 0 0 0 0 0 0 false
              SDL_PIXELFORMAT_UNKNOWN false [] bytes before c m (len (avi_prefix a))
              (af_avih a)
              (last_strh (af_streams a) (firstn 56 (sh0 ++ repeat x00 56)))
              (fst (format_of (af_streams a) (firstn 40 (bh0 ++ repeat x00 40), [])))
              [] []
              (snd (format_of (af_streams a) (firstn 40 (bh0 ++ repeat x00 40), [])))
              (len (movi_body (af_movi a))) HF1 Wc A Hcut ltac:(lia) ltac:(lia))
    as (f & Cf & Ff & E).
  exists f. split; [exact Cf|]. split.
  - rewrite Ff. pose proof (movi_body_chunks after HF3) as L8.
    destruct after as [|c2 after]; cbn [length Nat.eqb negb].
    + apply Z.ltb_ge. change (movi_body []) with (@nil byte) in LM.
      change (len []) with 0 in LM. lia.
    + apply Z.ltb_lt. cbn [length] in L8. lia.
  - cbv zeta. cbn [map].
    rewrite E. psimpl. cbn [app]. rewrite length_map, length_frame_index.
    unfold parsed_player, AVIPlayer_ctor. pnorm. psimpl. reflexivity.
Qed.

(** On a failed stream [renderFrame] reads nothing: the frame is decoded
    from as many zero bytes as the index declares. *)
Lemma renderFrame_failed_stream i p t :
  failbit (file p) = true ->
  0 <= i < Z.of_nat (length (frameOffsets p)) -> texture p = Some t ->
  presented (renderFrame i p)
  = presented p
    ++ [convertAndCopyFrame p
          (repeat x00 (Z.to_nat (nth (Z.to_nat i) (frameSizes p) 0)))
          (tex_pixels t) (tex_pitch t)]
  /\ file (renderFrame i p) = file p.
Proof.
  intros F Hi Ht. rewrite (renderFrame_spec i p t Hi Ht). cbv zeta. psimpl.
  unfold seekg_abs, stream_read. rewrite F. cbn [fst snd]. rewrite F.
  cbn [fst snd]. rewrite overlay_nil. split; reflexivity.
Qed.




(** ** The playback loop *)

Lemma play_loop_quit env p : play_loop env true p = p.
Proof. destruct env as [|[quitEvent due] env]; reflexivity. Qed.

Lemma play_loop_after_quit env1 : forall due env2 quit p,
  play_loop (env1 ++ (true, due) :: env2) quit p
  = play_loop (env1 ++ [(true, due)]) quit p.
Proof.
  induction env1 as [|[quitEvent d] env1 IH]; intros due env2 quit p.
  - cbn [app play_loop]. destruct (_ && _); [|reflexivity].
    rewrite orb_true_r, !play_loop_quit. reflexivity.
  - cbn [app play_loop]. destruct (_ && _); [|reflexivity]. apply IH.
Qed.

(** X17: Quitting.  The pass of the loop in which a quit event is polled is
    the last one: whatever passes might follow change nothing.  In that
    last pass a frame that is due is still rendered and counted. *)
Theorem play_stops_after_quit env1 due env2 p :
  play (env1 ++ (true, due) :: env2) p = play (env1 ++ [(true, due)]) p
  /\ (currentFrame p < totalFrames p ->
      play_loop ((true, true) :: env2) false p
      = set_currentFrame (wrap32 (currentFrame (renderFrame (currentFrame p) p) + 1))
          (renderFrame (currentFrame p) p)).
Proof.
  split.
  - unfold play. rewrite play_loop_after_quit. reflexivity.
  - intros H. cbn [play_loop negb andb].
    apply Z.ltb_lt in H. rewrite H. cbn [orb]. apply play_loop_quit.
Qed.

Lemma play_stops_after_quit_witness :
  play_loop [(true, true); (false, true)] false two_frame_player
  = set_currentFrame 1 two_frame_player.
Proof.
  rewrite (proj2 (play_stops_after_quit [] true [(false, true)] two_frame_player)
             ltac:(reflexivity)).
  reflexivity.
Defined.

Lemma renderFrame_progress i p :
  texture p <> None ->
  frameOffsets (renderFrame i p) = frameOffsets p
  /\ texture (renderFrame i p) <> None
  /\ Z.of_nat (length (presented (renderFrame i p)))
     = Z.of_nat (length (presented p))
       + (if i <? Z.of_nat (length (frameOffsets p)) then 1 else 0).
Proof.
  intros Ht. unfold renderFrame.
  destruct (_ <=? i) eqn:E.
  - apply Z.leb_le in E.
    destruct (i <? _) eqn:E2; [apply Z.ltb_lt in E2; lia|].
    repeat split; try assumption; lia.
  - apply Z.leb_gt in E.
    destruct (i <? _) eqn:E2; [|apply Z.ltb_ge in E2; lia].
    destruct (stream_read _ _) as [got f2]. cbv zeta. psimpl.
    destruct (texture p) as [t|]; [|congruence]. psimpl.
    repeat split; try discriminate. rewrite length_app. cbn [length]. lia.
Qed.

Lemma due_passes_nonneg env : 0 <= due_passes env.
Proof. unfold due_passes. lia. Qed.

Lemma play_loop_progress env : forall p,
  texture p <> None ->
  Forall (fun e => fst e = false) env ->
  0 <= currentFrame p <= totalFrames p -> totalFrames p < 4294967296 ->
  let q := play_loop env false p in
  let n := Z.of_nat (length (frameOffsets p)) in
  currentFrame q = Z.min (totalFrames p) (currentFrame p + due_passes env)
  /\ Z.of_nat (length (presented q))
     = Z.of_nat (length (presented p))
       + Z.max 0 (Z.min (currentFrame q) n - currentFrame p)
  /\ frameOffsets q = frameOffsets p.
Proof.
  induction env as [|[quitEvent due] env IH]; intros p Ht HF Hc Hmax; cbv zeta.
  { cbn [play_loop]. unfold due_passes. cbn [filter length]. repeat split; lia. }
  inversion HF as [|? ? Hq HF']; subst. cbn [fst] in Hq. subst quitEvent.
  pose proof (due_passes_nonneg env) as Dn.
  assert (Dd : due_passes ((false, due) :: env)
               = (if due then 1 else 0) + due_passes env).
  { unfold due_passes. cbn [filter snd]. destruct due; cbn [length]; lia. }
  cbn [play_loop negb andb orb].
  destruct (currentFrame p <? totalFrames p) eqn:C.
  2:{ apply Z.ltb_ge in C. rewrite Dd. destruct due; repeat split; lia. }
  apply Z.ltb_lt in C.
  destruct due.
  - destruct (renderFrame_counters (currentFrame p) p) as [R1 R2].
    destruct (renderFrame_progress (currentFrame p) p Ht) as (R3 & R4 & R5).
    match goal with
    | |- context [play_loop env false ?p'] => set (p1 := p')
    end.
    assert (E1 : currentFrame p1 = currentFrame p + 1).
    { unfold p1. psimpl. rewrite R1. apply wrap32_small. lia. }
    assert (E2 : totalFrames p1 = totalFrames p) by (unfold p1; psimpl; exact R2).
    assert (E3 : frameOffsets p1 = frameOffsets p) by (unfold p1; psimpl; exact R3).
    assert (E4 : texture p1 <> None) by (unfold p1; psimpl; exact R4).
    assert (E5 : presented p1 = presented (renderFrame (currentFrame p) p))
      by (unfold p1; psimpl; reflexivity).
    destruct (IH p1 E4 HF' ltac:(lia) ltac:(lia)) as (I1 & I2 & I3).
    rewrite E1, E2 in I1. rewrite E1, E3, E5, R5 in I2. rewrite E3 in I3.
    rewrite Dd. split; [lia|]. split; [|exact I3].
    rewrite I2. destruct (currentFrame p <? _) eqn:C2;
      [apply Z.ltb_lt in C2|apply Z.ltb_ge in C2]; lia.
  - destruct (IH p Ht HF' Hc Hmax) as (I1 & I2 & I3).
    rewrite Dd. repeat split; try assumption; lia.
Qed.

(** X16: Progress of playback without a quit event, on a player with a
    texture: the frame counter advances by one for every pass in which a
    frame is due, up to the frame count of the main header; an image is
    presented for exactly those counter values that lie inside the frame
    index.  Run to the end, playback shows min(totalFrames, number of
    index entries) images. *)
Theorem play_progress env p :
  isValid p = true -> fps p <> 0 -> texture p <> None ->
  Forall (fun e => fst e = false) env ->
  0 <= currentFrame p <= totalFrames p -> totalFrames p < 4294967296 ->
  exists q,
    play env p = Some q
    /\ currentFrame q = Z.min (totalFrames p) (currentFrame p + due_passes env)
    /\ Z.of_nat (length (presented q))
       = Z.of_nat (length (presented p))
         + Z.max 0 (Z.min (currentFrame q) (Z.of_nat (length (frameOffsets p)))
                    - currentFrame p).
Proof.
  intros V F Ht HF Hc Hmax. unfold play. rewrite V.
  destruct (fps p =? 0) eqn:E; [apply Z.eqb_eq in E; contradiction|].
  eexists. split; [reflexivity|].
  destruct (play_loop_progress env p Ht HF Hc Hmax) as (I1 & I2 & _).
  split; assumption.
Qed.

(** [sample_avi] declares five frames and holds two: six due passes move
    the counter to five and present two images. *)
Lemma play_progress_witness :
  exists q,
    play (repeat (false, true) 6) sample_player = Some q
    /\ currentFrame q = 5 /\ length (presented q) = 2%nat.
Proof.
  destruct (play_progress (repeat (false, true) 6) sample_player)
    as (q & E & C & L).
  - reflexivity.
  - vm_compute. discriminate.
  - vm_compute. discriminate.
  - repeat constructor.
  - vm_compute. split; discriminate.
  - reflexivity.
  - exists q. split; [exact E|]. split; [rewrite C; reflexivity|].
    apply Nat2Z.inj. rewrite L, C. reflexivity.
Defined.

(** ** main *)

Lemma loadAVI_keeps_sdl u1 u2 fs p0 ok q :
  loadAVI u1 u2 fs p0 = Some (ok, q) ->
  texture q = texture p0 /\ presented q = presented p0
  /\ currentFrame q = currentFrame p0.
Proof.
  intros E. apply loadAVI_cases in E.
  destruct E as [(_ & _ & ->)|(bytes & got & f1 & _ & _ & E)];
    [repeat split; reflexivity|].
  destruct E as [(_ & ->)|(found & p2 & L & E)]; [repeat split; reflexivity|].
  pose proof (parseAVIChunks_loop_keeps _ _ _ _ _ _ L) as K.
  unfold parse_keeps in K. psimpl in K.
  destruct K as (K1 & K2 & _ & _ & _ & _ & K7 & _).
  destruct E as [(_ & _ & ->)|(_ & _ & Fi)]; [psimpl; repeat split; assumption|].
  destruct (loadAVI_finish_sdl p2) as [S1 S2].
  pose proof (loadAVI_finish_counters _ _ _ Fi) as S3.
  rewrite Fi in S1, S2. cbn [snd] in S1, S2.
  repeat split; congruence.
Qed.




(** ** The length of a stream format chunk *)

Lemma length_quads_of_bytes : forall (n : nat) (l : list byte),
  length l = (4 * n)%nat -> length (quads_of_bytes l) = n.
Proof.
  induction n as [|n IH]; intros l L.
  - destruct l; [reflexivity|discriminate L].
  - destruct l as [|a [|b [|c [|d l]]]]; cbn [length] in L; try lia.
    cbn [quads_of_bytes length]. f_equal. apply IH. lia.
Qed.



(** ** Where the dimensions come from *)

Lemma loadAVI_finish_bitmap p :
  bitmapHeader (snd (loadAVI_finish p))
  = if bh_height (bitmapHeader p) <? 0
    then bh_set_height (bitmapHeader p) (- bh_height (bitmapHeader p))
    else bitmapHeader p.
Proof.
  unfold loadAVI_finish. cbv zeta.
  match goal with
  | |- context [determinePixelFormat ?p5] =>
    assert (P5 : bitmapHeader p5
                 = if bh_height (bitmapHeader p) <? 0
                   then bh_set_height (bitmapHeader p) (- bh_height (bitmapHeader p))
                   else bitmapHeader p);
      [|destruct (determinePixelFormat p5) as [ok' p6] eqn:D]
  end.
  { destruct (0 <? _); psimpl; destruct (_ <? 0); psimpl; reflexivity. }
  destruct (determinePixelFormat_outcome _ _ _ D) as (_ & B & _).
  rewrite <- P5, <- B. destruct ok'; cbn [snd]; psimpl; reflexivity.
Qed.

(** X10: The dimensions of a loaded file.  The width is that of the main
    header, whatever the bitmap header says.  The height is that of the
    main header for a bottom-up bitmap, whose own height is then not
    negative and not used; for a top-down bitmap it is the height the
    bitmap header holds after [loadAVI] has negated it. *)
Theorem frame_dimensions u1 u2 fs mh0 sh0 bh0 q :
  loadAVI u1 u2 fs (AVIPlayer_ctor mh0 sh0 bh0) = Some (true, q) ->
  frameWidth q = mh_width (mainHeader q)
  /\ (isTopDown q = false ->
      frameHeight q = mh_height (mainHeader q) /\ 0 <= bh_height (bitmapHeader q))
  /\ (isTopDown q = true -> frameHeight q = wrap32 (bh_height (bitmapHeader q))).
Proof.
  intros E. apply loadAVI_cases in E.
  destruct E as [(_ & D & _)|(bytes & got & f1 & _ & _ & E)]; [discriminate|].
  destruct E as [(D & _)|(found & p2 & L & E)]; [discriminate|].
  destruct E as [(_ & D & _)|(_ & _ & Fi)]; [discriminate|].
  pose proof (loadAVI_finish_fields _ _ _ Fi) as (M & _ & _ & W & _).
  pose proof (loadAVI_finish_orientation _ _ _ Fi) as (T & H & _).
  pose proof (loadAVI_finish_bitmap p2) as B. rewrite Fi in B. cbn [snd] in B.
  rewrite M, W, T, H, B.
  split; [reflexivity|].
  destruct (bh_height (bitmapHeader p2) <? 0) eqn:N.
  - split; [discriminate|]. intros _. reflexivity.
  - apply Z.ltb_ge in N. split; [|discriminate]. intros _. split; [reflexivity|exact N].
Qed.

Lemma frame_dimensions_witness :
  exists q,
    loadAVI [] [] (Some (avi_bytes sample_avi)) (AVIPlayer_ctor [] [] []) = Some (true, q)
    /\ frameWidth q = mh_width (mainHeader q).
Proof.
  eexists. split; [vm_compute; reflexivity|].
  match goal with
  | |- frameWidth ?q = _ =>
    exact (proj1 (frame_dimensions [] [] (Some (avi_bytes sample_avi)) [] [] [] q
                    ltac:(vm_compute; reflexivity)))
  end.
Defined.

(** ** Uninitialised buffers *)

Lemma stream_read_failed n s : failbit s = true -> stream_read n s = ([], s).
Proof. intros F. unfold stream_read. rewrite F. reflexivity. Qed.

Lemma seekg_cur_failed off s : failbit s = true -> seekg_cur off s = s.
Proof. intros F. unfold seekg_cur. rewrite F. reflexivity. Qed.

Lemma stream_read_full n s got s' :
  stream_read n s = (got, s') -> failbit s' = false -> length got = Z.to_nat n.
Proof.
  unfold stream_read. destruct (failbit s) eqn:F.
  - intros H F'. inversion H; subst. congruence.
  - destruct (_ =? n) eqn:E; intros H F'; inversion H; subst; [|discriminate].
    apply Z.eqb_eq in E. lia.
Qed.

Lemma set_file_same p : set_file (file p) p = p.
Proof. destruct p; reflexivity. Qed.

Lemma set_file_set_file f g p : set_file f (set_file g p) = set_file f p.
Proof. destruct p; reflexivity. Qed.

Lemma parseStreamList_failed sz p :
  failbit (file p) = true -> parseStreamList sz p = Some p.
Proof.
  intros F. unfold parseStreamList, fuel_of. cbn [parseStreamList_loop].
  destruct (0 <? sz); [|reflexivity].
  rewrite (stream_read_failed _ _ F), F, set_file_same. reflexivity.
Qed.

Lemma indexFrames_failed sz p :
  failbit (file p) = true -> indexFrames sz p = Some p.
Proof.
  intros F. unfold indexFrames, fuel_of. cbn [indexFrames_loop].
  destruct (_ <? _); [|reflexivity].
  rewrite (stream_read_failed _ _ F), F, set_file_same. reflexivity.
Qed.

Lemma overlay_any_listType u x :
  length x = 4%nat -> overlay x (firstn 4 (u ++ repeat x00 4)) = x.
Proof.
  intros H. apply overlay_full. rewrite H, length_firstn, length_app, repeat_length. lia.
Qed.

Section ListTypeBuffer.

Variables u u' : list byte.

Lemma parseHeaderList_failed sz p :
  failbit (file p) = true -> parseHeaderList u sz p = Some p.
Proof.
  intros F. unfold parseHeaderList, fuel_of. cbn [parseHeaderList_loop].
  destruct (0 <? sz); [|reflexivity].
  rewrite (stream_read_failed _ _ F), F, set_file_same. reflexivity.
Qed.

Lemma parseHeaderList_chunk_indep chunk br p :
  parseHeaderList_chunk u chunk br p = parseHeaderList_chunk u' chunk br p.
Proof.
  unfold parseHeaderList_chunk.
  destruct (strncmp4_eq _ FCC_avih); [reflexivity|].
  destruct (strncmp4_eq _ FCC_LIST); [|reflexivity].
  destruct (stream_read _ _) as [got f1] eqn:R. cbv zeta.
  destruct (failbit f1) eqn:F.
  - rewrite (parseStreamList_failed _ (set_file f1 p)) by (psimpl; exact F).
    psimpl. rewrite (seekg_cur_failed _ _ F), set_file_set_file.
    destruct (strncmp4_eq _ FCC_strl); destruct (strncmp4_eq _ FCC_strl); reflexivity.
  - pose proof (stream_read_full _ _ _ _ R F) as L.
    rewrite !overlay_any_listType by exact L. reflexivity.
Qed.

Lemma parseHeaderList_loop_indep fuel : forall sz br p,
  parseHeaderList_loop u fuel sz br p = parseHeaderList_loop u' fuel sz br p.
Proof.
  induction fuel as [|fuel IH]; intros sz br p; [reflexivity|].
  cbn [parseHeaderList_loop].
  destruct (br <? sz); [|reflexivity].
  destruct (stream_read _ _) as [raw f1].
  destruct (failbit f1); [reflexivity|].
  rewrite parseHeaderList_chunk_indep.
  destruct (parseHeaderList_chunk u' _ _ _) as [r|]; [|reflexivity]. apply IH.
Qed.

(** A list header whose type cannot be read: whatever the buffer holds,
    the chunk leaves the failed stream and nothing else. *)
Lemma parseAVIChunks_chunk_read_failed chunk found p got f2 :
  strncmp4_eq (fourCC chunk) FCC_LIST = true ->
  stream_read 4 (file p) = (got, f2) -> failbit f2 = true ->
  exists c f, parseAVIChunks_chunk u chunk found p = Some (c, f, set_file f2 p).
Proof.
  intros T R F. unfold parseAVIChunks_chunk. rewrite T, R. cbv zeta.
  rewrite (parseHeaderList_failed _ (set_file f2 p)) by (psimpl; exact F).
  rewrite (indexFrames_failed _ (set_file f2 p)) by (psimpl; exact F).
  psimpl. rewrite (seekg_cur_failed _ _ F), set_file_set_file.
  destruct (strncmp4_eq _ FCC_hdrl); [eexists; eexists; reflexivity|].
  destruct (strncmp4_eq _ FCC_movi); eexists; eexists; reflexivity.
Qed.

Lemma parseAVIChunks_chunk_read_ok chunk found p got f2 :
  strncmp4_eq (fourCC chunk) FCC_LIST = true ->
  stream_read 4 (file p) = (got, f2) -> failbit f2 = false ->
  parseAVIChunks_chunk u chunk found p
  = if strncmp4_eq got FCC_hdrl then
      p2 <- parseHeaderList u (wrap32 (size chunk - 4)) (set_file f2 p) ;;
      Some (true, true, p2)
    else if strncmp4_eq got FCC_movi then
      p2 <- indexFrames (wrap32 (size chunk - 4)) (set_file f2 p) ;;
      Some (false, found, p2)
    else
      Some (true, found,
            set_file (seekg_cur (wrap32 (size chunk - 4)) (file (set_file f2 p)))
              (set_file f2 p)).
Proof.
  intros T R F. unfold parseAVIChunks_chunk. rewrite T, R. cbv zeta.
  rewrite (overlay_any_listType u got (stream_read_full _ _ _ _ R F)). reflexivity.
Qed.

Lemma parseAVIChunks_loop_failed fuel found p :
  failbit (file p) = true ->
  parseAVIChunks_loop u (S fuel) found p = Some (found, p).
Proof.
  intros F. cbn [parseAVIChunks_loop].
  rewrite (stream_read_failed _ _ F), F, set_file_same. reflexivity.
Qed.

End ListTypeBuffer.

Section ListTypeLoop.

Variables u u' : list byte.

Lemma parseAVIChunks_loop_indep fuel : forall found p,
  sane (file p) -> (remaining (file p) < fuel)%nat -> frameOffsets p = [] ->
  match parseAVIChunks_loop u fuel found p, parseAVIChunks_loop u' fuel found p with
  | Some (f, q), Some (f', q') => q = q' /\ (f = f' \/ frameOffsets q = [])
  | None, None => True
  | _, _ => False
  end.
Proof.
  induction fuel as [|fuel IH]; intros found p S Hf O; [lia|].
  cbn [parseAVIChunks_loop].
  destruct (stream_read _ _) as [raw f1] eqn:R.
  pose proof (stream_read_advances _ _ _ _ R) as A1.
  destruct (failbit f1) eqn:F; [split; [reflexivity|left; reflexivity]|].
  pose proof (remaining_after_read _ _ _ R F S) as Hr.
  assert (S1 : sane (file (set_file f1 p))).
  { psimpl. eapply sane_advances; eassumption. }
  assert (Step : forall found1 p1,
            advances f1 (file p1) -> frameOffsets p1 = [] ->
            match parseAVIChunks_loop u fuel found1 p1,
                  parseAVIChunks_loop u' fuel found1 p1 with
            | Some (f, q), Some (f', q') => q = q' /\ (f = f' \/ frameOffsets q = [])
            | None, None => True
            | _, _ => False
            end).
  { intros found1 p1 A2 O1. apply IH; [|pose proof (remaining_advances _ _ A2); lia|exact O1].
    eapply sane_advances; [exact A2|]. eapply sane_advances; eassumption. }
  destruct (strncmp4_eq (fourCC (decode_chunk raw)) FCC_LIST) eqn:T.
  2:{ unfold parseAVIChunks_chunk. rewrite T. apply Step.
      - psimpl. adv_step.
      - psimpl. exact O. }
  destruct (stream_read 4 (file (set_file f1 p))) as [got f2] eqn:R2.
  pose proof (stream_read_advances _ _ _ _ R2) as A2. psimpl in A2.
  destruct (failbit f2) eqn:F2.
  - destruct (parseAVIChunks_chunk_read_failed u _ found _ _ _ T R2 F2) as (c & f & E).
    destruct (parseAVIChunks_chunk_read_failed u' _ found _ _ _ T R2 F2) as (c' & f' & E').
    rewrite E, E'. rewrite set_file_set_file.
    destruct fuel as [|fuel]; [lia|].
    assert (Ff : failbit (file (set_file f2 p)) = true) by (psimpl; exact F2).
    rewrite (parseAVIChunks_loop_failed u _ _ _ Ff), (parseAVIChunks_loop_failed u' _ _ _ Ff).
    destruct c, c'; (split; [reflexivity|right; psimpl; exact O]).
  - rewrite !(parseAVIChunks_chunk_read_ok _ _ found _ _ _ T R2 F2).
    rewrite set_file_set_file.
    destruct (strncmp4_eq got FCC_hdrl).
    + unfold parseHeaderList. rewrite (parseHeaderList_loop_indep u u').
      destruct (parseHeaderList_loop u' _ _ _ _) as [p2|] eqn:P; [|exact I].
      destruct (parseHeaderList_total u' (wrap32 (size (decode_chunk raw) - 4))
                  (set_file f2 p)) as (p' & P' & A3).
      { psimpl. eapply sane_advances; [exact A2|]. psimpl in S1. exact S1. }
      unfold parseHeaderList in P'. rewrite P in P'. inversion P'; subst p'.
      psimpl in A3.
      apply Step; [eapply advances_trans; eassumption|].
      destruct (parseHeaderList_loop_keeps _ _ _ _ _ _ P) as (_ & O2 & _).
      rewrite O2. psimpl. exact O.
    + destruct (strncmp4_eq got FCC_movi).
      * destruct (indexFrames _ _) as [p2|]; [|exact I].
        split; [reflexivity|left; reflexivity].
      * apply Step; [psimpl; apply advances_trans with f2; [exact A2|adv_step]|].
        psimpl. exact O.
Qed.

Lemma parseAVIChunks_indep p :
  sane (file p) -> frameOffsets p = [] ->
  parseAVIChunks u p = parseAVIChunks u' p.
Proof.
  intros S O. unfold parseAVIChunks.
  pose proof (parseAVIChunks_loop_indep (fuel_of p) false p S
                (remaining_lt_fuel p S) O) as H.
  destruct (parseAVIChunks_loop u _ _ _) as [[f q]|];
    destruct (parseAVIChunks_loop u' _ _ _) as [[f' q']|]; try contradiction;
    [|reflexivity].
  destruct H as [<- [<-|E]]; [reflexivity|].
  rewrite E. cbn [length Nat.eqb negb]. rewrite !andb_false_r. reflexivity.
Qed.

End ListTypeLoop.

(** X6: The two buffers [loadAVI] compares without having checked the read
    that fills them.  What the list-type buffer held before never
    matters: when the read comes up short the stream has failed, and
    every branch the comparison can take then leaves the same state and
    the same result.  What the RIFF header buffer held before does not
    matter for a file of twelve bytes or more. *)
Theorem uninitialised_buffers u1 u1' u2 u2' fs mh sh bh :
  loadAVI u1 u2 fs (AVIPlayer_ctor mh sh bh) = loadAVI u1' u2 fs (AVIPlayer_ctor mh sh bh)
  /\ (forall bytes, fs = Some bytes -> 12 <= len bytes ->
      loadAVI u1 u2 fs (AVIPlayer_ctor mh sh bh)
      = loadAVI u1 u2' fs (AVIPlayer_ctor mh sh bh)).
Proof.
  split.
  - unfold loadAVI. destruct fs as [bytes|]; [|reflexivity]. psimpl.
    destruct (stream_read _ _) as [got f1] eqn:R. cbv zeta.
    destruct (_ || _); [reflexivity|].
    rewrite (parseAVIChunks_indep u1 u1'); [reflexivity| |reflexivity].
    psimpl. eapply sane_advances; [exact (stream_read_advances _ _ _ _ R)|].
    intros _. cbn. lia.
  - intros bytes -> Hlen. unfold loadAVI. psimpl.
    destruct (stream_read _ _) as [got f1] eqn:R. cbv zeta.
    assert (L : length got = 12%nat).
    { revert R. unfold stream_read. cbn [failbit gpos contents skipn Z.to_nat].
      change (Z.to_nat sizeof_RIFFHeader) with 12%nat.
      intros R. assert (E : length (firstn 12 bytes) = 12%nat).
      { rewrite length_firstn. unfold len in Hlen. lia. }
      rewrite E in R. cbn in R. inversion R. exact E. }
    rewrite !(overlay_full got) by
      (rewrite L, length_firstn, length_app, repeat_length; lia).
    reflexivity.
Qed.

Lemma uninitialised_buffers_witness :
  loadAVI [] [] (Some (avi_bytes sample_avi)) (AVIPlayer_ctor [] [] [])
  = loadAVI [] FCC_RIFF (Some (avi_bytes sample_avi)) (AVIPlayer_ctor [] [] []).
Proof.
  apply (proj2 (uninitialised_buffers [] [] [] FCC_RIFF (Some (avi_bytes sample_avi))
                  [] [] []) (avi_bytes sample_avi) eq_refl).
  vm_compute. discriminate.
Defined.

(** ** Fetching a frame of an arbitrary file *)

Lemma loadAVI_contents u1 u2 bytes p0 ok q :
  loadAVI u1 u2 (Some bytes) p0 = Some (ok, q) -> contents (file q) = bytes.
Proof.
  intros E. apply loadAVI_cases in E.
  destruct E as [(D & _)|(b & got & f1 & Eb & R & E)]; [discriminate|].
  inversion Eb; subst b. clear Eb.
  pose proof (stream_read_advances _ _ _ _ R) as [C1 _]. cbn [contents] in C1.
  destruct E as [(_ & ->)|(found & p2 & L & E)]; [psimpl; exact C1|].
  destruct (parseAVIChunks_loop_total u1 (S (length bytes)) false (set_file f1 p0))
    as (r & L' & [C2 _]).
  { psimpl. eapply sane_advances; [exact (stream_read_advances _ _ _ _ R)|].
    intros _. cbn. lia. }
  { psimpl. pose proof (stream_read_advances _ _ _ _ R) as A.
    pose proof (remaining_advances _ _ A) as Hr.
    unfold remaining in Hr at 2. cbn [failbit contents gpos] in Hr. unfold len in Hr. lia. }
  rewrite L in L'. inversion L'; subst r. cbn [snd] in C2. psimpl in C2.
  destruct E as [(_ & _ & ->)|(_ & _ & Fi)]; [psimpl; congruence|].
  pose proof (loadAVI_finish_file p2) as Ff. rewrite Fi in Ff. cbn [snd] in Ff.
  rewrite Ff. congruence.
Qed.


